(** * Gym membership pricing: a shallow embedding of [gym_membership/pricing.py]

    The Python module is a catalog of three dictionaries, a validation
    function that collects every violation, and a fixed-order integer
    pipeline (base total, group discount, premium surcharge, special
    offer).  Python integers are unbounded, so they are [Z]; [//] by a
    positive constant is [Z.div] (floor).  Dictionaries are [gmap string],
    the [seen] set of the de-duplication loop is a [gset string].
    Exceptions are an explicit [result] monad.  Strings are sequences of
    code points below 256 (the Latin-1 part of Python's [str]).  The module
    is given twice: as functions on values, and on an explicit store of
    objects ([Heap]), where what a call reads, writes and leaves behind can
    be stated. *)

From Stdlib Require Import ZArith String Ascii List Lia.
From Stdlib Require Import DecimalString DecimalPos DecimalZ SpecFloat.
From stdpp Require Import base gmap strings list fin_maps.
Import ListNotations.

Set Warnings "-clear-no-such-hyp".

Open Scope Z_scope.

(** ** Data model *)

Record CatalogItem := mkCatalogItem {
  code : string;
  name : string;
  price_usd : Z;
  available : bool;
  is_premium : bool
}.

Record CalculationResult := mkCalculationResult {
  members : Z;
  plan : CatalogItem;
  addons : list CatalogItem;
  premium_features : list CatalogItem;
  base_total_usd : Z;
  group_discount_usd : Z;
  premium_surcharge_usd : Z;
  special_offer_discount_usd : Z;
  total_usd : Z;
  messages : list string
}.

(** ** Exceptions *)

Inductive exn :=
| ValueError (msg : string)
| KeyError (key : string).

Inductive result (A : Type) :=
| Ok (a : A)
| Raise (e : exn).

Arguments Ok {A} a.
Arguments Raise {A} e.

#[global] Instance result_bind : MBind result := fun A B k m =>
  match m with
  | Ok a => k a
  | Raise e => Raise e
  end.

(** ** Python built-ins used by the module *)

(** [d[k]]: subscripting a dictionary raises [KeyError] on a missing key. *)
Definition getitem (d : gmap string CatalogItem) (k : string) : result CatalogItem :=
  match d !! k with
  | Some v => Ok v
  | None => Raise (KeyError k)
  end.

(** [tuple(d[c] for c in codes)]: the generator is consumed left to right. *)
Fixpoint getitems (d : gmap string CatalogItem) (codes : list string)
  : result (list CatalogItem) :=
  match codes with
  | [] => Ok []
  | c :: cs => v ← getitem d c; vs ← getitems d cs; Ok (v :: vs)
  end.

(** [sum(...)]: starts from 0 and adds from the left. *)
Definition sum (l : list Z) : Z := fold_left Z.add l 0.

(** [sep.join(l)]. *)
Definition join (sep : string) (l : list string) : string := String.concat sep l.

Definition squote : ascii := "'"%char.
Definition dquote : ascii := "034"%char.
Definition backslash : ascii := "\"%char.

Fixpoint contains_char (c : ascii) (s : string) : bool :=
  match s with
  | EmptyString => false
  | String x s' => Ascii.eqb x c || contains_char c s'
  end.

Definition hex_digit (n : N) : ascii :=
  match String.get (N.to_nat n) "0123456789abcdef" with
  | Some c => c
  | None => "0"%char
  end.

(** [str.isprintable] on the code points below 256: controls (C0, DEL, C1),
    the no-break space U+00A0 and the soft hyphen U+00AD are not printable. *)
Definition is_printable (n : N) : bool :=
  ((32 <=? n) && (n <? 127) || (161 <=? n) && negb (n =? 173))%N.

Definition repr_char (quote ch : ascii) : string :=
  let n := N_of_ascii ch in
  if Ascii.eqb ch quote || Ascii.eqb ch backslash then String backslash (String ch "")
  else if Ascii.eqb ch "009" then "\t"
  else if Ascii.eqb ch "010" then "\n"
  else if Ascii.eqb ch "013" then "\r"
  else if is_printable n then String ch ""
  else "\x" +:+ String (hex_digit (n / 16)) (String (hex_digit (n mod 16)) "").

Fixpoint repr_body (quote : ascii) (s : string) : string :=
  match s with
  | EmptyString => ""
  | String ch s' => repr_char quote ch +:+ repr_body quote s'
  end.

(** [repr(s)] of a string, the [!r] conversion of the f-strings: single
    quotes unless the text has a single quote and no double quote. *)
Definition repr (s : string) : string :=
  let quote := if contains_char squote s && negb (contains_char dquote s)
               then dquote else squote in
  String quote (repr_body quote s +:+ String quote "").

(** ** De-duplication *)

Fixpoint dedupe_loop (values : list string) (seen : gset string) (out : list string)
  : list string :=
  match values with
  | [] => out
  | v :: values' =>
      if decide (v ∈ seen) then dedupe_loop values' seen out
      else dedupe_loop values' ({[v]} ∪ seen) (out ++ [v])
  end.

Definition _dedupe_preserve_order (values : list string) : list string :=
  dedupe_loop values ∅ [].

(** ** Pricing rules *)

Definition _special_offer_discount (total_usd : Z) : Z :=
  if total_usd >? 400 then 50
  else if total_usd >? 200 then 20
  else 0.

Definition config_error : string :=
  "calculated total is not positive; check pricing configuration.".

Definition group_note : string :=
  "Group discount applied: 10% off for 2+ members on the same plan.".
Definition surcharge_note : string :=
  "Premium surcharge applied: +15% (premium features selected).".
Definition offer20_note : string :=
  "Special offer applied: -$20 (total exceeds $200).".
Definition offer50_note : string :=
  "Special offer applied: -$50 (total exceeds $400).".

Module Engine.
Section WithCatalog.

(** The three module-level dictionaries, read but never written. *)
Variables PLANS ADDONS PREMIUM_FEATURES : gmap string CatalogItem.

(** Body of the loop over the de-duplicated add-on codes: [errors.append]
    is [errors ++ [_]]. *)
Definition check_addon (errors : list string) (code : string) : list string :=
  match ADDONS !! code with
  | None => errors ++ ["unknown add-on: " +:+ repr code +:+ "."]
  | Some item =>
      if negb (available item)
      then errors ++ ["add-on '" +:+ code +:+ "' is not available."]
      else errors
  end.

(** Body of the loop over the de-duplicated premium codes. *)
Definition check_premium (errors : list string) (code : string) : list string :=
  match PREMIUM_FEATURES !! code with
  | None => errors ++ ["unknown premium feature: " +:+ repr code +:+ "."]
  | Some item =>
      if negb (available item)
      then errors ++ ["premium feature '" +:+ code +:+ "' is not available."]
      else errors
  end.

(** [validate_selection]: [members] is an [int], so the [isinstance] test
    holds and the first rule is [members <= 0]; every rule is checked and
    appends to the same list. *)
Definition validate_selection (members : Z) (plan_code : string)
    (addon_codes premium_codes : list string) : list string :=
  let errors : list string := [] in
  let errors :=
    if members <=? 0
    then errors ++ ["members must be a positive integer."]
    else errors in
  let errors :=
    match PLANS !! plan_code with
    | None => errors ++ ["unknown plan: " +:+ repr plan_code +:+ "."]
    | Some item =>
        if negb (available item)
        then errors ++ ["plan '" +:+ plan_code +:+ "' is not available."]
        else errors
    end in
  let errors := fold_left check_addon (_dedupe_preserve_order addon_codes) errors in
  let errors := fold_left check_premium (_dedupe_preserve_order premium_codes) errors in
  errors.

(** [calculate_total]: [raise ValueError] is [Raise (ValueError _)],
    [if errors:] tests the list for emptiness, [if premium_features:] the
    tuple. *)
Definition calculate_total (members : Z) (plan_code : string)
    (addon_codes premium_codes : list string) : result CalculationResult :=
  let addon_codes_list := _dedupe_preserve_order addon_codes in
  let premium_codes_list := _dedupe_preserve_order premium_codes in
  let errors := validate_selection members plan_code addon_codes_list premium_codes_list in
  match errors with
  | _ :: _ => Raise (ValueError (join "; " errors))
  | [] =>
    plan ← getitem PLANS plan_code;
    addons ← getitems ADDONS addon_codes_list;
    premium_features ← getitems PREMIUM_FEATURES premium_codes_list;
    let per_member :=
      price_usd plan + sum (map price_usd addons)
      + sum (map price_usd premium_features) in
    let base_total := members * per_member in
    let messages : list string := [] in
    let messages := if members >=? 2 then messages ++ [group_note] else messages in
    let group_discount := if members >=? 2 then (base_total * 10) / 100 else 0 in
    let after_group := base_total - group_discount in
    let premium_surcharge := 0 in
    let '(messages, premium_surcharge) :=
      match premium_features with
      | _ :: _ => (messages ++ [surcharge_note], (after_group * 15) / 100)
      | [] => (messages, premium_surcharge)
      end in
    let after_surcharge := after_group + premium_surcharge in
    let special_offer := _special_offer_discount after_surcharge in
    let messages :=
      if special_offer =? 20 then messages ++ [offer20_note]
      else if special_offer =? 50 then messages ++ [offer50_note]
      else messages in
    let total := after_surcharge - special_offer in
    if total <=? 0 then Raise (ValueError config_error)
    else Ok {| members := members;
               plan := plan;
               addons := addons;
               premium_features := premium_features;
               base_total_usd := base_total;
               group_discount_usd := group_discount;
               premium_surcharge_usd := premium_surcharge;
               special_offer_discount_usd := special_offer;
               total_usd := total;
               messages := messages |}
  end.

End WithCatalog.
End Engine.

(** ** The seed catalog *)

Definition PLANS : gmap string CatalogItem :=
  <["basic" := mkCatalogItem "basic" "Basic" 60 true false]>
  (<["premium" := mkCatalogItem "premium" "Premium" 100 true false]>
  (<["family" := mkCatalogItem "family" "Family" 160 true false]> ∅)).

Definition ADDONS : gmap string CatalogItem :=
  <["nutrition" := mkCatalogItem "nutrition" "Nutrition plan" 20 true false]>
  (<["classes" := mkCatalogItem "classes" "Group classes" 40 true false]>
  (<["pt" := mkCatalogItem "pt" "Personal training sessions" 60 true false]> ∅)).

Definition PREMIUM_FEATURES : gmap string CatalogItem :=
  <["exclusive" :=
      mkCatalogItem "exclusive" "Exclusive facilities access" 80 true true]>
  (<["specialized" :=
      mkCatalogItem "specialized" "Specialized training program" 120 true true]> ∅).

Definition validate_selection : Z -> string -> list string -> list string -> list string :=
  Engine.validate_selection PLANS ADDONS PREMIUM_FEATURES.

Definition calculate_total
  : Z -> string -> list string -> list string -> result CalculationResult :=
  Engine.calculate_total PLANS ADDONS PREMIUM_FEATURES.


(** ** Reference definitions used to state the properties *)

(** De-duplication without the [out] accumulator: what the loop appends
    when it starts from the set [seen]. *)
Fixpoint dedupe_from (seen : gset string) (values : list string) : list string :=
  match values with
  | [] => []
  | v :: values' =>
      if decide (v ∈ seen) then dedupe_from seen values'
      else v :: dedupe_from ({[v]} ∪ seen) values'
  end.

(** The specification's wording: keep the first occurrence of every code,
    in the order of the input. *)
Fixpoint first_occurrences (values : list string) : list string :=
  match values with
  | [] => []
  | v :: values' => v :: filter (fun w => w ≠ v) (first_occurrences values')
  end.

(** The text of each violation message. *)
Definition members_msg : string := "members must be a positive integer.".
Definition unknown_msg (kind code : string) : string :=
  "unknown " +:+ kind +:+ ": " +:+ repr code +:+ ".".
Definition unavailable_msg (kind code : string) : string :=
  kind +:+ " '" +:+ code +:+ "' is not available.".

(** What one registry rule reports about one code: nothing, or one message. *)
Definition registry_errors (kind : string) (registry : gmap string CatalogItem)
    (code : string) : list string :=
  match registry !! code with
  | None => [unknown_msg kind code]
  | Some item => if available item then [] else [unavailable_msg kind code]
  end.

Definition members_errors (members : Z) : list string :=
  if decide (0 < members) then [] else [members_msg].

(** The specification's pipeline (section 4.3) on resolved catalog items. *)
Definition total_price (items : list CatalogItem) : Z :=
  foldr (fun item acc => price_usd item + acc) 0 items.

Definition special_offer_step (t : Z) : Z :=
  if decide (400 < t) then 50 else if decide (200 < t) then 20 else 0.

Definition group_discount_of (members base_total : Z) : Z :=
  if decide (2 <= members) then (base_total * 10) `div` 100 else 0.

Definition premium_surcharge_of (premiums : list CatalogItem) (after_group : Z) : Z :=
  match premiums with
  | [] => 0
  | _ :: _ => (after_group * 15) `div` 100
  end.

Definition notes_of (members : Z) (premiums : list CatalogItem) (special_offer : Z)
  : list string :=
  (if decide (2 <= members) then [group_note] else [])
  ++ (match premiums with [] => [] | _ :: _ => [surcharge_note] end)
  ++ (if decide (special_offer = 20) then [offer20_note]
      else if decide (special_offer = 50) then [offer50_note] else []).

Definition priced (members : Z) (plan : CatalogItem)
    (addons premiums : list CatalogItem) : CalculationResult :=
  let base_total :=
    members * (price_usd plan + total_price addons + total_price premiums) in
  let group_discount := group_discount_of members base_total in
  let premium_surcharge := premium_surcharge_of premiums (base_total - group_discount) in
  let after_surcharge := base_total - group_discount + premium_surcharge in
  let special_offer := special_offer_step after_surcharge in
  {| members := members;
     plan := plan;
     addons := addons;
     premium_features := premiums;
     base_total_usd := base_total;
     group_discount_usd := group_discount;
     premium_surcharge_usd := premium_surcharge;
     special_offer_discount_usd := special_offer;
     total_usd := after_surcharge - special_offer;
     messages := notes_of members premiums special_offer |}.

(** First character of a message, used to tell the two [ValueError]s apart. *)
Definition first_char (s : string) : option ascii :=
  match s with
  | EmptyString => None
  | String c _ => Some c
  end.

(** A catalog whose only plan costs 4, to separate a rule's condition from
    its monetary effect: ten percent of 8 floors to 0. *)
Definition TRIAL_PLANS : gmap string CatalogItem :=
  {["trial" := mkCatalogItem "trial" "Trial" 4 true false]}.

(** A catalog whose only plan is free: a valid selection over it computes
    a total of 0. *)
Definition FREE_PLANS : gmap string CatalogItem :=
  {["free" := mkCatalogItem "free" "Free" 0 true false]}.

(** A registry with a withdrawn add-on. *)
Definition WITHDRAWN_ADDONS : gmap string CatalogItem :=
  <["sauna" := mkCatalogItem "sauna" "Sauna" 30 false false]> ADDONS.

(** The price a registry gives to a code, 0 for a missing code. *)
Definition price_of (registry : gmap string CatalogItem) (c : string) : Z :=
  from_option price_usd 0 (registry !! c).

(** Membership of a note in a concrete list of notes. *)
Ltac note_membership :=
  unfold group_note, surcharge_note, offer20_note, offer50_note;
  simpl; intuition (try discriminate; try lia; try done).

(** * The pricing module on the interpreter's store

    The definitions above give [calculate_total] as a function of its
    arguments and of the catalog.  The Python function runs on a store of
    objects; whether a call depends on what an earlier call did, or leaves
    something behind for a later one, shows only there.  So the three
    functions of the module are given a second time with the store explicit.
    Every object that Python can change is a cell of the store: the lists
    [errors], [out] and [messages], the set [seen], the three module
    dictionaries, and a list passed as an argument.  Integers, strings,
    tuples and the frozen dataclasses cannot be changed and stay values.
    An address is an index in the store; a new object gets the next one. *)

Module Heap.

(** The objects of the store.  The module tests membership in its set
    and its dictionaries and subscripts the dictionaries; it never iterates
    over them, so their order plays no part and they are a [gset] and a
    [gmap]. *)
Inductive object :=
| ListObj (items : list string)
| SetObj (elements : gset string)
| DictObj (entries : gmap string CatalogItem).

(** An argument of type [Iterable[str]]: a tuple, such as the default
    [()], or a reference to a list object.  Iterators that can be consumed
    only once are left out: the callers pass sequences. *)
Inductive iterable :=
| Tuple (items : list string)
| ListRef (l : nat).

(** The global names [PLANS], [ADDONS] and [PREMIUM_FEATURES] of the
    module: the addresses of three dictionary objects.  No function of the
    module assigns to these names. *)
Record globals := mkGlobals {
  PLANS_ref : nat;
  ADDONS_ref : nat;
  PREMIUM_FEATURES_ref : nat
}.

(** The store is a list of objects, the object at address [l] is the
    element of index [l].  A computation on the store ends with a value or
    an exception and the store it leaves.  [None] is for a store that is not
    as the type annotations say (no object at an address, or one of another
    type) and for a loop that outruns its bound, see [iterate]. *)
Definition st (A : Type) : Type := list object -> option (result A * list object).

#[global] Instance st_ret : MRet st := fun A a h => Some (Ok a, h).

#[global] Instance st_bind : MBind st := fun A B k m h =>
  match m h with
  | Some (Ok a, h') => k a h'
  | Some (Raise e, h') => Some (Raise e, h')
  | None => None
  end.

Definition raise {A} (e : exn) : st A := fun h => Some (Raise e, h).

(** [[]] and [set()]: a new object, at an address that no object has. *)
Definition new (o : object) : st nat := fun h => Some (Ok (length h), h ++ [o]).

Definition read_list (l : nat) : st (list string) := fun h =>
  match h !! l with
  | Some (ListObj items) => Some (Ok items, h)
  | _ => None
  end.

Definition read_set (l : nat) : st (gset string) := fun h =>
  match h !! l with
  | Some (SetObj elements) => Some (Ok elements, h)
  | _ => None
  end.

Definition read_dict (l : nat) : st (gmap string CatalogItem) := fun h =>
  match h !! l with
  | Some (DictObj entries) => Some (Ok entries, h)
  | _ => None
  end.

(** [xs.append(x)]: the list object at [l] is changed in place. *)
Definition list_append (l : nat) (x : string) : st unit := fun h =>
  match h !! l with
  | Some (ListObj items) => Some (Ok tt, <[l := ListObj (items ++ [x])]> h)
  | _ => None
  end.

(** [s.add(x)]: the set object at [l] is changed in place. *)
Definition set_add (l : nat) (x : string) : st unit := fun h =>
  match h !! l with
  | Some (SetObj elements) => Some (Ok tt, <[l := SetObj ({[x]} ∪ elements)]> h)
  | _ => None
  end.

(** [k in d] and [d[k]] on the dictionary object at [d]. *)
Definition dict_contains (d : nat) (k : string) : st bool :=
  entries ← read_dict d;
  mret (bool_decide (is_Some (entries !! k))).

Definition dict_getitem (d : nat) (k : string) : st CatalogItem :=
  entries ← read_dict d;
  match entries !! k with
  | Some v => mret v
  | None => raise (KeyError k)
  end.

(** [for x in xs] over a list object, with the value [acc] that the body
    carries along: the iterator keeps an index and reads the object again at
    every step, so it sees what the body does to the list.  [fuel] bounds
    the number of steps. *)
Fixpoint iterate_list {B} (fuel : nat) (l : nat) (i : nat)
    (body : B -> string -> st B) (acc : B) : st B := fun h =>
  match h !! l with
  | Some (ListObj items) =>
      match items !! i with
      | None => Some (Ok acc, h)
      | Some x =>
          match fuel with
          | O => None
          | S fuel' =>
              (acc' ← body acc x; iterate_list fuel' l (S i) body acc') h
          end
      end
  | _ => None
  end.

(** [for x in xs] over a tuple. *)
Fixpoint iterate_tuple {B} (items : list string)
    (body : B -> string -> st B) (acc : B) : st B :=
  match items with
  | [] => mret acc
  | x :: items' => acc' ← body acc x; iterate_tuple items' body acc'
  end.

(** [for x in values]: over a list object the bound is the length of the
    list when the loop starts, which is enough when the body leaves that
    list alone. *)
Definition iterate {B} (values : iterable) (body : B -> string -> st B) (acc : B)
  : st B :=
  match values with
  | Tuple items => iterate_tuple items body acc
  | ListRef l => fun h =>
      match h !! l with
      | Some (ListObj items) => iterate_list (length items) l 0 body acc h
      | _ => None
      end
  end.

(** [_dedupe_preserve_order]: returns the address of the new list [out]. *)
Definition _dedupe_preserve_order (values : iterable) : st nat :=
  seen ← new (SetObj ∅);
  out ← new (ListObj []);
  iterate values (fun _ v =>
    elements ← read_set seen;
    if decide (v ∈ elements) then mret tt
    else list_append out v;; set_add seen v) tt;;
  mret out.

Section WithGlobals.

Variable g : globals.

(** [validate_selection]: returns the address of the new list [errors];
    [members] is an [int], as in the function on values. *)
Definition validate_selection (members : Z) (plan_code : string)
    (addon_codes premium_codes : iterable) : st nat :=
  errors ← new (ListObj []);
  (if members <=? 0
   then list_append errors "members must be a positive integer."
   else mret tt);;
  known ← dict_contains (PLANS_ref g) plan_code;
  (if negb known
   then list_append errors ("unknown plan: " +:+ repr plan_code +:+ ".")
   else
     item ← dict_getitem (PLANS_ref g) plan_code;
     if negb (available item)
     then list_append errors ("plan '" +:+ plan_code +:+ "' is not available.")
     else mret tt);;
  codes ← _dedupe_preserve_order addon_codes;
  iterate (ListRef codes) (fun _ code =>
    known ← dict_contains (ADDONS_ref g) code;
    if negb known
    then list_append errors ("unknown add-on: " +:+ repr code +:+ ".")
    else
      item ← dict_getitem (ADDONS_ref g) code;
      if negb (available item)
      then list_append errors ("add-on '" +:+ code +:+ "' is not available.")
      else mret tt) tt;;
  codes ← _dedupe_preserve_order premium_codes;
  iterate (ListRef codes) (fun _ code =>
    known ← dict_contains (PREMIUM_FEATURES_ref g) code;
    if negb known
    then list_append errors ("unknown premium feature: " +:+ repr code +:+ ".")
    else
      item ← dict_getitem (PREMIUM_FEATURES_ref g) code;
      if negb (available item)
      then list_append errors
             ("premium feature '" +:+ code +:+ "' is not available.")
      else mret tt) tt;;
  mret errors.

(** [tuple(d[c] for c in codes)] for the list object at [codes] and the
    dictionary object at [d]. *)
Definition tuple_of_items (d : nat) (codes : nat) : st (list CatalogItem) :=
  iterate (ListRef codes) (fun items c =>
    item ← dict_getitem d c;
    mret (items ++ [item])) [].

(** [calculate_total]: the result is a frozen dataclass of integers, items
    and tuples, so it is a value; [tuple(messages)] copies the list object
    [messages] into it. *)
Definition calculate_total (members : Z) (plan_code : string)
    (addon_codes premium_codes : iterable) : st CalculationResult :=
  addon_codes_list ← _dedupe_preserve_order addon_codes;
  premium_codes_list ← _dedupe_preserve_order premium_codes;
  errors ← validate_selection members plan_code
             (ListRef addon_codes_list) (ListRef premium_codes_list);
  found ← read_list errors;
  match found with
  | _ :: _ => raise (ValueError (join "; " found))
  | [] =>
    plan ← dict_getitem (PLANS_ref g) plan_code;
    addons ← tuple_of_items (ADDONS_ref g) addon_codes_list;
    premium_features ← tuple_of_items (PREMIUM_FEATURES_ref g) premium_codes_list;
    let per_member :=
      price_usd plan + sum (map price_usd addons)
      + sum (map price_usd premium_features) in
    let base_total := members * per_member in
    messages ← new (ListObj []);
    (if members >=? 2 then list_append messages group_note else mret tt);;
    let group_discount := if members >=? 2 then (base_total * 10) / 100 else 0 in
    let after_group := base_total - group_discount in
    premium_surcharge ←
      match premium_features with
      | _ :: _ =>
          list_append messages surcharge_note;; mret ((after_group * 15) / 100)
      | [] => mret 0
      end;
    let after_surcharge := after_group + premium_surcharge in
    let special_offer := _special_offer_discount after_surcharge in
    (if special_offer =? 20 then list_append messages offer20_note
     else if special_offer =? 50 then list_append messages offer50_note
     else mret tt);;
    let total := after_surcharge - special_offer in
    if total <=? 0 then raise (ValueError config_error)
    else
      notes ← read_list messages;
      mret {| members := members;
              plan := plan;
              addons := addons;
              premium_features := premium_features;
              base_total_usd := base_total;
              group_discount_usd := group_discount;
              premium_surcharge_usd := premium_surcharge;
              special_offer_discount_usd := special_offer;
              total_usd := total;
              messages := notes |}
  end.

End WithGlobals.

(** The sequence that an argument stands for in a store. *)
Definition holds (h : list object) (values : iterable) (items : list string) : Prop :=
  match values with
  | Tuple items' => items' = items
  | ListRef l => h !! l = Some (ListObj items)
  end.

(** The three module dictionaries as a store holds them. *)
Definition catalog (h : list object) (g : globals)
    (plans extras features : gmap string CatalogItem) : Prop :=
  h !! PLANS_ref g = Some (DictObj plans)
  /\ h !! ADDONS_ref g = Some (DictObj extras)
  /\ h !! PREMIUM_FEATURES_ref g = Some (DictObj features).

(** A store with the seed catalog at the addresses 0, 1 and 2, and one
    list object, the add-on codes that a caller built. *)
Definition seed_globals : globals := mkGlobals 0 1 2.

Definition seed_store (codes : list string) : list object :=
  [DictObj PLANS; DictObj ADDONS; DictObj PREMIUM_FEATURES; ListObj codes].

End Heap.

(** * The command-line front end ([gym_membership/cli.py])

    [input] and [print] act on a console: the keyboard is a list of pending
    lines (or interrupts), the end of the list is the end of the input; what
    the program shows is a trace of events, the texts given to [print] and
    the prompts given to [input], oldest first. *)

(** ** String methods and conversions *)

Definition nl : string := String "010" "".

(** [str.isspace] on one code point below 256. *)
Definition is_space (c : ascii) : bool :=
  let n := N_of_ascii c in
  ((9 <=? n) && (n <=? 13) || (28 <=? n) && (n <=? 32)
   || (n =? 133) || (n =? 160))%N.

Fixpoint lstrip (s : string) : string :=
  match s with
  | EmptyString => EmptyString
  | String c s' => if is_space c then lstrip s' else s
  end.

Fixpoint rstrip (s : string) : string :=
  match s with
  | EmptyString => EmptyString
  | String c s' =>
      match rstrip s' with
      | EmptyString => if is_space c then EmptyString else String c EmptyString
      | String c' r => String c (String c' r)
      end
  end.

(** [s.strip()]. *)
Definition strip (s : string) : string := rstrip (lstrip s).

(** [str.lower] on one code point below 256: the letters A-Z and the
    capital letters U+00C0 to U+00DE (the sign U+00D7 is not a letter). *)
Definition lower_char (c : ascii) : ascii :=
  let n := N_of_ascii c in
  if ((65 <=? n) && (n <=? 90)
      || (192 <=? n) && (n <=? 222) && negb (n =? 215))%N
  then ascii_of_N (n + 32) else c.

(** [s.lower()]. *)
Fixpoint lower (s : string) : string :=
  match s with
  | EmptyString => EmptyString
  | String c s' => String (lower_char c) (lower s')
  end.

(** [s.replace(old, new)] for one-character [old] and [new]. *)
Fixpoint replace (old new : ascii) (s : string) : string :=
  match s with
  | EmptyString => EmptyString
  | String c s' => String (if Ascii.eqb c old then new else c) (replace old new s')
  end.

(** [s.split(sep)] for a one-character separator: never empty, empty parts
    are kept. *)
Fixpoint split (sep : ascii) (s : string) : list string :=
  match s with
  | EmptyString => [EmptyString]
  | String c s' =>
      if Ascii.eqb c sep then EmptyString :: split sep s'
      else match split sep s' with
           | part :: parts => String c part :: parts
           | [] => [String c EmptyString]
           end
  end.

(** The decimal text of an integer: what [str(n)], [f"{n}"] and [print(n)]
    show when the conversion is allowed, see [py_str]. *)
Definition str_int (n : Z) : string := NilZero.string_of_int (Z.to_int n).

(** [sys.int_info.str_digits_check_threshold]: texts of at most this many
    characters are converted without looking at the limit, and it is the
    smallest limit other than 0 that the interpreter accepts. *)
Definition str_digits_check_threshold : nat := 640.

(** [str(max_str_digits)] inside the message of the interpreter. *)
Definition limit_error (max_str_digits : nat) : string :=
  "Exceeds the limit (" +:+ NilZero.string_of_uint (Nat.to_uint max_str_digits)
  +:+ " digits) for integer string conversion; "
  +:+ "use sys.set_int_max_str_digits() to increase the limit".

(** The test that the conversion of an integer to text makes: the text is
    longer than the threshold, the limit [max_str_digits]
    ([sys.get_int_max_str_digits()], 0 for no limit) is set, and the number
    has more digits than the limit. *)
Definition within_limit (max_str_digits : nat) (n : Z) : bool :=
  negb ((str_digits_check_threshold <? String.length (str_int n))%nat
        && (0 <? max_str_digits)%nat
        && (max_str_digits <? String.length (str_int (Z.abs n)))%nat).

(** [str(n)], and the conversion inside [f"{n}"], [f"{n:>3d}"] and
    [print(n)]: [ValueError] for a number over the limit. *)
Definition py_str (max_str_digits : nat) (n : Z) : result string :=
  if within_limit max_str_digits n then Ok (str_int n)
  else Raise (ValueError (limit_error max_str_digits)).

(** [text * n] for a one-character text. *)
Fixpoint repeat_char (c : ascii) (n : nat) : string :=
  match n with
  | O => EmptyString
  | S n' => String c (repeat_char c n')
  end.

(** The format specifications [{s:12s}] (pad on the right) and [{n:>3d}]
    (pad on the left); a longer text is not cut. *)
Definition pad_right (width : nat) (s : string) : string :=
  s +:+ repeat_char " " (width - String.length s).
Definition pad_left (width : nat) (s : string) : string :=
  repeat_char " " (width - String.length s) +:+ s.

Definition digit_value (c : ascii) : option Z :=
  let n := N_of_ascii c in
  if ((48 <=? n) && (n <=? 57))%N then Some (Z.of_N (n - 48)) else None.

(** The digits of a decimal literal, read from the left: single underscores
    are allowed between digits only.  [acc] is the value and [count] the
    number of digits read so far. *)
Fixpoint int_digits (s : string) (after_digit : bool) (acc : Z) (count : nat)
  : option (Z * nat) :=
  match s with
  | EmptyString => if after_digit then Some (acc, count) else None
  | String c s' =>
      match digit_value c with
      | Some d => int_digits s' true (10 * acc + d) (S count)
      | None =>
          if Ascii.eqb c "_" && after_digit
          then int_digits s' false acc count
          else None
      end
  end.

(** The white space that [int] itself skips around the literal. *)
Definition is_int_space (c : ascii) : bool :=
  let n := N_of_ascii c in
  ((9 <=? n) && (n <=? 13) || (n =? 32) || (n =? 133) || (n =? 160))%N.

Fixpoint int_lstrip (s : string) : string :=
  match s with
  | EmptyString => EmptyString
  | String c s' => if is_int_space c then int_lstrip s' else s
  end.

Fixpoint int_rstrip (s : string) : string :=
  match s with
  | EmptyString => EmptyString
  | String c s' =>
      match int_rstrip s' with
      | EmptyString => if is_int_space c then EmptyString else String c EmptyString
      | String c' r => String c (String c' r)
      end
  end.

(** The optional sign in front of the digits. *)
Definition int_sign (s : string) : Z * string :=
  match s with
  | String "+" s' => (1, s')
  | String "-" s' => (-1, s')
  | _ => (1, s)
  end.

(** [int(s)] in base 10, [None] for [ValueError]: optional sign, digits,
    and the limit [max_str_digits] on the number of digits
    ([sys.get_int_max_str_digits()], 0 for no limit), looked at for more
    digits than the threshold.  The front end calls it on stripped text,
    where there is no white space left to skip. *)
Definition py_int (max_str_digits : nat) (s : string) : option Z :=
  let s := int_rstrip (int_lstrip s) in
  let '(sign, body) := int_sign s in
  match int_digits body false 0 0 with
  | Some (v, count) =>
      if (str_digits_check_threshold <? count)%nat
         && (0 <? max_str_digits)%nat && (max_str_digits <? count)%nat
      then None else Some (sign * v)
  | None => None
  end.

(** ** The console *)

Inductive keyed :=
| Line (text : string)
| Interrupt.

Inductive event :=
| Printed (text : string)
| Asked (prompt : string).

Record console := mkConsole {
  pending : list keyed;
  trace : list event
}.

(** What a call of the front end can raise. *)
Inductive raised :=
| KeyboardInterrupt
| EOFError
| Error (e : exn).

Inductive outcome (A : Type) :=
| Done (a : A)
| Raised (x : raised).

Arguments Done {A} a.
Arguments Raised {A} x.

Definition io (A : Type) : Type := console -> outcome A * console.

Definition io_ret {A} (a : A) : io A := fun c => (Done a, c).

Definition io_raise {A} (x : raised) : io A := fun c => (Raised x, c).

Definition io_bind {A B} (m : io A) (k : A -> io B) : io B := fun c =>
  match m c with
  | (Done a, c') => k a c'
  | (Raised x, c') => (Raised x, c')
  end.

Notation "x <- m ;; k" := (io_bind m (fun x => k))
  (at level 100, m at next level, right associativity, only parsing).
Notation "m ;;; k" := (io_bind m (fun _ => k))
  (at level 100, right associativity, only parsing).

(** [print(text)]. *)
Definition print (text : string) : io unit := fun c =>
  (Done tt, mkConsole (pending c) (trace c ++ [Printed text])).

(** [input(prompt)]: [EOFError] at the end of the input, and
    [KeyboardInterrupt] when the user interrupts instead of typing. *)
Definition input (prompt : string) : io string := fun c =>
  let shown := trace c ++ [Asked prompt] in
  match pending c with
  | [] => (Raised EOFError, mkConsole [] shown)
  | Line text :: rest => (Done text, mkConsole rest shown)
  | Interrupt :: rest => (Raised KeyboardInterrupt, mkConsole rest shown)
  end.

(** [for x in xs: body(x)]. *)
Fixpoint for_each {A} (xs : list A) (body : A -> io unit) : io unit :=
  match xs with
  | [] => io_ret tt
  | x :: xs' => body x ;;; for_each xs' body
  end.

(** [str(exc)] of a caught exception. *)
Definition str_exc (x : raised) : string :=
  match x with
  | KeyboardInterrupt => ""
  | EOFError => "EOF when reading a line"
  | Error (ValueError msg) => msg
  | Error (KeyError key) => repr key
  end.

(** The pricing call inside the front end. *)
Definition lift_result {A} (r : result A) : io A :=
  match r with
  | Ok a => io_ret a
  | Raise e => io_raise (Error e)
  end.

Definition quit_words : list string := ["q"; "quit"; "exit"].
Definition none_words : list string := ["-"; "none"; ""].

(** The dictionaries in the order of their definition, as [.items()]
    yields them. *)
Definition PLANS_items : list (string * CatalogItem) :=
  [("basic", mkCatalogItem "basic" "Basic" 60 true false);
   ("premium", mkCatalogItem "premium" "Premium" 100 true false);
   ("family", mkCatalogItem "family" "Family" 160 true false)].

Definition ADDONS_items : list (string * CatalogItem) :=
  [("nutrition", mkCatalogItem "nutrition" "Nutrition plan" 20 true false);
   ("classes", mkCatalogItem "classes" "Group classes" 40 true false);
   ("pt", mkCatalogItem "pt" "Personal training sessions" 60 true false)].

Definition PREMIUM_FEATURES_items : list (string * CatalogItem) :=
  [("exclusive",
    mkCatalogItem "exclusive" "Exclusive facilities access" 80 true true);
   ("specialized",
    mkCatalogItem "specialized" "Specialized training program" 120 true true)].

Definition invalid_integer : string :=
  "Please enter a valid integer (or 'q' to cancel).".

(** ** The functions of the front end *)

Module Cli.
Section WithLimit.

(** [sys.get_int_max_str_digits()]: 4300 by default, 0 for no limit. *)
Variable max_str_digits : nat.

Definition _read_int (prompt : string) : io Z :=
  line <- input prompt ;;
  let raw := strip line in
  if decide (lower raw ∈ quit_words) then io_raise KeyboardInterrupt
  else match py_int max_str_digits raw with
       | Some n => io_ret n
       | None => io_raise (Error (ValueError invalid_integer))
       end.

Definition _read_codes (prompt : string) : io (list string) :=
  line <- input prompt ;;
  let raw := strip line in
  if decide (lower raw ∈ none_words) then io_ret []
  else if decide (lower raw ∈ quit_words) then io_raise KeyboardInterrupt
  else
    let parts := map strip (split "," (replace " " "," raw)) in
    io_ret (filter (fun p => p <> "") parts).

(** The conversion of an integer inside an f-string or [print]. *)
Definition format_int (n : Z) : io string := lift_result (py_str max_str_digits n).

(** [print(n)] of an integer. *)
Definition print_int (n : Z) : io unit := text <- format_int n ;; print text.

Definition _print_catalog (title : string) (items : list (string * CatalogItem))
  : io unit :=
  print (nl +:+ title) ;;;
  print (repeat_char "-" (String.length title)) ;;;
  for_each items (fun '(code, item) =>
    let status := if available item then "" else " (UNAVAILABLE)" in
    price <- format_int (price_usd item) ;;
    print ("  " +:+ pad_right 12 code +:+ "  $" +:+ pad_left 3 price
           +:+ "  - " +:+ name item +:+ status)) ;;;
  print ("  (Type codes separated by comma, '-' for none, 'q' to cancel)" +:+ nl).

(** One line of the summary for an add-on or a premium feature. *)
Definition print_item (item : CatalogItem) : io unit :=
  price <- format_int (price_usd item) ;;
  print ("  - " +:+ name item +:+ " (+$" +:+ price +:+ " per member)").

(** One line of the summary that ends with an amount. *)
Definition print_amount (label : string) (n : Z) : io unit :=
  amount <- format_int n ;; print (label +:+ amount).

(** The summary that [run_cli] prints for a result. *)
Definition print_summary (r : CalculationResult) : io unit :=
  print (nl +:+ "--- SUMMARY ---") ;;;
  print_amount "Members: " (members r) ;;;
  (price <- format_int (price_usd (plan r)) ;;
   print ("Plan: " +:+ name (plan r) +:+ " ($" +:+ price +:+ " per member)")) ;;;
  (match addons r with
   | _ :: _ => print "Add-ons:" ;;; for_each (addons r) print_item
   | [] => print "Add-ons: none"
   end) ;;;
  (match premium_features r with
   | _ :: _ => print "Premium features:" ;;; for_each (premium_features r) print_item
   | [] => print "Premium features: none"
   end) ;;;
  print (nl +:+ "Breakdown:") ;;;
  print_amount "  Base total:              $" (base_total_usd r) ;;;
  print_amount "  Group discount:          -$" (group_discount_usd r) ;;;
  print_amount "  Premium surcharge:       +$" (premium_surcharge_usd r) ;;;
  print_amount "  Special offer discount:  -$" (special_offer_discount_usd r) ;;;
  print_amount "  TOTAL:                   $" (total_usd r) ;;;
  (match messages r with
   | _ :: _ =>
       print (nl +:+ "Notes:") ;;;
       for_each (messages r) (fun msg => print ("  * " +:+ msg))
   | [] => io_ret tt
   end).

(** The body of the [try] statement of [run_cli]. *)
Definition run_cli_body : io Z :=
  members <- _read_int "How many members are signing up together? " ;;
  _print_catalog "Membership Plans" PLANS_items ;;;
  line <- input "Choose a plan code (basic/premium/family): " ;;
  let plan_code := lower (strip line) in
  if decide (plan_code ∈ quit_words) then io_ret (-1)
  else
    _print_catalog "Add-ons (per member)" ADDONS_items ;;;
    addon_codes <-
      _read_codes "Add add-ons (e.g., nutrition,classes) or '-' for none: " ;;
    _print_catalog "Premium features (per member)" PREMIUM_FEATURES_items ;;;
    premium_codes <-
      _read_codes "Add premium features (e.g., exclusive) or '-' for none: " ;;
    result <-
      lift_result (calculate_total members plan_code addon_codes premium_codes) ;;
    print_summary result ;;;
    line <- input (nl +:+ "Confirm purchase? (y/n): ") ;;
    let confirm := lower (strip line) in
    if decide (confirm = "y")
    then print_int (total_usd result) ;;; io_ret (total_usd result)
    else print_int (-1) ;;; io_ret (-1).

(** [run_cli]: two lines of greeting, then the [try] statement with its
    two handlers, [except KeyboardInterrupt] and [except Exception]. *)
Definition run_cli : io Z :=
  print "Gym Membership Management System" ;;;
  print ("Type 'q' at any time to cancel." +:+ nl) ;;;
  (fun c =>
     match run_cli_body c with
     | (Done v, c') => (Done v, c')
     | (Raised KeyboardInterrupt, c') =>
         (print (nl +:+ "-1") ;;; io_ret (-1)) c'
     | (Raised x, c') =>
         (print (nl +:+ "ERROR: " +:+ str_exc x) ;;;
          print_int (-1) ;;; io_ret (-1)) c'
     end).

End WithLimit.
End Cli.

(** A code as [_read_codes] returns it: not empty, without comma or
    space, without white space at its ends. *)
Definition clean_code (c : string) : Prop :=
  c <> "" /\ contains_char "," c = false /\ contains_char " " c = false
  /\ strip c = c.

(** The words that [_read_codes] does not take as codes. *)
Definition reserved_words : list string := none_words ++ quit_words.

(** The value of a decimal numeral read from the left after [acc]. *)
Fixpoint uint_value (d : Decimal.uint) (acc : Z) : Z :=
  match d with
  | Decimal.Nil => acc
  | Decimal.D0 l => uint_value l (10 * acc + 0)
  | Decimal.D1 l => uint_value l (10 * acc + 1)
  | Decimal.D2 l => uint_value l (10 * acc + 2)
  | Decimal.D3 l => uint_value l (10 * acc + 3)
  | Decimal.D4 l => uint_value l (10 * acc + 4)
  | Decimal.D5 l => uint_value l (10 * acc + 5)
  | Decimal.D6 l => uint_value l (10 * acc + 6)
  | Decimal.D7 l => uint_value l (10 * acc + 7)
  | Decimal.D8 l => uint_value l (10 * acc + 8)
  | Decimal.D9 l => uint_value l (10 * acc + 9)
  end.

(** Every character of the text passes the test. *)
Fixpoint string_forall (test : ascii -> bool) (s : string) : bool :=
  match s with
  | EmptyString => true
  | String c s' => test c && string_forall test s'
  end.

(** The characters of [str(n)]: digits and the minus sign. *)
Definition is_numeral_char (c : ascii) : bool :=
  match digit_value c with
  | Some _ => true
  | None => Ascii.eqb c "-"
  end.

(** The codes that [_read_codes] finds on a line that is not a quit word. *)
Definition codes_of_line (line : string) : list string :=
  let raw := strip line in
  if decide (lower raw ∈ none_words) then []
  else filter (fun p => p <> "") (map strip (split "," (replace " " "," raw))).

Definition plan_prompt : string := "Choose a plan code (basic/premium/family): ".

(** A block that only prints: it returns, leaves the pending input alone
    and only adds to the trace. *)
Definition prints_only (m : io unit) : Prop :=
  forall c, exists shown,
    m c = (Done tt, mkConsole (pending c) (trace c ++ shown)).

(** The integers that the summary of a result converts to text, in the
    order of the conversions. *)
Definition summary_amounts (r : CalculationResult) : list Z :=
  [members r; price_usd (plan r)]
  ++ map price_usd (addons r) ++ map price_usd (premium_features r)
  ++ [base_total_usd r; group_discount_usd r; premium_surcharge_usd r;
      special_offer_discount_usd r; total_usd r].

(** A block that prints and converts the integers [amounts]: it leaves the
    pending input alone and only adds to the trace; it returns when every
    amount is within the limit, and raises the [ValueError] of the
    conversion otherwise. *)
Definition prints_amounts (limit : nat) (amounts : list Z) (m : io unit) : Prop :=
  forall c, exists shown,
    m c = (if forallb (within_limit limit) amounts then Done tt
           else Raised (Error (ValueError (limit_error limit))),
           mkConsole (pending c) (trace c ++ shown)).

(** * The monthly fee ([src/membership.py])

    Python floats are IEEE 754 binary64 numbers: [spec_float] with the
    operations of [SpecFloat] at precision 53 and maximal exponent 1024,
    which round to nearest, ties to even. *)

(** The float of an integer literal such as [20.0]. *)
Definition float_of_Z (n : Z) : spec_float := binary_normalize 53 1024 n 0 false.

Definition fmul : spec_float -> spec_float -> spec_float := SFmul 53 1024.
Definition fdiv : spec_float -> spec_float -> spec_float := SFdiv 53 1024.

(** The float of a decimal literal [num / den], such as [0.9] for 9 / 10:
    the binary64 number nearest to the fraction. *)
Definition float_lit (num den : Z) : spec_float :=
  fdiv (float_of_Z num) (float_of_Z den).

(** The integer nearest to [num / den] for a positive [den], ties to the
    even one. *)
Definition round_half_even (num den : Z) : Z :=
  let q := num `div` den in
  let r := num `mod` den in
  if 2 * r <? den then q
  else if den <? 2 * r then q + 1
  else if Z.even q then q else q + 1.

(** [round(x, ndigits)] for a float and 0 <= [ndigits] <= 22: the exact
    value of [x] is rounded to [ndigits] decimal places, ties to even, and
    the decimal result is converted to the nearest float. *)
Definition py_round (x : spec_float) (ndigits : Z) : spec_float :=
  match x with
  | S754_finite s m e =>
      let n := Z.pos m * 10 ^ ndigits in
      let q := if 0 <=? e then n * 2 ^ e else round_half_even n (2 ^ (- e)) in
      match q with
      | Z.pos p => fdiv (S754_finite s p 0) (float_of_Z (10 ^ ndigits))
      | _ => S754_zero s
      end
  | _ => x
  end.

Definition base_prices : gmap string spec_float :=
  <["basic" := float_of_Z 20]>
  (<["premium" := float_of_Z 35]>
  (<["vip" := float_of_Z 50]> ∅)).

(** The message of the fee calculator, with U+00E1 as its tenth character. *)
Definition invalid_plan : string := "Plan no v" +:+ String "225" "lido".

Definition calculate_monthly_fee (plan_type : string) (has_discount : bool)
  : result spec_float :=
  match base_prices !! plan_type with
  | None => Raise (ValueError invalid_plan)
  | Some price =>
      let price := if has_discount then fmul price (float_lit 9 10) else price in
      Ok (py_round price 2)
  end.

(** The exact value of a float in hundredths, when it is a whole number of
    hundredths. *)
Definition float_cents (x : spec_float) : option Z :=
  match x with
  | S754_zero _ => Some 0
  | S754_finite s m e =>
      let sign := if s then -1 else 1 in
      if 0 <=? e then Some (sign * (Z.pos m * 100 * 2 ^ e))
      else if (Z.pos m * 100) `mod` 2 ^ (- e) =? 0
           then Some (sign * ((Z.pos m * 100) `div` 2 ^ (- e)))
           else None
  | _ => None
  end.

(** * Properties *)

(** ** Sanity checks of the built-ins on concrete inputs *)

Example repr_plain : repr "gold" = "'gold'".
Proof. reflexivity. Qed.

Example repr_single_quote :
  repr "o'k" = String dquote ("o'k" +:+ String dquote "").
Proof. reflexivity. Qed.

Example repr_both_quotes :
  repr ("o'k" +:+ String dquote "") = "'o\'k" +:+ String dquote "'".
Proof. reflexivity. Qed.

Example repr_escapes :
  repr (String "010" (String "031" (String "\" (String "233" (String "160" "")))))
  = "'\n\x1f\\" +:+ String "233" "\xa0'".
Proof. reflexivity. Qed.

Example join_three : join "; " ["a"; "b"; "c"] = "a; b; c".
Proof. reflexivity. Qed.

Example dedupe_example :
  _dedupe_preserve_order ["pt"; "x"; "pt"; "y"; "x"] = ["pt"; "x"; "y"].
Proof. reflexivity. Qed.

(** The scenarios of the test-suite. *)
Example scenario_two_basic :
  exists r, calculate_total 2 "basic" [] [] = Ok r
    /\ base_total_usd r = 120 /\ group_discount_usd r = 12 /\ total_usd r = 108.
Proof. eexists. split; [reflexivity|]. by repeat split. Qed.

Example scenario_two_premium :
  exists r, calculate_total 2 "premium" [] [] = Ok r
    /\ base_total_usd r = 200 /\ special_offer_discount_usd r = 0
    /\ total_usd r = 180.
Proof. eexists. split; [reflexivity|]. by repeat split. Qed.

Example scenario_three_basic_pt :
  exists r, calculate_total 3 "basic" ["pt"] [] = Ok r
    /\ base_total_usd r = 360 /\ group_discount_usd r = 36
    /\ premium_surcharge_usd r = 0 /\ special_offer_discount_usd r = 20
    /\ total_usd r = 304.
Proof. eexists. split; [reflexivity|]. by repeat split. Qed.

Example scenario_four_family_pt :
  exists r, calculate_total 4 "family" ["pt"] [] = Ok r
    /\ base_total_usd r = 880 /\ group_discount_usd r = 88
    /\ special_offer_discount_usd r = 50 /\ total_usd r = 742.
Proof. eexists. split; [reflexivity|]. by repeat split. Qed.

Example scenario_unknown_plan :
  calculate_total 1 "gold" [] [] = Raise (ValueError "unknown plan: 'gold'.").
Proof. reflexivity. Qed.


(** ** De-duplication *)

Lemma dedupe_loop_from values : forall seen out,
  dedupe_loop values seen out = out ++ dedupe_from seen values.
Proof.
  induction values as [|v values IH]; intros seen out; simpl.
  - by rewrite app_nil_r.
  - case_decide; rewrite IH; [done|]. by rewrite <- app_assoc.
Qed.

Lemma dedupe_unfold values :
  _dedupe_preserve_order values = dedupe_from ∅ values.
Proof. unfold _dedupe_preserve_order. by rewrite dedupe_loop_from. Qed.

Lemma dedupe_from_elem values : forall seen x,
  x ∈ dedupe_from seen values <-> x ∈ values /\ x ∉ seen.
Proof.
  induction values as [|v values IH]; intros seen x; simpl.
  - split; [intros H; inversion H|intros [H _]; inversion H].
  - case_decide as Hv; [|rewrite elem_of_cons]; rewrite IH, elem_of_cons.
    + split; [intros [? ?]; auto|intros [[->|?] ?]; [done|auto]].
    + rewrite elem_of_union, elem_of_singleton. split.
      * intros [->|[? ?]]; auto.
      * intros [[->|?] ?]; [by left|].
        destruct (decide (x = v)); [by left|right; tauto].
Qed.

Lemma dedupe_from_NoDup values : forall seen, NoDup (dedupe_from seen values).
Proof.
  induction values as [|v values IH]; intros seen; simpl.
  - constructor.
  - case_decide; [apply IH|]. constructor; [|apply IH].
    rewrite dedupe_from_elem. set_solver.
Qed.

Lemma dedupe_from_fixed values : forall seen,
  NoDup values -> (forall x, x ∈ values -> x ∉ seen) ->
  dedupe_from seen values = values.
Proof.
  induction values as [|v values IH]; intros seen Hnd Hdisj; simpl; [done|].
  apply NoDup_cons in Hnd as [Hv Hnd].
  case_decide as Hin; [exfalso; eapply Hdisj; [left|done]|].
  f_equal. apply IH; [done|].
  intros x Hx. specialize (Hdisj x). set_solver.
Qed.

Lemma dedupe_from_seen_more x values : forall seen seen',
  (forall y, y ∈ seen' <-> y = x \/ y ∈ seen) ->
  dedupe_from seen' values = filter (fun w => w ≠ x) (dedupe_from seen values).
Proof.
  induction values as [|v values IH]; intros seen seen' Hs; simpl; [done|].
  destruct (decide (v ∈ seen)) as [Hin|Hin].
  - rewrite decide_True by (apply Hs; by right). by apply IH.
  - destruct (decide (v = x)) as [->|Hne].
    + rewrite decide_True by (apply Hs; by left).
      rewrite filter_cons_False by (intros H; by apply H).
      apply IH. intros y. rewrite elem_of_union, elem_of_singleton, Hs. tauto.
    + rewrite decide_False by (rewrite Hs; tauto).
      rewrite filter_cons_True by done. f_equal.
      apply IH. intros y. rewrite !elem_of_union, !elem_of_singleton, Hs. tauto.
Qed.

Lemma dedupe_elem values x :
  x ∈ _dedupe_preserve_order values <-> x ∈ values.
Proof. rewrite dedupe_unfold, dedupe_from_elem. set_solver. Qed.

Lemma dedupe_NoDup values : NoDup (_dedupe_preserve_order values).
Proof. rewrite dedupe_unfold. apply dedupe_from_NoDup. Qed.

Lemma dedupe_idempotent values :
  _dedupe_preserve_order (_dedupe_preserve_order values)
  = _dedupe_preserve_order values.
Proof.
  rewrite (dedupe_unfold (_dedupe_preserve_order values)).
  apply dedupe_from_fixed; [apply dedupe_NoDup|set_solver].
Qed.

Lemma dedupe_first_occurrences values :
  _dedupe_preserve_order values = first_occurrences values.
Proof.
  rewrite dedupe_unfold.
  induction values as [|v values IH]; simpl; [done|].
  rewrite decide_False by set_solver. f_equal.
  rewrite <- IH. apply dedupe_from_seen_more. set_solver.
Qed.

(** ** Validation: the list of messages, rule by rule *)

Section EngineFacts.

Variables plans extras features : gmap string CatalogItem.

Lemma check_addon_errors errors c :
  Engine.check_addon extras errors c
  = errors ++ registry_errors "add-on" extras c.
Proof.
  unfold Engine.check_addon, registry_errors.
  destruct (extras !! c) as [item|]; [destruct (available item)|];
    simpl; by rewrite ?app_nil_r.
Qed.

Lemma check_premium_errors errors c :
  Engine.check_premium features errors c
  = errors ++ registry_errors "premium feature" features c.
Proof.
  unfold Engine.check_premium, registry_errors.
  destruct (features !! c) as [item|]; [destruct (available item)|];
    simpl; by rewrite ?app_nil_r.
Qed.

Lemma fold_check_addon codes : forall errors,
  fold_left (Engine.check_addon extras) codes errors
  = errors ++ flat_map (registry_errors "add-on" extras) codes.
Proof.
  induction codes as [|c codes IH]; intros errors; simpl.
  - by rewrite app_nil_r.
  - by rewrite IH, check_addon_errors, <- app_assoc.
Qed.

Lemma fold_check_premium codes : forall errors,
  fold_left (Engine.check_premium features) codes errors
  = errors ++ flat_map (registry_errors "premium feature" features) codes.
Proof.
  induction codes as [|c codes IH]; intros errors; simpl.
  - by rewrite app_nil_r.
  - by rewrite IH, check_premium_errors, <- app_assoc.
Qed.

Lemma validate_selection_rules m p a pr :
  Engine.validate_selection plans extras features m p a pr
  = members_errors m
    ++ registry_errors "plan" plans p
    ++ flat_map (registry_errors "add-on" extras) (_dedupe_preserve_order a)
    ++ flat_map (registry_errors "premium feature" features)
         (_dedupe_preserve_order pr).
Proof.
  unfold Engine.validate_selection.
  rewrite fold_check_premium, fold_check_addon, <- !app_assoc.
  rewrite (app_assoc (members_errors m)). f_equal.
  assert (Hm : (if m <=? 0 then [] ++ ["members must be a positive integer."]
                else []) = members_errors m).
  { unfold members_errors. destruct (Z.leb_spec m 0); case_decide; (done || lia). }
  rewrite Hm. unfold registry_errors.
  destruct (plans !! p) as [item|]; [destruct (available item)|];
    simpl; by rewrite ?app_nil_r.
Qed.

Lemma validate_selection_dedupe m p a pr :
  Engine.validate_selection plans extras features m p
    (_dedupe_preserve_order a) (_dedupe_preserve_order pr)
  = Engine.validate_selection plans extras features m p a pr.
Proof. by rewrite !validate_selection_rules, !dedupe_idempotent. Qed.

Lemma registry_errors_nil kind registry c :
  registry_errors kind registry c = []
  <-> exists item, registry !! c = Some item /\ available item = true.
Proof.
  unfold registry_errors. destruct (registry !! c) as [item|].
  - destruct (available item) eqn:Hav; split; try done.
    + intros _. by exists item.
    + intros (item' & [= <-] & Hav'). congruence.
  - split; [done|]. by intros (? & ? & _).
Qed.

Lemma flat_map_nil {A B} (f : A -> list B) l :
  flat_map f l = [] <-> Forall (fun x => f x = []) l.
Proof.
  induction l as [|x l IH]; simpl.
  - split; [constructor|done].
  - rewrite Forall_cons, <- IH. split.
    + by intros [? ?]%app_eq_nil.
    + intros [-> ->]. done.
Qed.

Lemma validate_selection_nil m p a pr :
  Engine.validate_selection plans extras features m p a pr = []
  <-> 0 < m
      /\ registry_errors "plan" plans p = []
      /\ Forall (fun c => registry_errors "add-on" extras c = [])
           (_dedupe_preserve_order a)
      /\ Forall (fun c => registry_errors "premium feature" features c = [])
           (_dedupe_preserve_order pr).
Proof.
  rewrite validate_selection_rules, <- !flat_map_nil. unfold members_errors.
  split.
  - intros (Hm & (Hp & (Ha & Hpr)%app_eq_nil)%app_eq_nil)%app_eq_nil.
    case_decide; done.
  - intros (Hm & -> & -> & ->). by rewrite decide_True.
Qed.

End EngineFacts.

(** ** Pricing: the code against the specification's pipeline *)

Lemma sum_total_price items : sum (map price_usd items) = total_price items.
Proof.
  unfold sum. enough (H : forall acc,
    fold_left Z.add (map price_usd items) acc = acc + total_price items)
    by (rewrite H; lia).
  induction items as [|item items IH]; intros acc; simpl; [lia|].
  rewrite IH. lia.
Qed.

Lemma special_offer_is_step t : _special_offer_discount t = special_offer_step t.
Proof.
  unfold _special_offer_discount, special_offer_step.
  destruct (Z.gtb_spec t 400), (Z.gtb_spec t 200); repeat case_decide; (done || lia).
Qed.

Lemma getitems_resolved kind registry codes :
  Forall (fun c => registry_errors kind registry c = []) codes ->
  exists items,
    mapM (fun c => registry !! c) codes = Some items
    /\ getitems registry codes = Ok items
    /\ Forall (fun item => available item = true) items.
Proof.
  induction 1 as [|c codes Hc _ (items & Hm & Hg & Hav)]; simpl.
  - by exists [].
  - apply registry_errors_nil in Hc as (item & Hl & Ha).
    exists (item :: items). unfold getitem. rewrite Hl, Hg. cbn.
    rewrite Hm. by repeat constructor.
Qed.

Section PricingFacts.

Variables plans extras features : gmap string CatalogItem.

(** On a valid selection the code computes the specification's pipeline
    on the resolved items, or reports a non-positive total. *)
Lemma calculate_total_valid m p a pr :
  Engine.validate_selection plans extras features m p a pr = [] ->
  exists pl ads prs,
    plans !! p = Some pl
    /\ mapM (fun c => extras !! c) (_dedupe_preserve_order a) = Some ads
    /\ mapM (fun c => features !! c) (_dedupe_preserve_order pr) = Some prs
    /\ Engine.calculate_total plans extras features m p a pr
       = if decide (0 < total_usd (priced m pl ads prs))
         then Ok (priced m pl ads prs)
         else Raise (ValueError config_error).
Proof.
  intros Hv. unfold Engine.calculate_total.
  rewrite validate_selection_dedupe, Hv.
  apply validate_selection_nil in Hv as (Hm & Hp & Ha & Hpr).
  apply registry_errors_nil in Hp as (pl & Hpl & _).
  apply getitems_resolved in Ha as (ads & Hads & Hga & _).
  apply getitems_resolved in Hpr as (prs & Hprs & Hgp & _).
  exists pl, ads, prs. repeat (split; [done|]).
  unfold getitem, mbind, result_bind. rewrite Hpl, Hga, Hgp. cbv beta iota zeta.
  rewrite !sum_total_price.
  unfold priced, notes_of, premium_surcharge_of.
  set (base := m * (price_usd pl + total_price ads + total_price prs)).
  assert (Hgd : (if m >=? 2 then (base * 10) `div` 100 else 0)
                = group_discount_of m base).
  { unfold group_discount_of.
    destruct (Z.geb_spec m 2); case_decide; (done || lia). }
  assert (Hgn : (if m >=? 2 then [] ++ [group_note] else [])
                = if decide (2 <= m) then [group_note] else []).
  { destruct (Z.geb_spec m 2); case_decide; (done || lia). }
  rewrite Hgd, Hgn. clearbody base. clear Hgd Hgn. cbn [total_usd].
  destruct prs as [|pr0 prs]; cbv beta iota zeta;
    rewrite special_offer_is_step;
    match goal with |- context [special_offer_step ?t] =>
      set (so := special_offer_step t) end;
    match goal with |- context [?t <=? 0] =>
      destruct (Z.leb_spec t 0);
      [rewrite (decide_False (P := 0 < t)) by lia; done
      |rewrite (decide_True (P := 0 < t)) by done] end;
    do 2 f_equal; clearbody so;
    (destruct (Z.eqb_spec so 20);
     [rewrite (decide_True (P := so = 20)) by done
     |rewrite (decide_False (P := so = 20)) by done;
      destruct (Z.eqb_spec so 50);
      [rewrite (decide_True (P := so = 50)) by done
      |rewrite (decide_False (P := so = 50)) by done]]);
    by rewrite <- ?app_assoc, ?app_nil_r.
Qed.

Lemma calculate_total_invalid m p a pr :
  Engine.validate_selection plans extras features m p a pr <> [] ->
  Engine.calculate_total plans extras features m p a pr
  = Raise (ValueError
      (join "; " (Engine.validate_selection plans extras features m p a pr))).
Proof.
  intros Hne. unfold Engine.calculate_total.
  rewrite validate_selection_dedupe.
  by destruct (Engine.validate_selection plans extras features m p a pr).
Qed.

Lemma calculate_total_ok m p a pr r :
  Engine.calculate_total plans extras features m p a pr = Ok r ->
  Engine.validate_selection plans extras features m p a pr = []
  /\ 0 < total_usd r
  /\ exists pl ads prs,
      plans !! p = Some pl
      /\ mapM (fun c => extras !! c) (_dedupe_preserve_order a) = Some ads
      /\ mapM (fun c => features !! c) (_dedupe_preserve_order pr) = Some prs
      /\ r = priced m pl ads prs.
Proof.
  intros Hr.
  destruct (Engine.validate_selection plans extras features m p a pr)
    as [|e errs] eqn:Hv.
  - destruct (calculate_total_valid m p a pr Hv)
      as (pl & ads & prs & Hpl & Hads & Hprs & Hc).
    rewrite Hr in Hc. case_decide as Hpos; [|done].
    injection Hc as ->. split; [done|]. split; [done|].
    by exists pl, ads, prs.
  - rewrite calculate_total_invalid in Hr by (by rewrite Hv). done.
Qed.

(** The dictionary subscripts after validation never raise. *)
Lemma calculate_total_no_KeyError m p a pr k :
  Engine.calculate_total plans extras features m p a pr <> Raise (KeyError k).
Proof.
  destruct (Engine.validate_selection plans extras features m p a pr)
    as [|e errs] eqn:Hv.
  - destruct (calculate_total_valid m p a pr Hv) as (pl & ads & prs & _ & _ & _ & ->).
    by case_decide.
  - rewrite calculate_total_invalid by (by rewrite Hv). done.
Qed.

End PricingFacts.

(** ** Joined messages *)

Lemma append_cons c (s t : string) : String c s +:+ t = String c (s +:+ t).
Proof. reflexivity. Qed.

Lemma append_nil_r (s : string) : s +:+ "" = s.
Proof. induction s as [|c s IH]; [done|]. by rewrite append_cons, IH. Qed.

Lemma append_assoc (s1 s2 s3 : string) : (s1 +:+ s2) +:+ s3 = s1 +:+ (s2 +:+ s3).
Proof. induction s1 as [|c s1 IH]; [done|]. by rewrite !append_cons, IH. Qed.

Lemma join_cons sep e errs :
  join sep (e :: errs)
  = e +:+ match errs with [] => "" | _ :: _ => sep +:+ join sep errs end.
Proof. destruct errs as [|e' errs]; [by rewrite append_nil_r|done]. Qed.

(** Every message of the list is a contiguous part of the joined text. *)
Lemma join_contains sep errs e :
  e ∈ errs -> exists before after, join sep errs = before +:+ e +:+ after.
Proof.
  induction errs as [|e' errs IH]; intros Hin; [by inversion Hin|].
  rewrite join_cons. apply elem_of_cons in Hin as [->|Hin].
  - by exists "", (match errs with [] => "" | _ :: _ => sep +:+ join sep errs end).
  - destruct (IH Hin) as (before & after & Heq).
    destruct errs as [|e'' errs]; [by inversion Hin|].
    exists (e' +:+ sep +:+ before), after.
    rewrite Heq. by rewrite !append_assoc.
Qed.

Lemma join_first_char sep e errs c :
  first_char e = Some c -> first_char (join sep (e :: errs)) = Some c.
Proof. rewrite join_cons. by destruct e. Qed.

Lemma registry_errors_first_char kind registry c e k0 rest :
  kind = String k0 rest -> e ∈ registry_errors kind registry c ->
  first_char e = Some "u"%char \/ first_char e = Some k0.
Proof.
  intros -> He. unfold registry_errors in He.
  destruct (registry !! c) as [item|]; [destruct (available item)|].
  - by inversion He.
  - apply list_elem_of_singleton in He as ->. by right.
  - apply list_elem_of_singleton in He as ->. by left.
Qed.

Lemma validate_selection_first_char plans extras features m p a pr e :
  e ∈ Engine.validate_selection plans extras features m p a pr ->
  first_char e <> Some "c"%char.
Proof.
  rewrite validate_selection_rules, !elem_of_app, !list_elem_of_In, !in_flat_map.
  intros [He|[He|[(c & _ & He)|(c & _ & He)]]].
  - unfold members_errors in He. case_decide; [by inversion He|].
    destruct He as [<-|[]]. done.
  - apply list_elem_of_In in He.
    by destruct (registry_errors_first_char _ _ _ _ _ _ eq_refl He) as [->| ->].
  - apply list_elem_of_In in He.
    by destruct (registry_errors_first_char _ _ _ _ _ _ eq_refl He) as [->| ->].
  - apply list_elem_of_In in He.
    by destruct (registry_errors_first_char _ _ _ _ _ _ eq_refl He) as [->| ->].
Qed.

(** The message of an invalid selection is never the configuration message. *)
Lemma invalid_selection_not_config plans extras features m p a pr :
  Engine.validate_selection plans extras features m p a pr <> [] ->
  join "; " (Engine.validate_selection plans extras features m p a pr)
  <> config_error.
Proof.
  intros Hne Heq.
  destruct (Engine.validate_selection plans extras features m p a pr)
    as [|e errs] eqn:Hv; [done|].
  assert (He : e ∈ Engine.validate_selection plans extras features m p a pr)
    by (rewrite Hv; left).
  apply validate_selection_first_char in He.
  destruct (first_char e) as [c|] eqn:Hc.
  - apply (join_first_char "; " e errs) in Hc. rewrite Heq in Hc.
    injection Hc as <-. done.
  - destruct e; [|done]. clear He Hc.
    assert (Hin : "" ∈ Engine.validate_selection plans extras features m p a pr)
      by (rewrite Hv; left).
    revert Hin.
    rewrite validate_selection_rules, !elem_of_app, !list_elem_of_In, !in_flat_map.
    unfold members_errors, registry_errors.
    intros [He|[He|[(c & _ & He)|(c & _ & He)]]]; revert He;
      repeat case_decide; repeat case_match; simpl; intros He;
      repeat (destruct He as [He|He]); done.
Qed.

(** ** Arithmetic of the pipeline *)

(** [(x * k) // 100] is the floor of [x * k / 100]. *)
Lemma percent_floor x k :
  100 * ((x * k) `div` 100) <= x * k < 100 * ((x * k) `div` 100) + 100.
Proof.
  pose proof (Z.div_mod (x * k) 100 ltac:(lia)) as Hd.
  pose proof (Z.mod_pos_bound (x * k) 100 ltac:(lia)) as Hb.
  lia.
Qed.

Lemma group_discount_floor m base :
  if decide (2 <= m)
  then 100 * group_discount_of m base <= base * 10
         < 100 * group_discount_of m base + 100
  else group_discount_of m base = 0.
Proof.
  unfold group_discount_of. case_decide; [apply percent_floor|done].
Qed.

Lemma premium_surcharge_floor prs after_group :
  match prs with
  | [] => premium_surcharge_of prs after_group = 0
  | _ :: _ => 100 * premium_surcharge_of prs after_group <= after_group * 15
              < 100 * premium_surcharge_of prs after_group + 100
  end.
Proof. destruct prs; [done|apply percent_floor]. Qed.

Lemma special_offer_step_cases t :
  (400 < t /\ special_offer_step t = 50)
  \/ (200 < t <= 400 /\ special_offer_step t = 20)
  \/ (t <= 200 /\ special_offer_step t = 0).
Proof. unfold special_offer_step. repeat case_decide; lia. Qed.

Lemma total_price_nonneg (lo : Z) items :
  0 <= lo -> Forall (fun item => lo <= price_usd item) items ->
  0 <= total_price items /\ (items <> [] -> lo <= total_price items).
Proof.
  intros Hlo. induction 1 as [|item items Hi _ [IH1 IH2]]; simpl; [done|].
  split; [lia|]. intros _. lia.
Qed.

(** Bounds on the priced result when every member pays at least [lo]. *)
Lemma priced_bounds m pl ads prs :
  1 <= m -> 60 <= price_usd pl -> 0 <= total_price ads -> 0 <= total_price prs ->
  let r := priced m pl ads prs in
  0 <= base_total_usd r /\ 0 <= group_discount_usd r
  /\ 0 <= premium_surcharge_usd r /\ 0 <= special_offer_discount_usd r
  /\ 1 <= total_usd r
  /\ (2 <= m -> 0 < group_discount_usd r)
  /\ (prs <> [] -> 0 < premium_surcharge_usd r).
Proof.
  intros Hm Hpl Hads Hprs. unfold priced. cbn.
  set (per := price_usd pl + total_price ads + total_price prs).
  assert (Hper : 60 <= per) by (unfold per; lia).
  assert (Hbase : 60 * m <= m * per) by nia.
  set (base := m * per) in *. clearbody base. clear per Hper.
  pose proof (group_discount_floor m base) as Hgd.
  set (gd := group_discount_of m base) in *. clearbody gd.
  pose proof (premium_surcharge_floor prs (base - gd)) as Hps.
  set (ps := premium_surcharge_of prs (base - gd)) in *. clearbody ps.
  pose proof (special_offer_step_cases (base - gd + ps)) as Hso.
  set (so := special_offer_step (base - gd + ps)) in *. clearbody so.
  case_decide; destruct prs; repeat split; intros; (done || lia).
Qed.

Lemma resolved_prices (lo : Z) (registry : gmap string CatalogItem) codes items :
  (forall c item, registry !! c = Some item -> lo <= price_usd item) ->
  mapM (fun c => registry !! c) codes = Some items ->
  Forall (fun item => lo <= price_usd item) items.
Proof.
  intros Hlo Hm. apply mapM_Some in Hm.
  induction Hm as [|c item codes items Hc _ IH]; constructor; eauto.
Qed.

Lemma resolved_nil (registry : gmap string CatalogItem) codes items :
  mapM (fun c => registry !! c) (_dedupe_preserve_order codes) = Some items ->
  items = [] <-> codes = [].
Proof.
  intros Hm. apply length_mapM in Hm.
  rewrite dedupe_first_occurrences in Hm.
  destruct codes, items; simpl in *; split; (done || lia).
Qed.

(** ** The seed catalog *)

Lemma PLANS_lookup p item :
  PLANS !! p = Some item ->
  available item = true
  /\ (p = "basic" /\ price_usd item = 60
      \/ p = "premium" /\ price_usd item = 100
      \/ p = "family" /\ price_usd item = 160).
Proof.
  unfold PLANS. rewrite !lookup_insert_Some, lookup_empty.
  intros [[<- <-]|[_ [[<- <-]|[_ [[<- <-]|[_ ?]]]]]]; simpl; auto; done.
Qed.

Lemma ADDONS_lookup c item :
  ADDONS !! c = Some item -> 20 <= price_usd item.
Proof.
  unfold ADDONS. rewrite !lookup_insert_Some, lookup_empty.
  intros [[<- <-]|[_ [[<- <-]|[_ [[<- <-]|[_ ?]]]]]]; simpl; (done || lia).
Qed.

Lemma PREMIUM_FEATURES_lookup c item :
  PREMIUM_FEATURES !! c = Some item -> 80 <= price_usd item.
Proof.
  unfold PREMIUM_FEATURES. rewrite !lookup_insert_Some, lookup_empty.
  intros [[<- <-]|[_ [[<- <-]|[_ ?]]]]; simpl; (done || lia).
Qed.

(** A valid selection over the seed catalog always yields a result, the
    specification's pipeline on the resolved items, with the bounds above. *)
Lemma seed_calculate_total m p a pr :
  validate_selection m p a pr = [] ->
  exists pl ads prs,
    PLANS !! p = Some pl
    /\ mapM (fun c => ADDONS !! c) (_dedupe_preserve_order a) = Some ads
    /\ mapM (fun c => PREMIUM_FEATURES !! c) (_dedupe_preserve_order pr) = Some prs
    /\ calculate_total m p a pr = Ok (priced m pl ads prs)
    /\ 1 <= m /\ 60 <= price_usd pl
    /\ 0 <= total_price ads /\ 0 <= total_price prs.
Proof.
  intros Hv. unfold validate_selection, calculate_total in *.
  destruct (calculate_total_valid _ _ _ m p a pr Hv)
    as (pl & ads & prs & Hpl & Hads & Hprs & Hc).
  apply validate_selection_nil in Hv as (Hm & _).
  pose proof (PLANS_lookup _ _ Hpl) as [_ Hprice].
  pose proof (resolved_prices 20 _ _ _ ADDONS_lookup Hads) as Ha.
  pose proof (resolved_prices 80 _ _ _ PREMIUM_FEATURES_lookup Hprs) as Hp.
  apply total_price_nonneg in Ha as [Ha _]; [|lia].
  apply total_price_nonneg in Hp as [Hp _]; [|lia].
  assert (Hpl60 : 60 <= price_usd pl) by lia.
  exists pl, ads, prs. repeat (split; [done || lia|]).
  split; [|lia].
  rewrite Hc.
  pose proof (priced_bounds m pl ads prs ltac:(lia) Hpl60 Ha Hp) as (_&_&_&_&Ht&_).
  by rewrite decide_True by lia.
Qed.

(** * The claims *)

(** C2. The special-offer discount is a step function with strict
    thresholds: 50 exactly above 400, 20 exactly above 200 and up to 400,
    0 up to 200; so 200 gives 0, 201 gives 20, 400 gives 20, 401 gives 50. *)
Theorem special_offer_strict_thresholds t :
  (_special_offer_discount t = 50 <-> 400 < t)
  /\ (_special_offer_discount t = 20 <-> 200 < t <= 400)
  /\ (_special_offer_discount t = 0 <-> t <= 200)
  /\ _special_offer_discount 200 = 0
  /\ _special_offer_discount 201 = 20
  /\ _special_offer_discount 400 = 20
  /\ _special_offer_discount 401 = 50.
Proof.
  split; [|split; [|split; [|by repeat split]]];
    rewrite special_offer_is_step;
    destruct (special_offer_step_cases t) as [[? ->]|[[? ->]|[? ->]]]; lia.
Qed.

(** C1. Every selection that passes validation yields a result whose fields
    follow the pipeline: base total = members x (plan + add-ons + premium
    features, over the de-duplicated codes); group discount = floor of 10
    percent when members >= 2, else 0; premium surcharge = floor of 15
    percent of the total after the group discount when a premium feature is
    selected, else 0; special offer = step function of the total after the
    surcharge; total = that total minus the special offer.  Floors are
    stated by their defining inequalities. *)
Theorem calculate_total_pipeline m p a pr :
  validate_selection m p a pr = [] ->
  exists pl ads prs r,
    PLANS !! p = Some pl
    /\ mapM (fun c => ADDONS !! c) (first_occurrences a) = Some ads
    /\ mapM (fun c => PREMIUM_FEATURES !! c) (first_occurrences pr) = Some prs
    /\ calculate_total m p a pr = Ok r
    /\ members r = m /\ plan r = pl /\ addons r = ads /\ premium_features r = prs
    /\ base_total_usd r = m * (price_usd pl + total_price ads + total_price prs)
    /\ (if decide (2 <= m)
        then 100 * group_discount_usd r <= base_total_usd r * 10
               < 100 * group_discount_usd r + 100
        else group_discount_usd r = 0)
    /\ (if decide (pr = [])
        then premium_surcharge_usd r = 0
        else 100 * premium_surcharge_usd r
               <= (base_total_usd r - group_discount_usd r) * 15
               < 100 * premium_surcharge_usd r + 100)
    /\ special_offer_discount_usd r
         = special_offer_step
             (base_total_usd r - group_discount_usd r + premium_surcharge_usd r)
    /\ total_usd r
         = base_total_usd r - group_discount_usd r + premium_surcharge_usd r
           - special_offer_discount_usd r.
Proof.
  intros Hv.
  destruct (seed_calculate_total m p a pr Hv)
    as (pl & ads & prs & Hpl & Hads & Hprs & Hc & _).
  exists pl, ads, prs, (priced m pl ads prs).
  rewrite <- !dedupe_first_occurrences.
  repeat (split; [done|]). cbn.
  split; [apply group_discount_floor|]. split; [|done].
  pose proof (resolved_nil _ _ _ Hprs) as Hnil.
  pose proof (premium_surcharge_floor prs
    (m * (price_usd pl + total_price ads + total_price prs)
     - group_discount_of m
         (m * (price_usd pl + total_price ads + total_price prs)))) as Hps.
  case_decide as Hpr; destruct prs as [|pr0 prs]; try done.
  - by apply Hnil in Hpr.
  - exfalso. apply Hpr. by apply Hnil.
Qed.

Lemma calculate_total_pipeline_witness :
  validate_selection 2 "premium" [] ["exclusive"] = []
  /\ exists r,
      calculate_total 2 "premium" [] ["exclusive"] = Ok r
      /\ base_total_usd r = 360 /\ group_discount_usd r = 36
      /\ premium_surcharge_usd r = 48 /\ special_offer_discount_usd r = 20
      /\ total_usd r = 352.
Proof.
  split; [reflexivity|].
  destruct (calculate_total_pipeline 2 "premium" [] ["exclusive"] eq_refl)
    as (pl & ads & prs & r & Hpl & Hads & Hprs & Hr & _ & _ & _ & _
        & Hbase & Hgd & Hps & Hso & Htotal).
  vm_compute in Hpl, Hads, Hprs.
  injection Hpl as <-. injection Hads as <-. injection Hprs as <-.
  exists r. split; [exact Hr|].
  change (base_total_usd r = 360) in Hbase.
  rewrite Hbase in *.
  rewrite decide_True in Hgd by lia. rewrite decide_False in Hps by done.
  assert (Hgd36 : group_discount_usd r = 36) by lia.
  rewrite Hgd36 in *.
  assert (Hps48 : premium_surcharge_usd r = 48) by lia.
  rewrite Hps48 in *.
  change (special_offer_discount_usd r = 20) in Hso.
  rewrite Hso in Htotal. repeat split; (done || lia).
Defined.

(** The configuration error is out of reach of the seed catalog on every
    input, valid or not. *)
Lemma seed_never_config_error m p a pr :
  calculate_total m p a pr <> Raise (ValueError config_error).
Proof.
  destruct (validate_selection m p a pr) as [|e errs] eqn:Hv.
  - destruct (seed_calculate_total m p a pr Hv) as (pl & ads & prs & _ & _ & _ & -> & _).
    done.
  - unfold calculate_total, validate_selection in *.
    rewrite calculate_total_invalid by (by rewrite Hv).
    intros [= Heq]. revert Heq. apply invalid_selection_not_config. by rewrite Hv.
Qed.

(** C3. With the seed catalog every selection that passes validation has a
    strictly positive final total, so [calculate_total] returns a result and
    the branch raising the configuration error is not taken. *)
Theorem seed_total_positive m p a pr :
  validate_selection m p a pr = [] ->
  (exists r, calculate_total m p a pr = Ok r /\ 0 < total_usd r)
  /\ calculate_total m p a pr <> Raise (ValueError config_error).
Proof.
  intros Hv. split; [|apply seed_never_config_error].
  destruct (seed_calculate_total m p a pr Hv)
    as (pl & ads & prs & _ & _ & _ & Hc & Hm & Hpl & Ha & Hp).
  exists (priced m pl ads prs). split; [done|].
  pose proof (priced_bounds m pl ads prs Hm Hpl Ha Hp) as (_&_&_&_&Ht&_). lia.
Qed.

Lemma seed_total_positive_witness :
  validate_selection 1 "basic" ["nutrition"] [] = []
  /\ (exists r, calculate_total 1 "basic" ["nutrition"] [] = Ok r /\ 0 < total_usd r)
  /\ calculate_total 1 "basic" ["nutrition"] [] <> Raise (ValueError config_error).
Proof.
  split; [reflexivity|].
  apply (seed_total_positive 1 "basic" ["nutrition"] []). reflexivity.
Defined.

(** C7. With the seed catalog, one member, a plan of the registry and no
    add-on or premium feature: no discount, no surcharge, no special offer,
    and the total (and the base total) is the plan's price. *)
Theorem single_member_plan_only p item :
  PLANS !! p = Some item ->
  exists r,
    calculate_total 1 p [] [] = Ok r
    /\ plan r = item
    /\ base_total_usd r = price_usd item
    /\ group_discount_usd r = 0
    /\ premium_surcharge_usd r = 0
    /\ special_offer_discount_usd r = 0
    /\ total_usd r = price_usd item
    /\ messages r = [].
Proof.
  intros Hp. pose proof (PLANS_lookup _ _ Hp) as [Hav Hprice].
  assert (Hv : validate_selection 1 p [] [] = []).
  { apply validate_selection_nil. split; [lia|]. split; [|by split; constructor].
    apply registry_errors_nil. by exists item. }
  destruct (seed_calculate_total 1 p [] [] Hv)
    as (pl & ads & prs & Hpl & Hads & Hprs & Hc & _).
  rewrite Hp in Hpl. injection Hpl as <-.
  vm_compute in Hads, Hprs. injection Hads as <-. injection Hprs as <-.
  exists (priced 1 item [] []). split; [done|].
  unfold priced, notes_of, group_discount_of, premium_surcharge_of. cbn.
  rewrite (decide_False (P := 2 <= 1)) by lia.
  replace (1 * (price_usd item + 0 + 0) - 0 + 0) with (price_usd item) by lia.
  destruct (special_offer_step_cases (price_usd item)) as [[? ->]|[[? ->]|[? ->]]];
    try lia.
  repeat split; lia.
Qed.

Lemma single_member_plan_only_witness :
  PLANS !! "basic" = Some (mkCatalogItem "basic" "Basic" 60 true false)
  /\ exists r,
      calculate_total 1 "basic" [] [] = Ok r
      /\ base_total_usd r = 60 /\ group_discount_usd r = 0
      /\ premium_surcharge_usd r = 0 /\ special_offer_discount_usd r = 0
      /\ total_usd r = 60.
Proof.
  split; [reflexivity|].
  destruct (single_member_plan_only "basic"
              (mkCatalogItem "basic" "Basic" 60 true false) eq_refl)
    as (r & Hr & _ & Hb & Hg & Hs & Ho & Ht & _).
  exists r. repeat split; assumption.
Defined.

(** C9. Every result that [calculate_total] returns is coherent: the total
    is base - group discount + premium surcharge - special offer, the five
    amounts are non-negative and the total is at least 1. *)
Theorem result_coherent m p a pr r :
  calculate_total m p a pr = Ok r ->
  total_usd r
  = base_total_usd r - group_discount_usd r + premium_surcharge_usd r
    - special_offer_discount_usd r
  /\ 0 <= base_total_usd r
  /\ 0 <= group_discount_usd r
  /\ 0 <= premium_surcharge_usd r
  /\ 0 <= special_offer_discount_usd r
  /\ 1 <= total_usd r.
Proof.
  intros Hr.
  destruct (calculate_total_ok _ _ _ _ _ _ _ _ Hr) as (Hv & _).
  destruct (seed_calculate_total m p a pr Hv)
    as (pl & ads & prs & _ & _ & _ & Hc & Hm & Hpl & Ha & Hp).
  rewrite Hc in Hr. injection Hr as <-.
  pose proof (priced_bounds m pl ads prs Hm Hpl Ha Hp) as (?&?&?&?&?&_).
  by repeat split.
Qed.

Lemma result_coherent_witness :
  exists r,
    calculate_total 4 "family" ["pt"] [] = Ok r
    /\ total_usd r
       = base_total_usd r - group_discount_usd r + premium_surcharge_usd r
         - special_offer_discount_usd r
    /\ 0 <= base_total_usd r /\ 0 <= group_discount_usd r
    /\ 0 <= premium_surcharge_usd r /\ 0 <= special_offer_discount_usd r
    /\ 1 <= total_usd r.
Proof.
  eexists. split; [reflexivity|].
  eapply (result_coherent 4 "family" ["pt"] []). reflexivity.
Defined.

(** ** Notes *)

(** For any catalog, the notes of a returned result are keyed to the rule
    conditions, in rule order. *)
Lemma messages_keyed_to_conditions plans extras features m p a pr r :
  Engine.calculate_total plans extras features m p a pr = Ok r ->
  messages r
  = notes_of m (premium_features r) (special_offer_discount_usd r).
Proof.
  intros Hr. apply calculate_total_ok in Hr as (_ & _ & pl & ads & prs & _ & _ & _ & ->).
  reflexivity.
Qed.

(** With a plan that costs 4, two members get the group note although the
    discount floors to 0. *)
Example group_note_with_zero_discount :
  exists r,
    Engine.calculate_total TRIAL_PLANS ADDONS PREMIUM_FEATURES 2 "trial" [] [] = Ok r
    /\ group_discount_usd r = 0 /\ total_usd r = 8
    /\ messages r = [group_note].
Proof. eexists. split; [reflexivity|]. by repeat split. Qed.

(** C4. For every valid selection the notes are, in this order: the group
    note iff members >= 2, the surcharge note iff a premium feature is
    selected, a special-offer note iff the special-offer discount is not 0;
    with the seed catalog the first two conditions hold exactly when the
    group discount, respectively the premium surcharge, is not 0. *)
Theorem notes_follow_rules m p a pr :
  validate_selection m p a pr = [] ->
  exists r,
    calculate_total m p a pr = Ok r
    /\ messages r
       = (if decide (2 <= m) then [group_note] else [])
         ++ (if decide (pr = []) then [] else [surcharge_note])
         ++ (if decide (special_offer_discount_usd r = 20) then [offer20_note]
             else if decide (special_offer_discount_usd r = 50)
                  then [offer50_note] else [])
    /\ (In group_note (messages r) <-> 2 <= m)
    /\ (In surcharge_note (messages r) <-> pr <> [])
    /\ (In offer20_note (messages r) \/ In offer50_note (messages r)
        <-> special_offer_discount_usd r <> 0)
    /\ (group_discount_usd r <> 0 <-> 2 <= m)
    /\ (premium_surcharge_usd r <> 0 <-> pr <> []).
Proof.
  intros Hv.
  destruct (seed_calculate_total m p a pr Hv)
    as (pl & ads & prs & _ & _ & Hprs & Hc & Hm & Hpl & Ha & Hp).
  pose proof (resolved_nil _ _ _ Hprs) as Hnil.
  pose proof (priced_bounds m pl ads prs Hm Hpl Ha Hp)
    as (_ & _ & _ & _ & _ & Hgd & Hps).
  exists (priced m pl ads prs). split; [done|].
  revert Hgd Hps. unfold priced. cbn - [special_offer_step]. intros Hgd Hps.
  set (ag := m * (price_usd pl + total_price ads + total_price prs)
             - group_discount_of m
                 (m * (price_usd pl + total_price ads + total_price prs))) in *.
  pose proof (special_offer_step_cases (ag + premium_surcharge_of prs ag)) as Hso.
  set (so := special_offer_step (ag + premium_surcharge_of prs ag)) in *.
  clearbody so.
  assert (Hmsg : notes_of m prs so
    = (if decide (2 <= m) then [group_note] else [])
      ++ (if decide (pr = []) then [] else [surcharge_note])
      ++ (if decide (so = 20) then [offer20_note]
          else if decide (so = 50) then [offer50_note] else [])).
  { unfold notes_of. do 2 f_equal.
    case_decide as Hpr; destruct prs; try done.
    - by apply Hnil in Hpr.
    - exfalso. apply Hpr. by apply Hnil. }
  rewrite Hmsg. split; [done|].
  assert (Hgd0 : group_discount_of m
            (m * (price_usd pl + total_price ads + total_price prs)) <> 0
          <-> 2 <= m).
  { split; [|intros H%Hgd; lia].
    unfold group_discount_of. case_decide; [done|]. by intros []. }
  assert (Hps0 : premium_surcharge_of prs ag <> 0 <-> pr <> []).
  { rewrite <- Hnil. split; [|intros H%Hps; lia].
    destruct prs; [by intros []|done]. }
  clear Hmsg Hgd Hps Hnil.
  repeat split; try tauto;
    repeat case_decide; subst; note_membership.
Qed.

Lemma notes_follow_rules_witness :
  validate_selection 2 "premium" [] ["exclusive"] = []
  /\ exists r,
      calculate_total 2 "premium" [] ["exclusive"] = Ok r
      /\ messages r = [group_note; surcharge_note; offer20_note].
Proof.
  split; [reflexivity|].
  destruct (notes_follow_rules 2 "premium" [] ["exclusive"] eq_refl)
    as (r & Hr & Hmsg & _).
  exists r. split; [exact Hr|].
  pose proof Hr as Hr'. vm_compute in Hr'. injection Hr' as <-.
  exact Hmsg.
Defined.

(** ** Invalid selections *)

Lemma registry_errors_cases kind registry c :
  (exists item, registry !! c = Some item /\ available item = true
                /\ registry_errors kind registry c = [])
  \/ (exists item, registry !! c = Some item /\ available item = false
                   /\ registry_errors kind registry c = [unavailable_msg kind c])
  \/ (registry !! c = None
      /\ registry_errors kind registry c = [unknown_msg kind c]).
Proof.
  unfold registry_errors. destruct (registry !! c) as [item|]; [|by right; right].
  destruct (available item) eqn:Hav; [left|right; left]; by exists item.
Qed.

Lemma registry_errors_length kind registry c :
  (length (registry_errors kind registry c) <= 1)%nat.
Proof.
  destruct (registry_errors_cases kind registry c)
    as [(? & _ & _ & ->)|[(? & _ & _ & ->)|(_ & ->)]]; simpl; lia.
Qed.

Lemma members_errors_length m : (length (members_errors m) <= 1)%nat.
Proof. unfold members_errors. case_decide; simpl; lia. Qed.

(** A code of the input that breaks a registry rule has its message in the
    part of the list that the rule contributes. *)
Lemma violation_collected kind registry codes c msg :
  In c codes -> In msg (registry_errors kind registry c) ->
  In msg (flat_map (registry_errors kind registry) (_dedupe_preserve_order codes)).
Proof.
  intros Hc Hmsg. apply in_flat_map. exists c. split; [|done].
  apply list_elem_of_In, dedupe_elem, list_elem_of_In, Hc.
Qed.

(** C5. When validation finds a violation, [calculate_total] raises
    [ValueError] with all collected messages joined by "; ".  Nothing is
    short-circuited: the message of every violated rule (members, plan,
    each add-on code, each premium code) is in the list, and every message
    of the list is a contiguous part of the joined text. *)
Theorem invalid_selection_reports_all plans extras features m p a pr e errs :
  Engine.validate_selection plans extras features m p a pr = e :: errs ->
  Engine.calculate_total plans extras features m p a pr
  = Raise (ValueError (join "; " (e :: errs)))
  /\ (m <= 0 -> In members_msg (e :: errs))
  /\ (plans !! p = None -> In (unknown_msg "plan" p) (e :: errs))
  /\ (forall item, plans !! p = Some item -> available item = false ->
        In (unavailable_msg "plan" p) (e :: errs))
  /\ (forall c, In c a -> extras !! c = None ->
        In (unknown_msg "add-on" c) (e :: errs))
  /\ (forall c item, In c a -> extras !! c = Some item -> available item = false ->
        In (unavailable_msg "add-on" c) (e :: errs))
  /\ (forall c, In c pr -> features !! c = None ->
        In (unknown_msg "premium feature" c) (e :: errs))
  /\ (forall c item, In c pr -> features !! c = Some item ->
        available item = false ->
        In (unavailable_msg "premium feature" c) (e :: errs))
  /\ (forall msg, In msg (e :: errs) ->
        exists before after,
          join "; " (e :: errs) = before +:+ msg +:+ after).
Proof.
  intros Hv. split.
  { rewrite calculate_total_invalid by (by rewrite Hv). by rewrite Hv. }
  rewrite <- Hv, validate_selection_rules. clear Hv.
  repeat split.
  - intros Hm. apply in_or_app. left.
    unfold members_errors. rewrite decide_False by lia. by left.
  - intros Hp. apply in_or_app. right. apply in_or_app. left.
    unfold registry_errors. rewrite Hp. by left.
  - intros item Hp Hav. apply in_or_app. right. apply in_or_app. left.
    unfold registry_errors. rewrite Hp, Hav. by left.
  - intros c Hc Hl. do 2 (apply in_or_app; right). apply in_or_app. left.
    apply (violation_collected _ _ _ c); [done|].
    unfold registry_errors. rewrite Hl. by left.
  - intros c item Hc Hl Hav. do 2 (apply in_or_app; right). apply in_or_app. left.
    apply (violation_collected _ _ _ c); [done|].
    unfold registry_errors. rewrite Hl, Hav. by left.
  - intros c Hc Hl. do 3 (apply in_or_app; right).
    apply (violation_collected _ _ _ c); [done|].
    unfold registry_errors. rewrite Hl. by left.
  - intros c item Hc Hl Hav. do 3 (apply in_or_app; right).
    apply (violation_collected _ _ _ c); [done|].
    unfold registry_errors. rewrite Hl, Hav. by left.
  - intros msg Hmsg. apply join_contains. by apply list_elem_of_In.
Qed.

Lemma invalid_selection_reports_all_witness :
  validate_selection 0 "gold" [] []
  = ["members must be a positive integer."; "unknown plan: 'gold'."]
  /\ calculate_total 0 "gold" [] []
     = Raise (ValueError
         "members must be a positive integer.; unknown plan: 'gold'.").
Proof.
  split; [reflexivity|].
  apply (invalid_selection_reports_all PLANS ADDONS PREMIUM_FEATURES
           0 "gold" [] [] "members must be a positive integer."
           ["unknown plan: 'gold'."]).
  reflexivity.
Defined.

(** C10. The messages of an invalid selection are joined in a fixed order:
    the members message, then the plan message, then the messages of the
    add-on codes, then those of the premium-feature codes, each code
    contributing at most one message and the codes taken in the order of
    their first occurrence in the input. *)
Theorem invalid_selection_message_order plans extras features m p a pr e errs :
  Engine.validate_selection plans extras features m p a pr = e :: errs ->
  Engine.calculate_total plans extras features m p a pr
  = Raise (ValueError (join "; "
      (members_errors m
       ++ registry_errors "plan" plans p
       ++ flat_map (registry_errors "add-on" extras) (first_occurrences a)
       ++ flat_map (registry_errors "premium feature" features)
            (first_occurrences pr))))
  /\ e :: errs
     = members_errors m
       ++ registry_errors "plan" plans p
       ++ flat_map (registry_errors "add-on" extras) (first_occurrences a)
       ++ flat_map (registry_errors "premium feature" features)
            (first_occurrences pr)
  /\ (length (members_errors m) <= 1)%nat
  /\ (length (registry_errors "plan" plans p) <= 1)%nat
  /\ (forall c, (length (registry_errors "add-on" extras c) <= 1)%nat)
  /\ (forall c, (length (registry_errors "premium feature" features c) <= 1)%nat)
  /\ (forall c, extras !! c = None ->
        registry_errors "add-on" extras c = [unknown_msg "add-on" c])
  /\ (forall c, features !! c = None ->
        registry_errors "premium feature" features c
        = [unknown_msg "premium feature" c]).
Proof.
  intros Hv.
  assert (Hlist : e :: errs
     = members_errors m
       ++ registry_errors "plan" plans p
       ++ flat_map (registry_errors "add-on" extras) (first_occurrences a)
       ++ flat_map (registry_errors "premium feature" features)
            (first_occurrences pr)).
  { by rewrite <- Hv, validate_selection_rules, !dedupe_first_occurrences. }
  split; [|split; [done|]].
  - rewrite calculate_total_invalid by (by rewrite Hv).
    by rewrite Hv, Hlist.
  - repeat split; intros;
      try (apply members_errors_length || apply registry_errors_length);
      unfold registry_errors;
      match goal with Hnone : _ !! _ = None |- _ => by rewrite Hnone end.
Qed.

Lemma invalid_selection_message_order_witness :
  validate_selection 0 "gold" ["y"; "pt"; "x"; "y"] ["z"; "z"]
  = ["members must be a positive integer."; "unknown plan: 'gold'.";
     "unknown add-on: 'y'."; "unknown add-on: 'x'.";
     "unknown premium feature: 'z'."]
  /\ calculate_total 0 "gold" ["y"; "pt"; "x"; "y"] ["z"; "z"]
     = Raise (ValueError
         ("members must be a positive integer.; unknown plan: 'gold'.; "
          +:+ "unknown add-on: 'y'.; unknown add-on: 'x'.; "
          +:+ "unknown premium feature: 'z'.")).
Proof.
  split; [reflexivity|].
  apply (invalid_selection_message_order PLANS ADDONS PREMIUM_FEATURES
           0 "gold" ["y"; "pt"; "x"; "y"] ["z"; "z"]
           "members must be a positive integer."
           ["unknown plan: 'gold'."; "unknown add-on: 'y'.";
            "unknown add-on: 'x'."; "unknown premium feature: 'z'."]).
  reflexivity.
Defined.

(** ** Duplicates *)

(** C6. Add-on and premium codes are de-duplicated, first occurrences kept
    in order, before validation and pricing: a call gives the same outcome
    as the call on the de-duplicated sequences, so a repeated code is
    neither rejected nor charged twice; ["pt"; "pt"] prices as ["pt"]. *)
Theorem duplicates_collapse plans extras features m p a pr :
  Engine.calculate_total plans extras features m p a pr
  = Engine.calculate_total plans extras features m p
      (_dedupe_preserve_order a) (_dedupe_preserve_order pr)
  /\ _dedupe_preserve_order a = first_occurrences a
  /\ _dedupe_preserve_order pr = first_occurrences pr
  /\ NoDup (_dedupe_preserve_order a)
  /\ NoDup (_dedupe_preserve_order pr)
  /\ calculate_total 1 "basic" ["pt"; "pt"] [] = calculate_total 1 "basic" ["pt"] []
  /\ (exists r, calculate_total 1 "basic" ["pt"; "pt"] [] = Ok r
                /\ length (addons r) = 1%nat
                /\ base_total_usd r = 120 /\ total_usd r = 120).
Proof.
  split.
  { unfold Engine.calculate_total.
    by rewrite !dedupe_idempotent. }
  repeat split; try apply dedupe_first_occurrences; try apply dedupe_NoDup.
  eexists. split; [reflexivity|]. by repeat split.
Qed.

(** ** Determinism *)

Lemma registry_errors_ext kind (registry registry' : gmap string CatalogItem) c :
  registry !! c = registry' !! c ->
  registry_errors kind registry c = registry_errors kind registry' c.
Proof. unfold registry_errors. by intros ->. Qed.

Lemma flat_map_agree {A B} (f g : A -> list B) l :
  (forall x, In x l -> f x = g x) -> flat_map f l = flat_map g l.
Proof.
  induction l as [|x l IH]; intros H; simpl; [done|].
  rewrite (H x) by (by left). f_equal. apply IH. intros y Hy. apply H. by right.
Qed.

Lemma getitems_agree (d d' : gmap string CatalogItem) codes :
  (forall c, In c codes -> d !! c = d' !! c) -> getitems d codes = getitems d' codes.
Proof.
  induction codes as [|c codes IH]; intros H; simpl; [done|].
  unfold getitem. rewrite (H c) by (by left).
  rewrite IH; [done|]. intros c' Hc'. apply H. by right.
Qed.

Lemma dedupe_In codes c : In c (_dedupe_preserve_order codes) <-> In c codes.
Proof. rewrite <- !list_elem_of_In. apply dedupe_elem. Qed.

(** * The pricing module on the store *)

(** ** Objects that the call finds and objects that it creates *)

Lemma st_bind_ok {A B} (m : Heap.st A) (k : A -> Heap.st B) h a h' :
  m h = Some (Ok a, h') -> (m ≫= k) h = k a h'.
Proof. intros H. unfold mbind, Heap.st_bind. by rewrite H. Qed.

Lemma st_bind_raise {A B} (m : Heap.st A) (k : A -> Heap.st B) h e h' :
  m h = Some (Raise e, h') -> (m ≫= k) h = Some (Raise e, h').
Proof. intros H. unfold mbind, Heap.st_bind. by rewrite H. Qed.

Lemma lookup_new (h E : list Heap.object) l k :
  l = (length h + k)%nat -> (h ++ E) !! l = E !! k.
Proof.
  intros ->. rewrite lookup_app_r by lia. f_equal. lia.
Qed.

Lemma insert_new (h E : list Heap.object) l k o :
  l = (length h + k)%nat -> <[l := o]> (h ++ E) = h ++ <[k := o]> E.
Proof. intros ->. apply insert_app_r. Qed.

Lemma holds_app h E values items :
  Heap.holds h values items -> Heap.holds (h ++ E) values items.
Proof. destruct values; simpl; [done|]. apply lookup_app_l_Some. Qed.

Lemma catalog_app h E g plans extras features :
  Heap.catalog h g plans extras features ->
  Heap.catalog (h ++ E) g plans extras features.
Proof.
  intros (Hp & Ha & Hf). repeat split; by apply lookup_app_l_Some.
Qed.

Lemma read_set_new h E l k s :
  l = (length h + k)%nat -> E !! k = Some (Heap.SetObj s) ->
  Heap.read_set l (h ++ E) = Some (Ok s, h ++ E).
Proof. intros Hl Hk. unfold Heap.read_set. by rewrite (lookup_new _ _ _ _ Hl), Hk. Qed.

Lemma read_list_new h E l k xs :
  l = (length h + k)%nat -> E !! k = Some (Heap.ListObj xs) ->
  Heap.read_list l (h ++ E) = Some (Ok xs, h ++ E).
Proof. intros Hl Hk. unfold Heap.read_list. by rewrite (lookup_new _ _ _ _ Hl), Hk. Qed.

Lemma list_append_new h E E' l k xs x :
  l = (length h + k)%nat -> E !! k = Some (Heap.ListObj xs) ->
  E' = <[k := Heap.ListObj (xs ++ [x])]> E ->
  Heap.list_append l x (h ++ E) = Some (Ok tt, h ++ E').
Proof.
  intros Hl Hk ->. unfold Heap.list_append.
  by rewrite (lookup_new _ _ _ _ Hl), Hk, (insert_new _ _ _ _ _ Hl).
Qed.

Lemma set_add_new h E E' l k s x :
  l = (length h + k)%nat -> E !! k = Some (Heap.SetObj s) ->
  E' = <[k := Heap.SetObj ({[x]} ∪ s)]> E ->
  Heap.set_add l x (h ++ E) = Some (Ok tt, h ++ E').
Proof.
  intros Hl Hk ->. unfold Heap.set_add.
  by rewrite (lookup_new _ _ _ _ Hl), Hk, (insert_new _ _ _ _ _ Hl).
Qed.

Lemma dict_contains_at h d entries k :
  h !! d = Some (Heap.DictObj entries) ->
  Heap.dict_contains d k h
  = Some (Ok (match entries !! k with Some _ => true | None => false end), h).
Proof.
  intros Hd. unfold Heap.dict_contains, Heap.read_dict, mbind, Heap.st_bind.
  rewrite Hd. unfold mret, Heap.st_ret. by destruct (entries !! k).
Qed.

Lemma dict_getitem_at h d entries k :
  h !! d = Some (Heap.DictObj entries) ->
  Heap.dict_getitem d k h = Some (getitem entries k, h).
Proof.
  intros Hd. unfold Heap.dict_getitem, Heap.read_dict, mbind, Heap.st_bind, getitem.
  rewrite Hd. by destruct (entries !! k).
Qed.

(** A loop whose body keeps an invariant returns, with the invariant at
    the end of the sequence. *)
Lemma iterate_invariant {B} (values : Heap.iterable) (items : list string)
    (body : B -> string -> Heap.st B) (I : nat -> B -> list Heap.object -> Prop) :
  (forall i acc h, I i acc h -> Heap.holds h values items) ->
  (forall i x acc h, I i acc h -> items !! i = Some x ->
     exists acc' h', body acc x h = Some (Ok acc', h') /\ I (S i) acc' h') ->
  forall acc h, I 0%nat acc h ->
  exists acc' h',
    Heap.iterate values body acc h = Some (Ok acc', h')
    /\ I (length items) acc' h'.
Proof.
  intros Hholds Hbody acc h HI.
  destruct values as [ys|l].
  - pose proof (Hholds _ _ _ HI) as Hys. simpl in Hys. subst ys. simpl.
    assert (Haux : forall n i acc h, (i + n = length items)%nat -> I i acc h ->
              exists acc' h',
                Heap.iterate_tuple (drop i items) body acc h = Some (Ok acc', h')
                /\ I (length items) acc' h').
    { clear acc h HI. induction n as [|n IH]; intros i acc h Hn HI.
      - assert (i = length items) as -> by lia. rewrite drop_all. by exists acc, h.
      - destruct (lookup_lt_is_Some_2 items i ltac:(lia)) as (x & Hx).
        rewrite (drop_S _ _ _ Hx). simpl.
        destruct (Hbody _ _ _ _ HI Hx) as (acc1 & h1 & Hb & HI1).
        rewrite (st_bind_ok _ _ _ _ _ Hb). apply IH; [lia|done]. }
    apply (Haux (length items) 0%nat); [lia|done].
  - pose proof (Hholds _ _ _ HI) as Hl. simpl in Hl. simpl. rewrite Hl.
    assert (Haux : forall n i acc h, (i + n = length items)%nat -> I i acc h ->
              exists acc' h',
                Heap.iterate_list n l i body acc h = Some (Ok acc', h')
                /\ I (length items) acc' h').
    { clear acc h HI Hl. induction n as [|n IH]; intros i acc h Hn HI.
      - assert (i = length items) as -> by lia.
        pose proof (Hholds _ _ _ HI) as Hl. simpl in Hl. simpl. rewrite Hl.
        rewrite (lookup_ge_None_2 items (length items)) by lia. by exists acc, h.
      - destruct (lookup_lt_is_Some_2 items i ltac:(lia)) as (x & Hx).
        pose proof (Hholds _ _ _ HI) as Hl. simpl in Hl. simpl. rewrite Hl, Hx.
        destruct (Hbody _ _ _ _ HI Hx) as (acc1 & h1 & Hb & HI1).
        rewrite (st_bind_ok _ _ _ _ _ Hb). apply IH; [lia|done]. }
    apply (Haux (length items) 0%nat); [lia|done].
Qed.

(** ** De-duplication on the store *)

Lemma dedupe_on_store values items (h : list Heap.object) :
  Heap.holds h values items ->
  exists seen,
    Heap._dedupe_preserve_order values h
    = Some (Ok (length h + 1)%nat,
            h ++ [Heap.SetObj seen; Heap.ListObj (_dedupe_preserve_order items)]).
Proof.
  intros Hv. unfold Heap._dedupe_preserve_order.
  rewrite (st_bind_ok (Heap.new _) _ h (length h) (h ++ [Heap.SetObj ∅]) eq_refl).
  rewrite (st_bind_ok (Heap.new _) _ _ (length h + 1)%nat
             (h ++ [Heap.SetObj ∅; Heap.ListObj []])).
  2:{ unfold Heap.new. by rewrite length_app, <- app_assoc. }
  set (body := fun (_ : unit) (v : string) => _).
  destruct (iterate_invariant values items body
              (fun i _ h' =>
                 exists seen out,
                   h' = h ++ [Heap.SetObj seen; Heap.ListObj out]
                   /\ dedupe_loop (drop i items) seen out
                      = _dedupe_preserve_order items))
    with (acc := tt) (h := h ++ [Heap.SetObj ∅; Heap.ListObj []])
    as ([] & h' & Hrun & (seen & out & -> & Hout)).
  - intros i _ h' (seen & out & -> & _). by apply holds_app.
  - intros i x [] h' (seen & out & -> & Hloop) Hx.
    rewrite (drop_S _ _ _ Hx) in Hloop. simpl in Hloop.
    subst body. cbv beta.
    rewrite (st_bind_ok _ _ _ _ _
               (read_set_new h [Heap.SetObj seen; Heap.ListObj out]
                  (length h) 0 seen ltac:(lia) eq_refl)).
    destruct (decide (x ∈ seen)).
    + exists tt. eexists. split; [reflexivity|]. by exists seen, out.
    + rewrite (st_bind_ok _ _ _ _ _
                 (list_append_new h [Heap.SetObj seen; Heap.ListObj out]
                    [Heap.SetObj seen; Heap.ListObj (out ++ [x])]
                    (length h + 1) 1 out x ltac:(lia) eq_refl eq_refl)).
      rewrite (set_add_new h [Heap.SetObj seen; Heap.ListObj (out ++ [x])]
                 [Heap.SetObj ({[x]} ∪ seen); Heap.ListObj (out ++ [x])]
                 (length h) 0 seen x ltac:(lia) eq_refl eq_refl).
      exists tt. eexists. split; [reflexivity|]. by eexists _, _.
  - by exists ∅, [].
  - rewrite (st_bind_ok _ _ _ _ _ Hrun).
    rewrite drop_all in Hout. simpl in Hout. subst out.
    by exists seen.
Qed.

(** ** Validation on the store *)

Lemma check_loop (h T : list Heap.object) k codes
    (body : unit -> string -> Heap.st unit)
    (check : list string -> string -> list string) :
  T !! k = Some (Heap.ListObj codes) ->
  (forall errors x,
     body tt x (h ++ Heap.ListObj errors :: T)
     = Some (Ok tt, h ++ Heap.ListObj (check errors x) :: T)) ->
  forall errors,
    Heap.iterate (Heap.ListRef (length h + S k)) body tt
      (h ++ Heap.ListObj errors :: T)
    = Some (Ok tt, h ++ Heap.ListObj (fold_left check codes errors) :: T).
Proof.
  intros Hk Hbody errors.
  destruct (iterate_invariant (Heap.ListRef (length h + S k)) codes body
              (fun i _ h' =>
                 h' = h ++ Heap.ListObj (fold_left check (take i codes) errors) :: T))
    with (acc := tt) (h := h ++ Heap.ListObj errors :: T)
    as ([] & h' & -> & ->).
  - intros i _ h' ->. simpl. by rewrite (lookup_new h _ _ (S k) eq_refl).
  - intros i x [] h' -> Hx. exists tt. eexists. split; [apply Hbody|].
    by rewrite (take_S_r _ _ _ Hx), fold_left_app.
  - done.
  - by rewrite firstn_all.
Qed.

Lemma check_on_store (h T : list Heap.object) d registry errors x
    unknown unavailable :
  h !! d = Some (Heap.DictObj registry) ->
  (if negb (match registry !! x with Some _ => true | None => false end)
   then Heap.list_append (length h) unknown
   else
     item ← Heap.dict_getitem d x;
     if negb (available item) then Heap.list_append (length h) unavailable
     else mret tt) (h ++ Heap.ListObj errors :: T)
  = Some (Ok tt,
          h ++ Heap.ListObj
                 (match registry !! x with
                  | None => errors ++ [unknown]
                  | Some item =>
                      if negb (available item) then errors ++ [unavailable]
                      else errors
                  end) :: T).
Proof.
  intros Hd.
  pose proof (lookup_app_l_Some h (Heap.ListObj errors :: T) d _ Hd) as Hd'.
  assert (Happend : forall msg,
            Heap.list_append (length h) msg (h ++ Heap.ListObj errors :: T)
            = Some (Ok tt, h ++ Heap.ListObj (errors ++ [msg]) :: T)).
  { intros msg. by apply (list_append_new h _ _ (length h) 0 errors). }
  destruct (registry !! x) as [item|] eqn:Hx; cbn [negb].
  - pose proof (dict_getitem_at _ _ _ x Hd') as Hget.
    unfold getitem in Hget. rewrite Hx in Hget.
    rewrite (st_bind_ok _ _ _ _ _ Hget).
    destruct (available item); cbn [negb]; [done|apply Happend].
  - apply Happend.
Qed.

Lemma check_body_on_store (h T : list Heap.object) d registry errors x
    unknown unavailable :
  h !! d = Some (Heap.DictObj registry) ->
  (known ← Heap.dict_contains d x;
   if negb known then Heap.list_append (length h) unknown
   else
     item ← Heap.dict_getitem d x;
     if negb (available item) then Heap.list_append (length h) unavailable
     else mret tt) (h ++ Heap.ListObj errors :: T)
  = Some (Ok tt,
          h ++ Heap.ListObj
                 (match registry !! x with
                  | None => errors ++ [unknown]
                  | Some item =>
                      if negb (available item) then errors ++ [unavailable]
                      else errors
                  end) :: T).
Proof.
  intros Hd.
  pose proof (lookup_app_l_Some h (Heap.ListObj errors :: T) d _ Hd) as Hd'.
  rewrite (st_bind_ok _ _ _ _ _ (dict_contains_at _ _ _ x Hd')).
  by apply check_on_store.
Qed.

Lemma validate_on_store g (h : list Heap.object) plans extras features
    m p a pr la lpr :
  Heap.catalog h g plans extras features ->
  Heap.holds h a la -> Heap.holds h pr lpr ->
  exists T,
    Heap.validate_selection g m p a pr h
    = Some (Ok (length h),
            h ++ Heap.ListObj
                   (Engine.validate_selection plans extras features m p la lpr)
                 :: T).
Proof.
  intros (Hplans & Hextras & Hfeatures) Ha Hpr.
  unfold Heap.validate_selection, Engine.validate_selection.
  rewrite (st_bind_ok (Heap.new _) _ h (length h) (h ++ [Heap.ListObj []]) eq_refl).
  set (e1 := if m <=? 0 then [] ++ ["members must be a positive integer."] else []).
  rewrite (st_bind_ok _ _ _ tt (h ++ [Heap.ListObj e1])).
  2:{ subst e1. destruct (m <=? 0); [|done].
      by apply (list_append_new h _ _ (length h) 0 []). }
  rewrite (st_bind_ok _ _ _ _ _
             (dict_contains_at _ _ _ p
                (lookup_app_l_Some h [Heap.ListObj e1] _ _ Hplans))).
  rewrite (st_bind_ok _ _ _ _ _
             (check_on_store h [] _ plans e1 p _ _ Hplans)).
  set (e2 := match plans !! p with
             | Some item => _
             | None => _
             end).
  destruct (dedupe_on_store a la (h ++ [Heap.ListObj e2]) (holds_app _ _ _ _ Ha))
    as (seen1 & Hd1).
  rewrite length_app, <- app_assoc in Hd1. cbn [length app] in Hd1.
  rewrite (st_bind_ok _ _ _ _ _ Hd1).
  replace (length h + 1 + 1)%nat with (length h + 2)%nat by lia.
  rewrite (st_bind_ok _ _ _ _ _
             (check_loop h [Heap.SetObj seen1;
                            Heap.ListObj (_dedupe_preserve_order la)]
                1 (_dedupe_preserve_order la) _ (Engine.check_addon extras)
                eq_refl
                (fun errors x => check_body_on_store h _ _ extras errors x _ _ Hextras)
                e2)).
  set (e3 := fold_left (Engine.check_addon extras) (_dedupe_preserve_order la) e2).
  destruct (dedupe_on_store pr lpr
              (h ++ [Heap.ListObj e3; Heap.SetObj seen1;
                     Heap.ListObj (_dedupe_preserve_order la)])
              (holds_app _ _ _ _ Hpr))
    as (seen2 & Hd2).
  rewrite length_app, <- app_assoc in Hd2. cbn [length app] in Hd2.
  rewrite (st_bind_ok _ _ _ _ _ Hd2).
  replace (length h + 3 + 1)%nat with (length h + 4)%nat by lia.
  rewrite (st_bind_ok _ _ _ _ _
             (check_loop h [Heap.SetObj seen1;
                            Heap.ListObj (_dedupe_preserve_order la);
                            Heap.SetObj seen2;
                            Heap.ListObj (_dedupe_preserve_order lpr)]
                3 (_dedupe_preserve_order lpr) _ (Engine.check_premium features)
                eq_refl
                (fun errors x =>
                   check_body_on_store h _ _ features errors x _ _ Hfeatures)
                e3)).
  by eexists.
Qed.

(** ** The quote on the store *)

Lemma tuple_of_items_on_store (h : list Heap.object) d codes entries cs :
  h !! d = Some (Heap.DictObj entries) ->
  h !! codes = Some (Heap.ListObj cs) ->
  Heap.tuple_of_items d codes h = Some (getitems entries cs, h).
Proof.
  intros Hd Hcodes. unfold Heap.tuple_of_items. simpl. rewrite Hcodes.
  set (body := fun (items : list CatalogItem) (c : string) => _).
  assert (Haux : forall n i acc, (i + n = length cs)%nat ->
            Heap.iterate_list n codes i body acc h
            = Some (match getitems entries (drop i cs) with
                    | Ok vs => Ok (acc ++ vs)
                    | Raise e => Raise e
                    end, h)).
  { induction n as [|n IH]; intros i acc Hn.
    - assert (i = length cs) as -> by lia. simpl. rewrite Hcodes.
      rewrite (lookup_ge_None_2 cs (length cs)) by lia.
      rewrite drop_all. simpl. by rewrite app_nil_r.
    - destruct (lookup_lt_is_Some_2 cs i ltac:(lia)) as (x & Hx).
      simpl. rewrite Hcodes, Hx, (drop_S _ _ _ Hx). simpl.
      subst body. cbv beta.
      pose proof (dict_getitem_at h d entries x Hd) as Hget.
      destruct (getitem entries x) as [v|e].
      + rewrite (st_bind_ok _ _ _ _ _
                   (st_bind_ok _ (fun item => mret (acc ++ [item])) _ _ _ Hget)).
        rewrite IH by lia. simpl.
        destruct (getitems entries (drop (S i) cs)); simpl; [|done].
        by rewrite <- app_assoc.
      + by rewrite (st_bind_raise _ _ _ _ _
                      (st_bind_raise _ (fun item => mret (acc ++ [item])) _ _ _ Hget)). }
  rewrite (Haux (length cs) 0%nat []) by lia. rewrite drop_0.
  by destruct (getitems entries cs).
Qed.

Lemma lookup_last (h : list Heap.object) o : (h ++ [o]) !! length h = Some o.
Proof. apply list_lookup_middle. done. Qed.

Lemma insert_last (h : list Heap.object) o o' :
  <[length h := o']> (h ++ [o]) = h ++ [o'].
Proof.
  rewrite (insert_new h [o] (length h) 0 o') by lia. done.
Qed.

(** The function on the store computes the function on values, and the
    store it leaves is the store it found followed by new objects. *)
Lemma calculate_total_on_store g (h : list Heap.object) plans extras features
    m p a pr la lpr :
  Heap.catalog h g plans extras features ->
  Heap.holds h a la -> Heap.holds h pr lpr ->
  exists fresh,
    Heap.calculate_total g m p a pr h
    = Some (Engine.calculate_total plans extras features m p la lpr, h ++ fresh).
Proof.
  intros Hcat Ha Hpr.
  unfold Heap.calculate_total, Engine.calculate_total.
  destruct (dedupe_on_store a la h Ha) as (seen1 & Hd1).
  rewrite (st_bind_ok _ _ _ _ _ Hd1).
  destruct (dedupe_on_store pr lpr _ (holds_app _ [Heap.SetObj seen1;
              Heap.ListObj (_dedupe_preserve_order la)] _ _ Hpr))
    as (seen2 & Hd2).
  rewrite length_app, <- app_assoc in Hd2. cbn [length app] in Hd2.
  replace (length h + 2 + 1)%nat with (length h + 3)%nat in Hd2 by lia.
  rewrite (st_bind_ok _ _ _ _ _ Hd2).
  set (d1 := _dedupe_preserve_order la) in *.
  set (d2 := _dedupe_preserve_order lpr) in *.
  set (h2 := h ++ [Heap.SetObj seen1; Heap.ListObj d1;
                   Heap.SetObj seen2; Heap.ListObj d2]).
  assert (Hl1 : h2 !! (length h + 1)%nat = Some (Heap.ListObj d1))
    by (subst h2; by rewrite (lookup_new h _ _ 1 eq_refl)).
  assert (Hl2 : h2 !! (length h + 3)%nat = Some (Heap.ListObj d2))
    by (subst h2; by rewrite (lookup_new h _ _ 3 eq_refl)).
  pose proof (catalog_app h [Heap.SetObj seen1; Heap.ListObj d1;
                Heap.SetObj seen2; Heap.ListObj d2] _ _ _ _ Hcat) as Hcat2.
  fold h2 in Hcat2.
  destruct (validate_on_store g h2 plans extras features m p
              (Heap.ListRef (length h + 1)) (Heap.ListRef (length h + 3))
              d1 d2 Hcat2 Hl1 Hl2) as (T & Hv).
  rewrite (st_bind_ok _ _ _ _ _ Hv).
  set (errors := Engine.validate_selection plans extras features m p d1 d2).
  set (h3 := h2 ++ Heap.ListObj errors :: T).
  rewrite (st_bind_ok _ _ _ _ _
             (read_list_new h2 (Heap.ListObj errors :: T) (length h2) 0 errors
                ltac:(lia) eq_refl)).
  fold h3.
  assert (Hh3 : exists fresh, h3 = h ++ fresh).
  { subst h3 h2. rewrite <- app_assoc. by eexists. }
  destruct errors as [|e errors'].
  2:{ destruct Hh3 as (fresh & ->). by exists fresh. }
  pose proof (catalog_app h2 (Heap.ListObj [] :: T) _ _ _ _ Hcat2)
    as (Hplans & Hextras & Hfeatures).
  fold h3 in Hplans, Hextras, Hfeatures.
  pose proof (dict_getitem_at h3 _ _ p Hplans) as Hget.
  destruct (getitem plans p) as [plan|e].
  2:{ rewrite (st_bind_raise _ _ _ _ _ Hget).
      destruct Hh3 as (fresh & ->). by exists fresh. }
  rewrite (st_bind_ok _ _ _ _ _ Hget). cbn [mbind result_bind].
  assert (Hh1 : h3 !! (length h + 1)%nat = Some (Heap.ListObj d1))
    by (subst h3; by apply lookup_app_l_Some).
  assert (Hh2 : h3 !! (length h + 3)%nat = Some (Heap.ListObj d2))
    by (subst h3; by apply lookup_app_l_Some).
  pose proof (tuple_of_items_on_store h3 _ _ _ _ Hextras Hh1) as Hads.
  destruct (getitems extras d1) as [ads|e].
  2:{ rewrite (st_bind_raise _ _ _ _ _ Hads).
      destruct Hh3 as (fresh & ->). by exists fresh. }
  rewrite (st_bind_ok _ _ _ _ _ Hads).
  pose proof (tuple_of_items_on_store h3 _ _ _ _ Hfeatures Hh2) as Hprs.
  destruct (getitems features d2) as [prs|e].
  2:{ rewrite (st_bind_raise _ _ _ _ _ Hprs).
      destruct Hh3 as (fresh & ->). by exists fresh. }
  rewrite (st_bind_ok _ _ _ _ _ Hprs).
  destruct Hh3 as (fresh & Hfresh).
  assert (Hend : forall o, h3 ++ [o] = h ++ (fresh ++ [o]))
    by (intros o; by rewrite Hfresh, <- app_assoc).
  clearbody h3. clear -Hend.
  unfold mbind, Heap.st_bind, result_bind, Heap.new, Heap.list_append,
    Heap.read_list, mret, Heap.st_ret, Heap.raise.
  cbn beta iota zeta.
  destruct (m >=? 2); destruct prs as [|item prs'];
    repeat (progress (rewrite ?lookup_last, ?insert_last; cbn beta iota zeta));
    match goal with
    | |- context [_special_offer_discount ?t] =>
        generalize (_special_offer_discount t); intros offer
    end;
    (destruct (offer =? 20); [|destruct (offer =? 50)]);
    repeat (progress (rewrite ?lookup_last, ?insert_last; cbn beta iota zeta));
    match goal with
    | |- context [?t <=? 0] => destruct (t <=? 0)
    end;
    repeat (progress (rewrite ?lookup_last, ?insert_last; cbn beta iota zeta));
    eexists; rewrite Hend; reflexivity.
Qed.

(** C8. [calculate_total] is deterministic and stateless.  Take two stores
    that hold the same catalog, and arguments that stand for the same
    sequences in them (tuples, or list objects at any addresses; the members
    and the plan code are the same values).  The two calls return, with the
    same outcome: the same result, field for field, or the same error.  A
    call changes no object that it found in the store, it only adds the
    objects it creates, so the catalog and the arguments are as before; and
    nothing that it leaves behind is read by a later call: the same call
    made again on the store that the first one left has the same outcome
    once more.  That outcome is the one of the function on values, which
    the other properties are stated for. *)
Theorem calculate_total_deterministic g g' (h h' : list Heap.object)
    plans extras features m p a pr a' pr' la lpr :
  Heap.catalog h g plans extras features ->
  Heap.catalog h' g' plans extras features ->
  Heap.holds h a la -> Heap.holds h pr lpr ->
  Heap.holds h' a' la -> Heap.holds h' pr' lpr ->
  exists o h1 h1' h2,
    Heap.calculate_total g m p a pr h = Some (o, h1)
    /\ Heap.calculate_total g' m p a' pr' h' = Some (o, h1')
    /\ Heap.calculate_total g m p a pr h1 = Some (o, h2)
    /\ h `prefix_of` h1 /\ h' `prefix_of` h1' /\ h1 `prefix_of` h2
    /\ o = Engine.calculate_total plans extras features m p la lpr.
Proof.
  intros Hcat Hcat' Ha Hpr Ha' Hpr'.
  destruct (calculate_total_on_store g h _ _ _ m p a pr la lpr Hcat Ha Hpr)
    as (fresh & Hrun).
  destruct (calculate_total_on_store g' h' _ _ _ m p a' pr' la lpr Hcat' Ha' Hpr')
    as (fresh' & Hrun').
  destruct (calculate_total_on_store g (h ++ fresh) _ _ _ m p a pr la lpr
              (catalog_app _ fresh _ _ _ _ Hcat)
              (holds_app _ fresh _ _ Ha) (holds_app _ fresh _ _ Hpr))
    as (fresh2 & Hrun2).
  eexists _, _, _, _. repeat split; try done; by eexists.
Qed.

Lemma calculate_total_deterministic_witness :
  exists o h1 h1' h2,
    Heap.calculate_total Heap.seed_globals 3 "basic"
      (Heap.ListRef 3) (Heap.Tuple []) (Heap.seed_store ["pt"; "pt"])
    = Some (o, h1)
    /\ Heap.calculate_total (Heap.mkGlobals 3 1 2) 3 "basic"
         (Heap.Tuple ["pt"; "pt"]) (Heap.ListRef 0)
         [Heap.ListObj []; Heap.DictObj ADDONS; Heap.DictObj PREMIUM_FEATURES;
          Heap.DictObj PLANS]
       = Some (o, h1')
    /\ Heap.calculate_total Heap.seed_globals 3 "basic"
         (Heap.ListRef 3) (Heap.Tuple []) h1
       = Some (o, h2)
    /\ Heap.seed_store ["pt"; "pt"] `prefix_of` h1
    /\ [Heap.ListObj []; Heap.DictObj ADDONS; Heap.DictObj PREMIUM_FEATURES;
        Heap.DictObj PLANS] `prefix_of` h1'
    /\ h1 `prefix_of` h2
    /\ o = calculate_total 3 "basic" ["pt"; "pt"] [].
Proof.
  apply (calculate_total_deterministic Heap.seed_globals (Heap.mkGlobals 3 1 2)
           (Heap.seed_store ["pt"; "pt"])
           [Heap.ListObj []; Heap.DictObj ADDONS; Heap.DictObj PREMIUM_FEATURES;
            Heap.DictObj PLANS]
           PLANS ADDONS PREMIUM_FEATURES 3 "basic"
           (Heap.ListRef 3) (Heap.Tuple []) (Heap.Tuple ["pt"; "pt"])
           (Heap.ListRef 0) ["pt"; "pt"] []);
    repeat split.
Defined.

(** The store is read by the call: after a write to the list object that
    is passed as the add-on codes, the same call gives another quote. *)
Example quote_follows_the_store :
  let quote (h : list Heap.object) :=
    match Heap.calculate_total Heap.seed_globals 1 "basic"
            (Heap.ListRef 3) (Heap.Tuple []) h with
    | Some (Ok r, _) => Some (total_usd r)
    | _ => None
    end in
  quote (Heap.seed_store ["pt"]) = Some 120
  /\ (exists h',
        Heap.list_append 3 "nutrition" (Heap.seed_store ["pt"]) = Some (Ok tt, h')
        /\ quote h' = Some 140).
Proof. split; [reflexivity|]. eexists. split; reflexivity. Qed.

(** The outcomes of the scenarios, computed on the store. *)
Example store_scenario_unknown_plan :
  fst <$> Heap.calculate_total Heap.seed_globals 0 "gold"
            (Heap.ListRef 3) (Heap.ListRef 3) (Heap.seed_store ["pt"; "x"])
  = Some (calculate_total 0 "gold" ["pt"; "x"] ["pt"; "x"]).
Proof. vm_compute. reflexivity. Qed.


(** * Further properties of the pricing module *)

(** ** The catalog entries that a call reads *)

(** X21. [calculate_total] reads the catalog only at the codes of the call:
    against two catalogs that agree on the plan code and on the add-on and
    premium codes of the call, the outcome is the same, the same result or
    the same error, whatever else the catalogs hold. *)
Theorem calculate_total_reads_named_entries
    plans extras features plans' extras' features' m p a pr :
  plans !! p = plans' !! p ->
  (forall c, In c a -> extras !! c = extras' !! c) ->
  (forall c, In c pr -> features !! c = features' !! c) ->
  Engine.calculate_total plans extras features m p a pr
  = Engine.calculate_total plans' extras' features' m p a pr.
Proof.
  intros Hp Ha Hpr.
  unfold Engine.calculate_total.
  rewrite !validate_selection_rules, !dedupe_idempotent.
  rewrite (registry_errors_ext "plan" plans plans' p Hp).
  rewrite (flat_map_agree (registry_errors "add-on" extras)
             (registry_errors "add-on" extras') (_dedupe_preserve_order a)).
  2:{ intros c Hc. apply (proj1 (dedupe_In _ _)) in Hc. apply registry_errors_ext. auto. }
  rewrite (flat_map_agree (registry_errors "premium feature" features)
             (registry_errors "premium feature" features')
             (_dedupe_preserve_order pr)).
  2:{ intros c Hc. apply (proj1 (dedupe_In _ _)) in Hc. apply registry_errors_ext. auto. }
  unfold getitem. rewrite Hp.
  rewrite (getitems_agree extras extras' (_dedupe_preserve_order a)).
  2:{ intros c Hc. apply (proj1 (dedupe_In _ _)) in Hc. auto. }
  rewrite (getitems_agree features features' (_dedupe_preserve_order pr)).
  2:{ intros c Hc. apply (proj1 (dedupe_In _ _)) in Hc. auto. }
  reflexivity.
Qed.

Lemma calculate_total_reads_named_entries_witness :
  calculate_total 3 "basic" ["pt"] []
  = Engine.calculate_total
      (<["vip" := mkCatalogItem "vip" "VIP" 300 true false]> PLANS)
      ADDONS PREMIUM_FEATURES 3 "basic" ["pt"] [].
Proof.
  apply (calculate_total_reads_named_entries PLANS ADDONS PREMIUM_FEATURES
           (<["vip" := mkCatalogItem "vip" "VIP" 300 true false]> PLANS)
           ADDONS PREMIUM_FEATURES 3 "basic" ["pt"] []);
    reflexivity.
Defined.


(** ** Outcomes over an arbitrary catalog *)

(** X1. Whatever the catalog and the input, [calculate_total] never fails
    with [KeyError]: the subscripts [PLANS[plan_code]], [ADDONS[c]] and
    [PREMIUM_FEATURES[c]] are only reached for codes that validation found
    in the registries. *)
Theorem subscripts_never_raise plans extras features m p a pr k :
  Engine.calculate_total plans extras features m p a pr <> Raise (KeyError k).
Proof. apply calculate_total_no_KeyError. Qed.

(** X2. Whatever the catalog, a returned result has a total of at least 1
    and its total is base - group discount + surcharge - special offer:
    the guard on the final total holds for every catalog, not only for the
    seed prices. *)
Theorem returned_total_positive plans extras features m p a pr r :
  Engine.calculate_total plans extras features m p a pr = Ok r ->
  1 <= total_usd r
  /\ total_usd r
     = base_total_usd r - group_discount_usd r + premium_surcharge_usd r
       - special_offer_discount_usd r
  /\ members r = m /\ 1 <= m.
Proof.
  intros Hr.
  apply calculate_total_ok in Hr
    as (Hv & Hpos & pl & ads & prs & _ & _ & _ & ->).
  apply validate_selection_nil in Hv as (Hm & _).
  cbn in *. repeat split; lia.
Qed.

Lemma returned_total_positive_witness :
  exists r,
    Engine.calculate_total TRIAL_PLANS ADDONS PREMIUM_FEATURES 2 "trial" [] [] = Ok r
    /\ 1 <= total_usd r
    /\ total_usd r
       = base_total_usd r - group_discount_usd r + premium_surcharge_usd r
         - special_offer_discount_usd r
    /\ members r = 2 /\ 1 <= 2.
Proof.
  eexists. split; [reflexivity|].
  eapply (returned_total_positive TRIAL_PLANS ADDONS PREMIUM_FEATURES
            2 "trial" [] []). reflexivity.
Defined.

(** X3. On a selection that passes validation, the configuration error is
    raised exactly when the computed total is not positive; otherwise the
    priced result is returned.  A free plan reaches the error. *)
Theorem config_error_iff_nonpositive plans extras features m p a pr :
  Engine.validate_selection plans extras features m p a pr = [] ->
  exists pl ads prs,
    plans !! p = Some pl
    /\ mapM (fun c => extras !! c) (_dedupe_preserve_order a) = Some ads
    /\ mapM (fun c => features !! c) (_dedupe_preserve_order pr) = Some prs
    /\ (total_usd (priced m pl ads prs) <= 0 ->
        Engine.calculate_total plans extras features m p a pr
        = Raise (ValueError config_error))
    /\ (0 < total_usd (priced m pl ads prs) ->
        Engine.calculate_total plans extras features m p a pr
        = Ok (priced m pl ads prs)).
Proof.
  intros Hv.
  destruct (calculate_total_valid plans extras features m p a pr Hv)
    as (pl & ads & prs & Hpl & Hads & Hprs & ->).
  exists pl, ads, prs. repeat (split; [done|]).
  split; intros Ht; [by rewrite decide_False by lia|by rewrite decide_True by lia].
Qed.

Lemma config_error_iff_nonpositive_witness :
  Engine.validate_selection FREE_PLANS ADDONS PREMIUM_FEATURES 3 "free" [] [] = []
  /\ Engine.calculate_total FREE_PLANS ADDONS PREMIUM_FEATURES 3 "free" [] []
     = Raise (ValueError config_error).
Proof.
  split; [reflexivity|].
  destruct (config_error_iff_nonpositive FREE_PLANS ADDONS PREMIUM_FEATURES
              3 "free" [] [] eq_refl)
    as (pl & ads & prs & Hpl & Hads & Hprs & Hbad & _).
  vm_compute in Hpl, Hads, Hprs.
  injection Hpl as <-. injection Hads as <-. injection Hprs as <-.
  apply Hbad. vm_compute. discriminate.
Defined.

(** X4. A [ValueError] carrying the configuration message is raised only
    for selections that passed validation: the message of an invalid
    selection is never the configuration message, so a caller can tell the
    two kinds of error apart by their text. *)
Theorem config_error_only_when_valid plans extras features m p a pr :
  Engine.calculate_total plans extras features m p a pr
  = Raise (ValueError config_error) ->
  Engine.validate_selection plans extras features m p a pr = [].
Proof.
  intros Hc.
  destruct (Engine.validate_selection plans extras features m p a pr)
    as [|e errs] eqn:Hv; [done|].
  rewrite calculate_total_invalid in Hc by (by rewrite Hv).
  injection Hc as Hc. exfalso. revert Hc.
  apply invalid_selection_not_config. by rewrite Hv.
Qed.

Lemma config_error_only_when_valid_witness :
  Engine.validate_selection FREE_PLANS ADDONS PREMIUM_FEATURES 3 "free" [] [] = [].
Proof.
  apply (config_error_only_when_valid FREE_PLANS ADDONS PREMIUM_FEATURES
           3 "free" [] []).
  reflexivity.
Defined.

(** ** Validation *)

Lemma valid_selection_spec plans extras features m p a pr :
  Engine.validate_selection plans extras features m p a pr = []
  <-> 0 < m
      /\ (exists item, plans !! p = Some item /\ available item = true)
      /\ (forall c, In c a ->
            exists item, extras !! c = Some item /\ available item = true)
      /\ (forall c, In c pr ->
            exists item, features !! c = Some item /\ available item = true).
Proof.
  rewrite validate_selection_nil, registry_errors_nil, !Forall_forall.
  split; intros (Hm & Hp & Ha & Hpr); repeat split; try done.
  - intros c Hc. apply (proj1 (registry_errors_nil "add-on" extras c)).
    apply Ha, (proj2 (dedupe_elem a c)), list_elem_of_In, Hc.
  - intros c Hc. apply (proj1 (registry_errors_nil "premium feature" features c)).
    apply Hpr, (proj2 (dedupe_elem pr c)), list_elem_of_In, Hc.
  - intros c Hc. apply (proj1 (dedupe_elem a c)), list_elem_of_In in Hc.
    by apply (proj2 (registry_errors_nil "add-on" extras c)), Ha.
  - intros c Hc. apply (proj1 (dedupe_elem pr c)), list_elem_of_In in Hc.
    by apply (proj2 (registry_errors_nil "premium feature" features c)), Hpr.
Qed.

(** X5. A selection passes validation exactly when the member count is
    positive, the plan code is in the plan registry and available, and every
    add-on code and every premium code of the input (duplicates included)
    is in its registry and available. *)
Theorem valid_selection_iff plans extras features m p a pr :
  Engine.validate_selection plans extras features m p a pr = []
  <-> 0 < m
      /\ (exists item, plans !! p = Some item /\ available item = true)
      /\ (forall c, In c a ->
            exists item, extras !! c = Some item /\ available item = true)
      /\ (forall c, In c pr ->
            exists item, features !! c = Some item /\ available item = true).
Proof. apply valid_selection_spec. Qed.

Lemma resolved_items (registry : gmap string CatalogItem) codes items :
  mapM (fun c => registry !! c) codes = Some items ->
  Forall2 (fun c item => registry !! c = Some item) codes items.
Proof. apply mapM_Some. Qed.

(** X6. Whatever the catalog, a returned result only holds catalog entries
    that are available: the plan is the entry of the plan code, the add-ons
    and premium features are the entries of the de-duplicated codes, in
    that order, one per distinct code, and none of them is unavailable. *)
Theorem result_items_available plans extras features m p a pr r :
  Engine.calculate_total plans extras features m p a pr = Ok r ->
  plans !! p = Some (plan r) /\ available (plan r) = true
  /\ Forall2 (fun c item => extras !! c = Some item /\ available item = true)
       (first_occurrences a) (addons r)
  /\ Forall2 (fun c item => features !! c = Some item /\ available item = true)
       (first_occurrences pr) (premium_features r).
Proof.
  intros Hr.
  apply calculate_total_ok in Hr
    as (Hv & _ & pl & ads & prs & Hpl & Hads & Hprs & ->).
  apply validate_selection_nil in Hv as (_ & Hp & Ha & Hpr).
  apply registry_errors_nil in Hp as (pl' & Hpl' & Hav).
  rewrite Hpl in Hpl'. injection Hpl' as <-.
  rewrite <- !dedupe_first_occurrences. cbn. repeat split; try done.
  - apply resolved_items in Hads.
    induction Hads as [|c item codes items Hc _ IH]; constructor.
    + apply Forall_cons in Ha as [(item' & Hl & Hav')%registry_errors_nil _].
      rewrite Hc in Hl. by injection Hl as <-.
    + apply IH. by apply Forall_cons in Ha as [_ Ha].
  - apply resolved_items in Hprs.
    induction Hprs as [|c item codes items Hc _ IH]; constructor.
    + apply Forall_cons in Hpr as [(item' & Hl & Hav')%registry_errors_nil _].
      rewrite Hc in Hl. by injection Hl as <-.
    + apply IH. by apply Forall_cons in Hpr as [_ Hpr].
Qed.

Lemma result_items_available_witness :
  exists r,
    calculate_total 1 "basic" ["pt"; "nutrition"; "pt"] ["exclusive"] = Ok r
    /\ map code (addons r) = ["pt"; "nutrition"]
    /\ map code (premium_features r) = ["exclusive"]
    /\ Forall2 (fun c item => ADDONS !! c = Some item /\ available item = true)
         (first_occurrences ["pt"; "nutrition"; "pt"]) (addons r).
Proof.
  eexists. split; [reflexivity|]. split; [reflexivity|]. split; [reflexivity|].
  eapply (result_items_available PLANS ADDONS PREMIUM_FEATURES
            1 "basic" ["pt"; "nutrition"; "pt"] ["exclusive"]).
  reflexivity.
Defined.

(** A withdrawn add-on is refused by name, not priced. *)
Example withdrawn_addon_refused :
  Engine.calculate_total PLANS WITHDRAWN_ADDONS PREMIUM_FEATURES
    1 "basic" ["sauna"; "yoga"] []
  = Raise (ValueError
      "add-on 'sauna' is not available.; unknown add-on: 'yoga'.").
Proof. reflexivity. Qed.

(** ** De-duplication *)

Lemma dedupe_from_sublist values : forall seen,
  dedupe_from seen values `sublist_of` values.
Proof.
  induction values as [|v values IH]; intros seen; simpl; [done|].
  case_decide; [apply sublist_cons, IH|apply sublist_skip, IH].
Qed.

(** X7. [_dedupe_preserve_order] keeps exactly the values of its input, in
    the input's order (its output is a subsequence of the input without
    repetition); it is idempotent and leaves a list without repetition
    unchanged. *)
Theorem dedupe_preserves_values values :
  (forall x, In x (_dedupe_preserve_order values) <-> In x values)
  /\ NoDup (_dedupe_preserve_order values)
  /\ _dedupe_preserve_order values `sublist_of` values
  /\ (length (_dedupe_preserve_order values) <= length values)%nat
  /\ _dedupe_preserve_order (_dedupe_preserve_order values)
     = _dedupe_preserve_order values
  /\ (NoDup values <-> _dedupe_preserve_order values = values).
Proof.
  assert (Hsub : _dedupe_preserve_order values `sublist_of` values)
    by (rewrite dedupe_unfold; apply dedupe_from_sublist).
  split; [apply dedupe_In|]. split; [apply dedupe_NoDup|].
  split; [done|]. split; [by apply sublist_length|].
  split; [apply dedupe_idempotent|]. split.
  - intros Hnd. rewrite dedupe_unfold.
    apply dedupe_from_fixed; [done|]. intros x _. apply not_elem_of_empty.
  - intros <-. apply dedupe_NoDup.
Qed.

(** ** Order of the codes *)

Lemma dedupe_Permutation (l l' : list string) :
  l ≡ₚ l' -> _dedupe_preserve_order l ≡ₚ _dedupe_preserve_order l'.
Proof.
  intros Hp. apply NoDup_Permutation; try apply dedupe_NoDup.
  intros x. rewrite !dedupe_elem. by rewrite Hp.
Qed.

Lemma resolved_omap (registry : gmap string CatalogItem) codes items :
  mapM (fun c => registry !! c) codes = Some items ->
  items = omap (fun c => registry !! c) codes.
Proof.
  intros Hm%mapM_Some.
  induction Hm as [|c item codes items Hc _ IH]; [done|].
  cbn. rewrite Hc. by f_equal.
Qed.

Lemma total_price_Permutation (items items' : list CatalogItem) :
  items ≡ₚ items' -> total_price items = total_price items'.
Proof.
  induction 1 as [|x l l' _ IH|x y l|l l' l'' _ IH1 _ IH2]; simpl; lia.
Qed.

(** X8. The outcome does not depend on the order in which add-on and
    premium codes are given: for permuted code sequences both calls fail,
    or both return, with the same plan, the same five amounts, the same
    notes and the same items up to order. *)
Theorem code_order_irrelevant plans extras features m p a a' pr pr' :
  a ≡ₚ a' -> pr ≡ₚ pr' ->
  (exists r r',
     Engine.calculate_total plans extras features m p a pr = Ok r
     /\ Engine.calculate_total plans extras features m p a' pr' = Ok r'
     /\ plan r = plan r'
     /\ addons r ≡ₚ addons r'
     /\ premium_features r ≡ₚ premium_features r'
     /\ base_total_usd r = base_total_usd r'
     /\ group_discount_usd r = group_discount_usd r'
     /\ premium_surcharge_usd r = premium_surcharge_usd r'
     /\ special_offer_discount_usd r = special_offer_discount_usd r'
     /\ total_usd r = total_usd r'
     /\ messages r = messages r')
  \/ (exists e e',
        Engine.calculate_total plans extras features m p a pr = Raise e
        /\ Engine.calculate_total plans extras features m p a' pr' = Raise e').
Proof.
  intros Ha Hpr.
  assert (Hvalid :
    Engine.validate_selection plans extras features m p a pr = []
    <-> Engine.validate_selection plans extras features m p a' pr' = []).
  { rewrite !valid_selection_spec.
    assert (Hina : forall c, In c a <-> In c a')
      by (intros c; rewrite <- !list_elem_of_In; by rewrite Ha).
    assert (Hinp : forall c, In c pr <-> In c pr')
      by (intros c; rewrite <- !list_elem_of_In; by rewrite Hpr).
    split; intros (Hm & Hp & H1 & H2); repeat split; try done;
      intros c Hc; (apply H1, Hina, Hc || apply H2, Hinp, Hc). }
  destruct (Engine.validate_selection plans extras features m p a pr)
    as [|e errs] eqn:Hv.
  - pose proof (proj1 Hvalid eq_refl) as Hv'.
    destruct (calculate_total_valid plans extras features m p a pr Hv)
      as (pl & ads & prs & Hpl & Hads & Hprs & Hc).
    destruct (calculate_total_valid plans extras features m p a' pr' Hv')
      as (pl' & ads' & prs' & Hpl' & Hads' & Hprs' & Hc').
    rewrite Hpl in Hpl'. injection Hpl' as <-.
    assert (Hpa : ads ≡ₚ ads').
    { rewrite (resolved_omap _ _ _ Hads), (resolved_omap _ _ _ Hads').
      by rewrite (dedupe_Permutation a a' Ha). }
    assert (Hpp : prs ≡ₚ prs').
    { rewrite (resolved_omap _ _ _ Hprs), (resolved_omap _ _ _ Hprs').
      by rewrite (dedupe_Permutation pr pr' Hpr). }
    assert (Hta := total_price_Permutation _ _ Hpa).
    assert (Htp := total_price_Permutation _ _ Hpp).
    assert (Heq : priced m pl ads' prs'
                  = {| members := m; plan := pl; addons := ads';
                       premium_features := prs';
                       base_total_usd := base_total_usd (priced m pl ads prs);
                       group_discount_usd := group_discount_usd (priced m pl ads prs);
                       premium_surcharge_usd :=
                         premium_surcharge_usd (priced m pl ads prs);
                       special_offer_discount_usd :=
                         special_offer_discount_usd (priced m pl ads prs);
                       total_usd := total_usd (priced m pl ads prs);
                       messages := messages (priced m pl ads prs) |}).
    { unfold priced. cbn. rewrite <- Hta, <- Htp.
      destruct prs as [|x prs], prs' as [|x' prs']; try done.
      - by apply Permutation_nil_l in Hpp.
      - by apply Permutation_nil_r in Hpp. }
    assert (Ht : total_usd (priced m pl ads' prs')
                 = total_usd (priced m pl ads prs)) by (by rewrite Heq).
    rewrite Ht in Hc'. rewrite Hc, Hc'.
    destruct (decide (0 < total_usd (priced m pl ads prs))); [left|right].
    + eexists _, _. split; [reflexivity|]. split; [reflexivity|].
      rewrite Heq. cbn. by repeat split.
    + by eexists _, _.
  - right. destruct (Engine.validate_selection plans extras features m p a' pr')
      as [|e' errs'] eqn:Hv'; [by pose proof (proj2 Hvalid eq_refl)|].
    rewrite !calculate_total_invalid by (rewrite ?Hv, ?Hv'; done).
    by eexists _, _.
Qed.

Lemma code_order_irrelevant_witness :
  exists r r',
    calculate_total 2 "family" ["pt"; "classes"] ["specialized"; "exclusive"] = Ok r
    /\ calculate_total 2 "family" ["classes"; "pt"] ["exclusive"; "specialized"]
       = Ok r'
    /\ total_usd r = total_usd r'
    /\ messages r = messages r'.
Proof.
  destruct (code_order_irrelevant PLANS ADDONS PREMIUM_FEATURES 2 "family"
              ["pt"; "classes"] ["classes"; "pt"]
              ["specialized"; "exclusive"] ["exclusive"; "specialized"])
    as [(r & r' & Hr & Hr' & _ & _ & _ & _ & _ & _ & _ & Ht & Hm)
       |(e & e' & He & _)].
  - apply perm_swap.
  - apply perm_swap.
  - by exists r, r'.
  - vm_compute in He. discriminate He.
Defined.

(** ** Bounds on the seed prices *)

Lemma priced_range m pl ads prs :
  1 <= m -> 60 <= price_usd pl -> 0 <= total_price ads -> 0 <= total_price prs ->
  let r := priced m pl ads prs in
  60 <= total_usd r
  /\ 10 * group_discount_usd r <= base_total_usd r
  /\ 100 * premium_surcharge_usd r
     <= 15 * (base_total_usd r - group_discount_usd r)
  /\ special_offer_discount_usd r <= 50
  /\ 100 * total_usd r <= 115 * base_total_usd r
  /\ 9 * base_total_usd r - 500 <= 10 * total_usd r.
Proof.
  intros Hm Hpl Hads Hprs. unfold priced. cbn.
  set (per := price_usd pl + total_price ads + total_price prs).
  assert (Hper : 60 <= per) by (unfold per; lia).
  assert (Hbase : 60 * m <= m * per) by nia.
  set (base := m * per) in *. clearbody base. clear per Hper.
  pose proof (group_discount_floor m base) as Hgd.
  set (gd := group_discount_of m base) in *. clearbody gd.
  pose proof (premium_surcharge_floor prs (base - gd)) as Hps.
  set (ps := premium_surcharge_of prs (base - gd)) in *. clearbody ps.
  pose proof (special_offer_step_cases (base - gd + ps)) as Hso.
  set (so := special_offer_step (base - gd + ps)) in *. clearbody so.
  case_decide; destruct prs; lia.
Qed.

Lemma seed_result_range m p a pr r :
  calculate_total m p a pr = Ok r ->
  60 <= total_usd r
  /\ 10 * group_discount_usd r <= base_total_usd r
  /\ 100 * premium_surcharge_usd r
     <= 15 * (base_total_usd r - group_discount_usd r)
  /\ special_offer_discount_usd r <= 50
  /\ 100 * total_usd r <= 115 * base_total_usd r
  /\ 9 * base_total_usd r - 500 <= 10 * total_usd r.
Proof.
  intros Hr.
  destruct (calculate_total_ok _ _ _ _ _ _ _ _ Hr) as (Hv & _).
  destruct (seed_calculate_total m p a pr Hv)
    as (pl & ads & prs & _ & _ & _ & Hc & Hm & Hpl & Ha & Hp).
  rewrite Hc in Hr. injection Hr as <-.
  apply priced_range; done.
Qed.

(** X9. With the seed catalog every returned total is at least 60, the
    price of the cheapest plan; the group discount is at most a tenth of
    the base total, the surcharge at most 15 percent of the discounted
    total, and the final total lies between 90 percent of the base total
    minus 50 and 115 percent of the base total. *)
Theorem seed_price_range m p a pr r :
  calculate_total m p a pr = Ok r ->
  60 <= total_usd r
  /\ 10 * group_discount_usd r <= base_total_usd r
  /\ 100 * premium_surcharge_usd r
     <= 15 * (base_total_usd r - group_discount_usd r)
  /\ special_offer_discount_usd r <= 50
  /\ 100 * total_usd r <= 115 * base_total_usd r
  /\ 9 * base_total_usd r - 500 <= 10 * total_usd r.
Proof. apply seed_result_range. Qed.

Lemma seed_price_range_witness :
  exists r,
    calculate_total 1 "basic" [] [] = Ok r
    /\ 60 <= total_usd r /\ total_usd r = 60.
Proof.
  eexists. split; [reflexivity|].
  split; [|reflexivity].
  eapply (seed_price_range 1 "basic" [] []). reflexivity.
Defined.

(** X10. With the seed catalog, one more member on the same valid selection
    always costs strictly more: the group discount and the special offer
    never make the larger group cheaper. *)
Theorem more_members_cost_more m p a pr :
  validate_selection m p a pr = [] ->
  exists r r',
    calculate_total m p a pr = Ok r
    /\ calculate_total (m + 1) p a pr = Ok r'
    /\ total_usd r < total_usd r'.
Proof.
  intros Hv.
  assert (Hv' : validate_selection (m + 1) p a pr = []).
  { unfold validate_selection in *.
    apply valid_selection_spec in Hv as (Hm & Hrest).
    apply valid_selection_spec. split; [lia|done]. }
  destruct (seed_calculate_total m p a pr Hv)
    as (pl & ads & prs & Hpl & Hads & Hprs & Hc & Hm & Hpl60 & Ha & Hp).
  destruct (seed_calculate_total (m + 1) p a pr Hv')
    as (pl' & ads' & prs' & Hpl' & Hads' & Hprs' & Hc' & _).
  rewrite Hpl in Hpl'. injection Hpl' as <-.
  rewrite Hads in Hads'. injection Hads' as <-.
  rewrite Hprs in Hprs'. injection Hprs' as <-.
  exists (priced m pl ads prs), (priced (m + 1) pl ads prs).
  split; [done|]. split; [done|].
  unfold priced. cbn.
  set (per := price_usd pl + total_price ads + total_price prs).
  assert (Hper : 60 <= per) by (unfold per; lia).
  replace ((m + 1) * per) with (m * per + per) by lia.
  assert (Hbase : 60 * m <= m * per) by nia.
  assert (Hone : m = 1 -> m * per = per) by (intros ->; lia).
  set (base := m * per) in *. clearbody base. clearbody per.
  pose proof (group_discount_floor m base) as Hgd.
  set (gd := group_discount_of m base) in *. clearbody gd.
  pose proof (group_discount_floor (m + 1) (base + per)) as Hgd'.
  set (gd' := group_discount_of (m + 1) (base + per)) in *. clearbody gd'.
  pose proof (premium_surcharge_floor prs (base - gd)) as Hps.
  set (ps := premium_surcharge_of prs (base - gd)) in *. clearbody ps.
  pose proof (premium_surcharge_floor prs (base + per - gd')) as Hps'.
  set (ps' := premium_surcharge_of prs (base + per - gd')) in *. clearbody ps'.
  pose proof (special_offer_step_cases (base - gd + ps)) as Hso.
  set (so := special_offer_step (base - gd + ps)) in *. clearbody so.
  pose proof (special_offer_step_cases (base + per - gd' + ps')) as Hso'.
  set (so' := special_offer_step (base + per - gd' + ps')) in *. clearbody so'.
  rewrite decide_True in Hgd' by lia.
  destruct (decide (m = 1)) as [->|Hne].
  - rewrite decide_False in Hgd by lia. specialize (Hone eq_refl).
    destruct prs; lia.
  - rewrite decide_True in Hgd by lia. clear Hone.
    destruct prs; lia.
Qed.

Lemma more_members_cost_more_witness :
  validate_selection 3 "basic" ["pt"] [] = []
  /\ exists r r',
      calculate_total 3 "basic" ["pt"] [] = Ok r
      /\ calculate_total (3 + 1) "basic" ["pt"] [] = Ok r'
      /\ total_usd r < total_usd r'.
Proof.
  split; [reflexivity|].
  apply (more_members_cost_more 3 "basic" ["pt"] []). reflexivity.
Defined.

(** The total is not monotone in the add-ons: one more add-on can lower
    it, when it lifts the total after surcharge over the 400 threshold. *)
Example addon_can_lower_total :
  exists r r',
    calculate_total 1 "family" ["classes"; "pt"] ["exclusive"] = Ok r
    /\ calculate_total 1 "family" ["classes"; "pt"; "nutrition"] ["exclusive"]
       = Ok r'
    /\ total_usd r = 371 /\ total_usd r' = 364.
Proof. eexists _, _. by repeat split. Qed.

(** * Properties of the front end *)

(** ** Strings *)

Lemma contains_char_app c (s t : string) :
  contains_char c (s +:+ t) = contains_char c s || contains_char c t.
Proof.
  induction s as [|x s IH]; [done|].
  rewrite append_cons. simpl. rewrite IH. by rewrite orb_assoc.
Qed.

Lemma lstrip_length s : (String.length (lstrip s) <= String.length s)%nat.
Proof.
  induction s as [|c s IH]; simpl; [lia|]. destruct (is_space c); simpl; lia.
Qed.

Lemma rstrip_length s : (String.length (rstrip s) <= String.length s)%nat.
Proof.
  induction s as [|c s IH]; simpl; [lia|].
  destruct (rstrip s) as [|c' r]; [destruct (is_space c)|]; simpl in *; lia.
Qed.

Lemma lstrip_fixed s :
  lstrip s = s <-> match s with String c _ => is_space c = false | _ => True end.
Proof.
  destruct s as [|c s]; simpl; [done|].
  destruct (is_space c) eqn:Hc; [|done]. split; [|done].
  intros Heq. pose proof (lstrip_length s) as Hl. rewrite Heq in Hl.
  simpl in Hl. lia.
Qed.

Lemma rstrip_nil s : rstrip s = "" <-> lstrip s = "".
Proof.
  induction s as [|c s IH]; simpl; [done|].
  destruct (rstrip s) as [|c' r].
  - destruct (is_space c); [by rewrite <- IH|]. done.
  - destruct (is_space c); [|done]. rewrite <- IH. done.
Qed.

Lemma rstrip_idempotent s : rstrip (rstrip s) = rstrip s.
Proof.
  induction s as [|c s IH]; simpl; [done|].
  destruct (rstrip s) as [|c' r] eqn:Hr.
  - destruct (is_space c) eqn:Hc; simpl; [done|]. by rewrite Hc.
  - simpl. simpl in IH. destruct (rstrip r) as [|c'' r'] eqn:Hr'.
    + destruct (is_space c'); [done|]. by injection IH as <-.
    + by rewrite IH.
Qed.

Lemma rstrip_first s c r :
  rstrip s = String c r -> exists r', s = String c r'.
Proof.
  destruct s as [|c0 s]; simpl; [done|].
  destruct (rstrip s); [destruct (is_space c0)|]; intros [= <- _]; by eexists.
Qed.

(** A stripped text is empty or has no white space at either end. *)
Lemma strip_trimmed s : lstrip (strip s) = strip s /\ rstrip (strip s) = strip s.
Proof.
  unfold strip. split; [|apply rstrip_idempotent].
  apply lstrip_fixed. destruct (rstrip (lstrip s)) as [|c r] eqn:Hr; [done|].
  apply rstrip_first in Hr as (r' & Hr).
  assert (Hl : lstrip (lstrip s) = lstrip s).
  { clear. induction s as [|c s IH]; simpl; [done|].
    destruct (is_space c) eqn:Hc; [done|]. simpl. by rewrite Hc. }
  rewrite Hr in Hl. by apply lstrip_fixed in Hl.
Qed.

Lemma strip_idempotent s : strip (strip s) = strip s.
Proof.
  destruct (strip_trimmed s) as [Hl Hr]. unfold strip at 1. by rewrite Hl, Hr.
Qed.

Lemma strip_fixed s : strip s = s <-> lstrip s = s /\ rstrip s = s.
Proof.
  split.
  - intros <-. apply strip_trimmed.
  - intros [Hl Hr]. unfold strip. by rewrite Hl, Hr.
Qed.

Lemma lstrip_absent c s :
  contains_char c s = false -> contains_char c (lstrip s) = false.
Proof.
  induction s as [|x s IH]; simpl; [done|].
  intros [Hx Hs]%orb_false_iff. destruct (is_space x); [auto|].
  simpl. by rewrite Hx, Hs.
Qed.

Lemma rstrip_absent c s :
  contains_char c s = false -> contains_char c (rstrip s) = false.
Proof.
  induction s as [|x s IH]; simpl; [done|].
  intros [Hx Hs]%orb_false_iff. specialize (IH Hs).
  destruct (rstrip s) as [|c' r]; [destruct (is_space x)|]; simpl in *;
    rewrite ?Hx; done.
Qed.

Lemma strip_absent c s :
  contains_char c s = false -> contains_char c (strip s) = false.
Proof. intros H. by apply rstrip_absent, lstrip_absent. Qed.

Lemma replace_absent (old new : ascii) s :
  old <> new -> contains_char old (replace old new s) = false.
Proof.
  intros Hne. induction s as [|c s IH]; simpl; [done|]. rewrite IH.
  destruct (Ascii.eqb_spec c old) as [->|Hc].
  - by rewrite (proj2 (Ascii.eqb_neq new old)).
  - by rewrite (proj2 (Ascii.eqb_neq c old)).
Qed.

Lemma split_absent sep c s :
  contains_char c s = false ->
  Forall (fun part => contains_char c part = false) (split sep s).
Proof.
  induction s as [|x s IH]; simpl; [by repeat constructor|].
  intros [Hx Hs]%orb_false_iff. specialize (IH Hs).
  destruct (Ascii.eqb x sep); [by constructor|].
  destruct (split sep s) as [|part parts]; [by repeat constructor; simpl; rewrite Hx|].
  apply Forall_cons in IH as [Hp Hps]. constructor; [|done].
  simpl. by rewrite Hx, Hp.
Qed.

Lemma split_no_sep sep s :
  Forall (fun part => contains_char sep part = false) (split sep s).
Proof.
  induction s as [|x s IH]; simpl; [by repeat constructor|].
  destruct (Ascii.eqb x sep) eqn:Hx; [by constructor|].
  destruct (split sep s) as [|part parts]; [by repeat constructor; simpl; rewrite Hx|].
  apply Forall_cons in IH as [Hp Hps]. constructor; [|done].
  simpl. by rewrite Hx, Hp.
Qed.

(** ** Reading codes *)

(** X11. Every code that [_read_codes] returns is clean: it is not empty,
    holds no comma and no space, and has no white space at its ends.  The
    call reads exactly one line and shows its prompt once. *)
Theorem read_codes_clean prompt c codes c' :
  Cli._read_codes prompt c = (Done codes, c') ->
  Forall clean_code codes
  /\ exists line, pending c = Line line :: pending c'
                  /\ trace c' = trace c ++ [Asked prompt].
Proof.
  unfold Cli._read_codes, io_bind, input.
  destruct (pending c) as [|[line|] rest] eqn:Hp; [done| |done].
  repeat case_decide; try done.
  - intros [= <- <-]. split; [constructor|]. by exists line.
  - intros [= <- <-]. split; [|by exists line].
    set (raw := strip line).
    pose proof (split_absent "," " " _ (replace_absent " " "," raw ltac:(done)))
      as Hspace.
    pose proof (split_no_sep "," (replace " " "," raw)) as Hcomma.
    revert Hspace Hcomma.
    generalize (split "," (replace " " "," raw)). intros parts.
    induction parts as [|part parts IH]; intros Hs Hc; [constructor|].
    apply Forall_cons in Hs as [Hs1 Hs]. apply Forall_cons in Hc as [Hc1 Hc].
    cbn [map]. rewrite filter_cons. case_decide as Hne; [|by apply IH].
    constructor; [|by apply IH].
    repeat split; [done|by apply strip_absent..|apply strip_idempotent].
Qed.

Lemma read_codes_clean_witness :
  exists codes c',
    Cli._read_codes "codes: " (mkConsole [Line " pt, classes  nutrition,,"] [])
    = (Done codes, c')
    /\ codes = ["pt"; "classes"; "nutrition"]
    /\ Forall clean_code codes.
Proof.
  eexists _, _. split; [reflexivity|]. split; [reflexivity|].
  eapply (read_codes_clean "codes: "
            (mkConsole [Line " pt, classes  nutrition,,"] [])).
  reflexivity.
Defined.

Lemma lstrip_app (a b : string) :
  a <> "" -> lstrip a = a -> lstrip (a +:+ b) = a +:+ b.
Proof.
  destruct a as [|c a]; [done|]. intros _ Hl%lstrip_fixed.
  rewrite append_cons. simpl. by rewrite Hl.
Qed.

Lemma rstrip_app (a b : string) :
  b <> "" -> rstrip b = b -> rstrip (a +:+ b) = a +:+ b.
Proof.
  intros Hb Hr. induction a as [|c a IH]; [done|].
  rewrite append_cons. simpl. rewrite IH.
  destruct (a +:+ b) as [|c' r] eqn:Hab; [|done].
  destruct a; [done|]. by rewrite append_cons in Hab.
Qed.

Lemma join_nonempty sep c codes : c <> "" -> join sep (c :: codes) <> "".
Proof. rewrite join_cons. by destruct c. Qed.

Lemma join_strip sep codes :
  codes <> [] -> Forall clean_code codes ->
  strip (join sep codes) = join sep codes.
Proof.
  intros Hne Hall. apply strip_fixed. split.
  - destruct codes as [|c codes]; [done|].
    apply Forall_cons in Hall as [(Hc & _ & _ & [Hl _]%strip_fixed) _].
    rewrite join_cons. by apply lstrip_app.
  - clear Hne. induction Hall as [|c codes (Hc & _ & _ & [_ Hr]%strip_fixed) Hall IH];
      [done|].
    rewrite join_cons. destruct codes as [|c' codes]; [by rewrite append_nil_r|].
    rewrite <- append_assoc. apply rstrip_app; [|done].
    apply join_nonempty. by apply Forall_cons in Hall as [(? & _) _].
Qed.

Lemma replace_app old new (s t : string) :
  replace old new (s +:+ t) = replace old new s +:+ replace old new t.
Proof.
  induction s as [|c s IH]; [done|]. rewrite append_cons. simpl.
  by rewrite IH, append_cons.
Qed.

Lemma replace_id old new s :
  contains_char old s = false -> replace old new s = s.
Proof.
  induction s as [|c s IH]; simpl; [done|].
  intros [-> Hs]%orb_false_iff. by rewrite IH.
Qed.

(** Joining clean codes with spaces and turning the spaces into commas is
    joining them with commas. *)
Lemma replace_join sep codes :
  sep = "," \/ sep = " " -> Forall clean_code codes ->
  replace " " "," (join sep codes) = join "," codes.
Proof.
  intros Hsep. induction 1 as [|c codes (_ & _ & Hs & _) _ IH]; [done|].
  rewrite !join_cons, replace_app, (replace_id _ _ c Hs).
  destruct codes as [|c' codes]; [done|].
  rewrite replace_app, IH. by destruct Hsep as [-> | ->].
Qed.

Lemma split_single sep s :
  contains_char sep s = false -> split sep s = [s].
Proof.
  induction s as [|c s IH]; simpl; [done|].
  intros [-> Hs]%orb_false_iff. by rewrite IH.
Qed.

Lemma split_app sep s t :
  contains_char sep s = false ->
  split sep (s +:+ String sep t) = s :: split sep t.
Proof.
  induction s as [|c s IH].
  - intros _. change ("" +:+ String sep t) with (String sep t). simpl.
    by rewrite Ascii.eqb_refl.
  - simpl. intros [Hc Hs]%orb_false_iff. rewrite ?append_cons. simpl.
    by rewrite Hc, IH.
Qed.

Lemma split_join codes :
  codes <> [] -> Forall clean_code codes -> split "," (join "," codes) = codes.
Proof.
  intros Hne. induction 1 as [|c codes (_ & Hc & _) Hall IH]; [done|].
  rewrite join_cons. destruct codes as [|c' codes].
  - rewrite append_nil_r. by apply split_single.
  - change ("," +:+ join "," (c' :: codes))
      with (String "," (join "," (c' :: codes))).
    rewrite split_app by done. f_equal. by apply IH.
Qed.

Lemma lower_char_comma x : Ascii.eqb (lower_char x) "," = Ascii.eqb x ",".
Proof. destruct x as [[] [] [] [] [] [] [] []]; reflexivity. Qed.

Lemma lower_char_blank x : Ascii.eqb (lower_char x) " " = Ascii.eqb x " ".
Proof. destruct x as [[] [] [] [] [] [] [] []]; reflexivity. Qed.

Lemma lower_contains_comma s : contains_char "," (lower s) = contains_char "," s.
Proof.
  induction s as [|c s IH]; simpl; [done|]. by rewrite IH, lower_char_comma.
Qed.

Lemma lower_contains_blank s : contains_char " " (lower s) = contains_char " " s.
Proof.
  induction s as [|c s IH]; simpl; [done|]. by rewrite IH, lower_char_blank.
Qed.

Lemma reserved_no_separator w :
  w ∈ reserved_words ->
  contains_char "," w = false /\ contains_char " " w = false.
Proof.
  unfold reserved_words, none_words, quit_words. simpl.
  rewrite !elem_of_cons, elem_of_nil.
  intros [->|[->|[->|[->|[->|[->|[]]]]]]]; by split.
Qed.

Lemma join_not_reserved sep codes :
  sep = "," \/ sep = " " -> codes <> [] ->
  Forall (fun c => lower c ∉ reserved_words) codes ->
  lower (join sep codes) ∉ reserved_words.
Proof.
  intros Hsep Hne Hall Hin.
  destruct codes as [|c [|c' codes]]; [done| |].
  - apply Forall_cons in Hall as [Hc _]. apply Hc.
    by rewrite join_cons, append_nil_r in Hin.
  - apply reserved_no_separator in Hin as [Hcomma Hblank].
    rewrite lower_contains_comma in Hcomma.
    rewrite lower_contains_blank in Hblank.
    rewrite join_cons, contains_char_app in Hcomma, Hblank.
    apply orb_false_iff in Hcomma as [_ Hcomma].
    apply orb_false_iff in Hblank as [_ Hblank].
    rewrite contains_char_app in Hcomma, Hblank.
    destruct Hsep as [-> | ->]; [by rewrite orb_true_l in Hcomma
                                |by rewrite orb_true_l in Hblank].
Qed.

(** X12. Reading back a written list: for a non-empty list of clean codes,
    none of them a reserved word, [_read_codes] on the codes joined by
    commas, or by spaces, returns exactly that list. *)
Theorem read_codes_round_trip prompt sep codes rest shown :
  sep = "," \/ sep = " " ->
  codes <> [] ->
  Forall clean_code codes ->
  Forall (fun c => lower c ∉ reserved_words) codes ->
  Cli._read_codes prompt (mkConsole (Line (join sep codes) :: rest) shown)
  = (Done codes, mkConsole rest (shown ++ [Asked prompt])).
Proof.
  intros Hsep Hne Hclean Hres.
  unfold Cli._read_codes, io_bind, input. cbn [pending trace].
  rewrite (join_strip sep codes Hne Hclean).
  pose proof (join_not_reserved sep codes Hsep Hne Hres) as Hnot.
  unfold reserved_words in Hnot. rewrite elem_of_app in Hnot.
  rewrite decide_False by tauto. rewrite decide_False by tauto.
  rewrite (replace_join sep codes Hsep Hclean), (split_join codes Hne Hclean).
  unfold io_ret. do 2 f_equal.
  clear Hne Hres Hnot.
  induction Hclean as [|c codes (Hc & _ & _ & Hs) _ IH]; [done|].
  cbn [map]. rewrite filter_cons, Hs, decide_True by done. by f_equal.
Qed.

Lemma read_codes_round_trip_witness :
  Cli._read_codes "codes: "
    (mkConsole [Line (join " " ["nutrition"; "pt"]); Line "y"] [])
  = (Done ["nutrition"; "pt"], mkConsole [Line "y"] ([] ++ [Asked "codes: "])).
Proof.
  apply (read_codes_round_trip "codes: " " " ["nutrition"; "pt"] [Line "y"] []).
  - by right.
  - done.
  - repeat constructor; done.
  - repeat constructor; vm_compute; intros H; by repeat
      (apply elem_of_cons in H as [H|H]; [discriminate H|]); inversion H.
Defined.

(** ** Reading an integer *)

Lemma int_digits_numeral d : forall after_digit acc count,
  d <> Decimal.Nil \/ after_digit = true ->
  int_digits (NilEmpty.string_of_uint d) after_digit acc count
  = Some (uint_value d acc,
          (count + String.length (NilEmpty.string_of_uint d))%nat).
Proof.
  induction d; intros after_digit acc count Hd.
  { destruct Hd as [Hd| ->]; [done|]. cbn. do 2 f_equal. lia. }
  all: cbn; match goal with |- context [digit_value ?c] =>
         let v := eval vm_compute in (digit_value c) in
         change (digit_value c) with v end;
       cbv beta iota; rewrite IHd by (by right); do 2 f_equal; lia.
Qed.

Lemma of_uint_acc_value d : forall acc,
  Z.pos (Pos.of_uint_acc d acc) = uint_value d (Z.pos acc).
Proof.
  induction d; intros acc; cbn [Pos.of_uint_acc uint_value];
    rewrite ?IHd; try done; f_equal; lia.
Qed.

Lemma of_uint_value d : Z.of_N (Pos.of_uint d) = uint_value d 0.
Proof.
  induction d; cbn [Pos.of_uint uint_value]; try done;
    cbn [Z.of_N]; by rewrite of_uint_acc_value.
Qed.

Lemma numeral_chars d :
  string_forall is_numeral_char (NilEmpty.string_of_uint d) = true.
Proof. induction d; cbn; by rewrite ?IHd. Qed.

Lemma str_int_chars n : string_forall is_numeral_char (str_int n) = true.
Proof.
  unfold str_int. destruct n as [|p|p]; cbn; [done| |].
  - destruct (Pos.to_uint p) eqn:Hp; try apply numeral_chars.
    by apply Unsigned.to_uint_nonnil in Hp.
  - destruct (Pos.to_uint p) eqn:Hp; try apply numeral_chars.
    by apply Unsigned.to_uint_nonnil in Hp.
Qed.

Lemma string_forall_impl (P Q : ascii -> bool) s :
  (forall c, P c = true -> Q c = true) ->
  string_forall P s = true -> string_forall Q s = true.
Proof.
  intros HPQ. induction s as [|c s IH]; simpl; [done|].
  intros [Hc Hs]%andb_true_iff. by rewrite (HPQ c Hc), IH.
Qed.

Lemma numeral_char_facts c :
  is_numeral_char c = true ->
  is_space c = false /\ is_int_space c = false /\ lower_char c = c
  /\ c <> "q"%char /\ c <> "e"%char /\ c <> "+"%char.
Proof. destruct c as [[] [] [] [] [] [] [] []]; by vm_compute. Qed.

Lemma lstrip_numeral s : string_forall is_numeral_char s = true -> lstrip s = s.
Proof.
  intros Hs. apply lstrip_fixed. destruct s as [|c s]; [done|].
  apply andb_true_iff in Hs as [Hc _]. by apply numeral_char_facts in Hc as (? & _).
Qed.

Lemma rstrip_numeral s : string_forall is_numeral_char s = true -> rstrip s = s.
Proof.
  induction s as [|c s IH]; simpl; [done|].
  intros [Hc Hs]%andb_true_iff. rewrite (IH Hs).
  apply numeral_char_facts in Hc as (-> & _). by destruct s.
Qed.

Lemma int_lstrip_numeral s :
  string_forall is_numeral_char s = true -> int_lstrip s = s.
Proof.
  destruct s as [|c s]; simpl; [done|].
  intros [Hc _]%andb_true_iff. by apply numeral_char_facts in Hc as (_ & -> & _).
Qed.

Lemma int_rstrip_numeral s :
  string_forall is_numeral_char s = true -> int_rstrip s = s.
Proof.
  induction s as [|c s IH]; simpl; [done|].
  intros [Hc Hs]%andb_true_iff. rewrite (IH Hs).
  apply numeral_char_facts in Hc as (_ & -> & _). by destruct s.
Qed.

Lemma lower_numeral s : string_forall is_numeral_char s = true -> lower s = s.
Proof.
  induction s as [|c s IH]; simpl; [done|].
  intros [Hc Hs]%andb_true_iff. rewrite (IH Hs).
  by apply numeral_char_facts in Hc as (_ & _ & -> & _).
Qed.

Lemma numeral_not_quit s :
  string_forall is_numeral_char s = true -> s ∉ quit_words.
Proof.
  intros Hs Hin. unfold quit_words in Hin.
  rewrite !elem_of_cons, elem_of_nil in Hin.
  destruct Hin as [->|[->|[->|[]]]]; discriminate Hs.
Qed.

Lemma py_int_digits limit d :
  d <> Decimal.Nil ->
  (limit = 0 \/ String.length (NilEmpty.string_of_uint d) <= limit)%nat ->
  py_int limit (NilEmpty.string_of_uint d) = Some (uint_value d 0).
Proof.
  intros Hd Hlimit. unfold py_int.
  rewrite int_lstrip_numeral, int_rstrip_numeral by apply numeral_chars.
  assert (Hbody : int_digits (NilEmpty.string_of_uint d) false 0 0
                  = Some (uint_value d 0,
                          String.length (NilEmpty.string_of_uint d)))
    by (by rewrite int_digits_numeral by (by left)).
  assert (Hfit : (str_digits_check_threshold
                  <? String.length (NilEmpty.string_of_uint d))%nat
                 && (0 <? limit)%nat
                 && (limit <? String.length (NilEmpty.string_of_uint d))%nat
                 = false).
  { destruct Hlimit as [->|Hle]; [by rewrite andb_false_r|].
    apply andb_false_iff. right. apply Nat.ltb_ge. lia. }
  destruct d; try done; cbn [NilEmpty.string_of_uint int_sign] in *;
    rewrite Hbody, Hfit; f_equal; lia.
Qed.

Lemma py_int_minus limit d :
  d <> Decimal.Nil ->
  (limit = 0 \/ String.length (NilEmpty.string_of_uint d) <= limit)%nat ->
  py_int limit (String "-" (NilEmpty.string_of_uint d))
  = Some (- uint_value d 0).
Proof.
  intros Hd Hlimit. unfold py_int.
  assert (Hchars : string_forall is_numeral_char
                     (String "-" (NilEmpty.string_of_uint d)) = true)
    by (cbn; apply numeral_chars).
  rewrite (int_lstrip_numeral _ Hchars), (int_rstrip_numeral _ Hchars).
  cbn [int_sign].
  rewrite int_digits_numeral by (by left).
  assert (Hfit : (str_digits_check_threshold
                  <? 0 + String.length (NilEmpty.string_of_uint d))%nat
                 && (0 <? limit)%nat
                 && (limit <? 0 + String.length (NilEmpty.string_of_uint d))%nat
                 = false).
  { destruct Hlimit as [->|Hle]; [by rewrite andb_false_r|].
    apply andb_false_iff. right. apply Nat.ltb_ge. lia. }
  rewrite Hfit. f_equal.
Qed.

Lemma nonnil_string d :
  d <> Decimal.Nil -> NilZero.string_of_uint d = NilEmpty.string_of_uint d.
Proof. by destruct d. Qed.

Lemma to_uint_value p : uint_value (Pos.to_uint p) 0 = Z.pos p.
Proof.
  pose proof (Unsigned.of_to p) as Hof.
  apply (f_equal Z.of_N) in Hof. by rewrite of_uint_value in Hof.
Qed.

Lemma py_int_str limit n :
  (limit = 0 \/ String.length (str_int (Z.abs n)) <= limit)%nat ->
  py_int limit (str_int n) = Some n.
Proof.
  unfold str_int. destruct n as [|p|p]; intros Hlimit.
  - apply (py_int_digits limit (Decimal.D0 Decimal.Nil)); done.
  - pose proof (Unsigned.to_uint_nonnil p) as Hnil.
    change (limit = 0 \/
            String.length (NilZero.string_of_uint (Pos.to_uint p)) <= limit)%nat
      in Hlimit.
    change (py_int limit (NilZero.string_of_uint (Pos.to_uint p))
            = Some (Z.pos p)).
    rewrite (nonnil_string _ Hnil) in *.
    rewrite py_int_digits by done. by rewrite to_uint_value.
  - pose proof (Unsigned.to_uint_nonnil p) as Hnil.
    change (limit = 0 \/
            String.length (NilZero.string_of_uint (Pos.to_uint p)) <= limit)%nat
      in Hlimit.
    change (py_int limit (String "-" (NilZero.string_of_uint (Pos.to_uint p)))
            = Some (Z.neg p)).
    rewrite (nonnil_string _ Hnil) in *.
    rewrite py_int_minus by done. by rewrite to_uint_value.
Qed.

(** X13. What [print] shows for an integer, [_read_int] reads back: on the
    line [str(n)] it returns [n], when the number of digits of [n] is within
    the limit on integer literals. *)
Theorem read_int_round_trip limit prompt n rest shown :
  (limit = 0 \/ String.length (str_int (Z.abs n)) <= limit)%nat ->
  Cli._read_int limit prompt (mkConsole (Line (str_int n) :: rest) shown)
  = (Done n, mkConsole rest (shown ++ [Asked prompt])).
Proof.
  intros Hlimit.
  unfold Cli._read_int, io_bind, input. cbn [pending trace].
  pose proof (str_int_chars n) as Hchars.
  unfold strip. rewrite (lstrip_numeral _ Hchars), (rstrip_numeral _ Hchars).
  rewrite (lower_numeral _ Hchars).
  rewrite decide_False by (by apply numeral_not_quit).
  by rewrite py_int_str.
Qed.

Lemma read_int_round_trip_witness :
  Cli._read_int 4300 "members: " (mkConsole [Line (str_int 352); Line "y"] [])
  = (Done 352, mkConsole [Line "y"] ([] ++ [Asked "members: "])).
Proof.
  apply (read_int_round_trip 4300 "members: " 352 [Line "y"] []).
  right. vm_compute. lia.
Defined.

(** ** The limit on conversions *)

Lemma str_int_abs_length n :
  (String.length (str_int (Z.abs n)) <= String.length (str_int n))%nat.
Proof.
  destruct n as [|p|p]; [done|done|].
  change (str_int (Z.neg p)) with (String "-" (str_int (Z.pos p))).
  change (Z.abs (Z.neg p)) with (Z.pos p). simpl. lia.
Qed.

(** For the limits that the interpreter accepts, 0 and 640 or more, the
    conversion to text is refused exactly for more digits than the limit:
    the test on the threshold changes nothing there. *)
(** The same for the test of [py_int] on the number of digits read. *)
Lemma digit_test_accepted limit count :
  (limit = 0 \/ str_digits_check_threshold <= limit)%nat ->
  (str_digits_check_threshold <? count)%nat && (0 <? limit)%nat
  && (limit <? count)%nat
  = (0 <? limit)%nat && (limit <? count)%nat.
Proof.
  intros Hlimit.
  destruct (Nat.ltb_spec str_digits_check_threshold count) as [Hc|Hc];
    [done|].
  cbn [andb]. symmetry. apply andb_false_iff.
  destruct Hlimit as [->|Hl]; [by left|]. right. apply Nat.ltb_ge. lia.
Qed.

Lemma within_limit_accepted limit n :
  (limit = 0 \/ str_digits_check_threshold <= limit)%nat ->
  within_limit limit n = true
  <-> (limit = 0 \/ String.length (str_int (Z.abs n)) <= limit)%nat.
Proof.
  intros Hlimit. unfold within_limit.
  pose proof (str_int_abs_length n) as Hlen.
  rewrite negb_true_iff, !andb_false_iff, !Nat.ltb_ge.
  lia.
Qed.

(** ** The session *)

Lemma io_bind_done {A B} (m : io A) (k : A -> io B) c v c' :
  io_bind m k c = (Done v, c') ->
  exists a c1, m c = (Done a, c1) /\ k a c1 = (Done v, c').
Proof.
  unfold io_bind. destruct (m c) as [[a|x] c1]; [|done]. intros H. by exists a, c1.
Qed.

Lemma prints_only_print text : prints_only (print text).
Proof. intros c. by exists [Printed text]. Qed.

Lemma prints_only_ret : prints_only (io_ret tt).
Proof. intros c. exists []. rewrite app_nil_r. by destruct c. Qed.

Lemma prints_only_seq m k :
  prints_only m -> prints_only k -> prints_only (io_bind m (fun _ => k)).
Proof.
  intros Hm Hk c. destruct (Hm c) as (s1 & H1).
  destruct (Hk (mkConsole (pending c) (trace c ++ s1))) as (s2 & H2).
  exists (s1 ++ s2). unfold io_bind. rewrite H1, H2. cbn. by rewrite app_assoc.
Qed.

Lemma prints_only_for_each {A} (xs : list A) body :
  (forall x, prints_only (body x)) -> prints_only (for_each xs body).
Proof.
  intros Hb. induction xs as [|x xs IH]; simpl.
  - apply prints_only_ret.
  - by apply prints_only_seq.
Qed.

Lemma prints_only_amounts limit m : prints_only m -> prints_amounts limit [] m.
Proof. intros Hm c. destruct (Hm c) as (shown & ->). by exists shown. Qed.

Lemma prints_amounts_only limit amounts m :
  forallb (within_limit limit) amounts = true ->
  prints_amounts limit amounts m -> prints_only m.
Proof.
  intros Hfit Hm c. destruct (Hm c) as (shown & ->). rewrite Hfit. by exists shown.
Qed.

Lemma prints_amounts_seq limit a1 a2 m k :
  prints_amounts limit a1 m -> prints_amounts limit a2 k ->
  prints_amounts limit (a1 ++ a2) (io_bind m (fun _ => k)).
Proof.
  intros Hm Hk c. destruct (Hm c) as (s1 & H1).
  rewrite forallb_app. unfold io_bind. rewrite H1.
  destruct (forallb (within_limit limit) a1); cbn [andb].
  - destruct (Hk (mkConsole (pending c) (trace c ++ s1))) as (s2 & H2).
    exists (s1 ++ s2). rewrite H2. cbn. by rewrite app_assoc.
  - by exists s1.
Qed.

Lemma prints_amounts_after limit amounts m k :
  prints_only m -> prints_amounts limit amounts k ->
  prints_amounts limit amounts (io_bind m (fun _ => k)).
Proof.
  intros Hm Hk. apply (prints_amounts_seq limit [] amounts); [|done].
  by apply prints_only_amounts.
Qed.

Lemma prints_amounts_before limit amounts m k :
  prints_amounts limit amounts m -> prints_only k ->
  prints_amounts limit amounts (io_bind m (fun _ => k)).
Proof.
  intros Hm Hk. rewrite <- (app_nil_r amounts).
  apply prints_amounts_seq; [done|]. by apply prints_only_amounts.
Qed.

(** One conversion followed by the [print] of a text built from it. *)
Lemma prints_amounts_format limit n (text : string -> string) :
  prints_amounts limit [n]
    (io_bind (Cli.format_int limit n) (fun s => print (text s))).
Proof.
  intros c. cbn [forallb]. rewrite andb_true_r.
  unfold io_bind, Cli.format_int, py_str.
  destruct (within_limit limit n); cbn.
  - by exists [Printed (text (str_int n))].
  - exists []. rewrite app_nil_r. by destruct c.
Qed.

Lemma prints_amounts_for_each {A} limit (amount : A -> Z) (xs : list A) body :
  (forall x, prints_amounts limit [amount x] (body x)) ->
  prints_amounts limit (map amount xs) (for_each xs body).
Proof.
  intros Hb. induction xs as [|x xs IH]; simpl.
  - apply prints_only_amounts, prints_only_ret.
  - by apply (prints_amounts_seq limit [amount x]).
Qed.

Lemma prints_amounts_catalog limit title items :
  prints_amounts limit (map (fun entry => price_usd entry.2) items)
    (Cli._print_catalog limit title items).
Proof.
  unfold Cli._print_catalog.
  apply prints_amounts_after; [apply prints_only_print|].
  apply prints_amounts_after; [apply prints_only_print|].
  apply prints_amounts_before; [|apply prints_only_print].
  apply prints_amounts_for_each. intros [code item].
  apply prints_amounts_format.
Qed.

(** The three catalogs of the seed are always printed: their prices have
    at most three digits. *)
Lemma prints_only_catalog limit title items :
  forallb (within_limit limit) (map (fun entry => price_usd entry.2) items) = true ->
  prints_only (Cli._print_catalog limit title items).
Proof. intros Hfit. eapply prints_amounts_only; [done|apply prints_amounts_catalog]. Qed.

Lemma prints_amounts_items limit title none items :
  prints_amounts limit (map price_usd items)
    (match items with
     | _ :: _ =>
         io_bind (print title) (fun _ => for_each items (Cli.print_item limit))
     | [] => print none
     end).
Proof.
  destruct items as [|item items].
  - apply prints_only_amounts, prints_only_print.
  - apply prints_amounts_after; [apply prints_only_print|].
    apply prints_amounts_for_each. intros x. apply prints_amounts_format.
Qed.

Lemma prints_amounts_summary limit r :
  prints_amounts limit (summary_amounts r) (Cli.print_summary limit r).
Proof.
  unfold Cli.print_summary, summary_amounts.
  apply prints_amounts_after; [apply prints_only_print|].
  apply (prints_amounts_seq limit [members r]); [apply prints_amounts_format|].
  apply (prints_amounts_seq limit [price_usd (plan r)]);
    [apply prints_amounts_format|].
  apply prints_amounts_seq; [apply prints_amounts_items|].
  apply prints_amounts_seq; [apply prints_amounts_items|].
  apply prints_amounts_after; [apply prints_only_print|].
  apply (prints_amounts_seq limit [base_total_usd r]); [apply prints_amounts_format|].
  apply (prints_amounts_seq limit [group_discount_usd r]);
    [apply prints_amounts_format|].
  apply (prints_amounts_seq limit [premium_surcharge_usd r]);
    [apply prints_amounts_format|].
  apply (prints_amounts_seq limit [special_offer_discount_usd r]);
    [apply prints_amounts_format|].
  apply prints_amounts_before; [apply prints_amounts_format|].
  destruct (messages r); [apply prints_only_ret|].
  apply prints_only_seq; [apply prints_only_print|].
  apply prints_only_for_each. intros msg. apply prints_only_print.
Qed.

Lemma prints_amounts_pending limit amounts (m : io unit) c o c1 :
  prints_amounts limit amounts m -> m c = (o, c1) -> pending c1 = pending c.
Proof. intros Hm. destruct (Hm c) as (shown & ->). by intros [= _ <-]. Qed.

Lemma input_done prompt c line c' :
  input prompt c = (Done line, c') ->
  pending c = Line line :: pending c' /\ trace c' = trace c ++ [Asked prompt].
Proof.
  unfold input. destruct (pending c) as [|[l|] rest]; try done.
  by intros [= <- <-].
Qed.

Lemma read_int_done limit prompt c m c' :
  Cli._read_int limit prompt c = (Done m, c') ->
  exists line, pending c = Line line :: pending c'
               /\ py_int limit (strip line) = Some m.
Proof.
  unfold Cli._read_int. intros (line & c1 & [Hp _]%input_done & H)%io_bind_done.
  case_decide; [done|].
  destruct (py_int limit (strip line)) as [n|] eqn:Hn; [|done].
  injection H as <- <-. by exists line.
Qed.

Lemma read_codes_done prompt c codes c' :
  Cli._read_codes prompt c = (Done codes, c') ->
  exists line, pending c = Line line :: pending c'
               /\ codes = codes_of_line line.
Proof.
  unfold Cli._read_codes, codes_of_line.
  intros (line & c1 & [Hp _]%input_done & H)%io_bind_done.
  exists line. repeat case_decide; try done; by injection H as <- <-.
Qed.

Lemma last_snoc {A} (l : list A) x : last (l ++ [x]) = Some x.
Proof. apply last_snoc. Qed.

Lemma print_then_ret limit n (w v : Z) c c' :
  io_bind (Cli.print_int limit n) (fun _ => io_ret w) c = (Done v, c') ->
  v = w /\ pending c' = pending c
  /\ last (trace c') = Some (Printed (str_int n)).
Proof.
  unfold io_bind, Cli.print_int, Cli.format_int, py_str.
  destruct (within_limit limit n); cbn; [|done].
  intros [= <- <-]. cbn. repeat split. apply last_snoc.
Qed.

(** How the body of [run_cli] can end without raising: a quit word at the
    plan prompt, or five lines read and a quote that was confirmed or
    declined. *)
Lemma run_cli_body_done limit c v c' :
  Cli.run_cli_body limit c = (Done v, c') ->
  (v = -1
   /\ (exists l1 l2, pending c = Line l1 :: Line l2 :: pending c'
                     /\ lower (strip l2) ∈ quit_words)
   /\ last (trace c') = Some (Asked plan_prompt))
  \/ (exists l1 l2 l3 l4 l5 m r,
        pending c
        = Line l1 :: Line l2 :: Line l3 :: Line l4 :: Line l5 :: pending c'
        /\ py_int limit (strip l1) = Some m
        /\ calculate_total m (lower (strip l2))
             (codes_of_line l3) (codes_of_line l4) = Ok r
        /\ (lower (strip l5) = "y" /\ v = total_usd r
            \/ lower (strip l5) <> "y" /\ v = -1)
        /\ last (trace c') = Some (Printed (str_int v))).
Proof.
  unfold Cli.run_cli_body.
  intros (m & c1 & (l1 & Hp1 & Hm)%read_int_done & H)%io_bind_done.
  apply io_bind_done in H as ([] & c2 & Hp2 & H).
  apply (prints_amounts_pending _ _ _ _ _ _ (prints_amounts_catalog _ _ _)) in Hp2.
  apply io_bind_done in H as (l2 & c3 & [Hp3 Ht3]%input_done & H).
  case_decide as Hquit.
  { injection H as <- <-. left. split; [done|]. split.
    - exists l1, l2. by rewrite Hp1, <- Hp2, Hp3.
    - rewrite Ht3. apply last_snoc. }
  right.
  apply io_bind_done in H as ([] & c4 & Hp4 & H).
  apply (prints_amounts_pending _ _ _ _ _ _ (prints_amounts_catalog _ _ _)) in Hp4.
  apply io_bind_done in H as (a & c5 & (l3 & Hp5 & ->)%read_codes_done & H).
  apply io_bind_done in H as ([] & c6 & Hp6 & H).
  apply (prints_amounts_pending _ _ _ _ _ _ (prints_amounts_catalog _ _ _)) in Hp6.
  apply io_bind_done in H as (pr & c7 & (l4 & Hp7 & ->)%read_codes_done & H).
  apply io_bind_done in H as (r & c8 & Hr & H).
  destruct (calculate_total m (lower (strip l2)) (codes_of_line l3)
              (codes_of_line l4)) as [r'|e] eqn:Hcalc; [|done].
  injection Hr as -> ->.
  apply io_bind_done in H as ([] & c9 & Hp9 & H).
  apply (prints_amounts_pending _ _ _ _ _ _ (prints_amounts_summary _ _)) in Hp9.
  apply io_bind_done in H as (l5 & c10 & [Hp10 Ht10]%input_done & H).
  exists l1, l2, l3, l4, l5, m, r.
  case_decide as Hy;
    apply print_then_ret in H as (-> & Hpc & Hl);
    rewrite Hp1, <- Hp2, Hp3, <- Hp4, Hp5, <- Hp6, Hp7, <- Hp9, Hp10, <- Hpc;
    repeat split; try done; [by left|by right].
Qed.

Lemma run_cli_start limit c :
  exists c0,
    pending c0 = pending c
    /\ Cli.run_cli limit c
       = match Cli.run_cli_body limit c0 with
         | (Done v, c') => (Done v, c')
         | (Raised KeyboardInterrupt, c') =>
             (Done (-1),
              mkConsole (pending c') (trace c' ++ [Printed (nl +:+ "-1")]))
         | (Raised x, c') =>
             (Done (-1),
              mkConsole (pending c')
                ((trace c' ++ [Printed (nl +:+ "ERROR: " +:+ str_exc x)])
                 ++ [Printed (str_int (-1))]))
         end.
Proof.
  exists (mkConsole (pending c)
            ((trace c ++ [Printed "Gym Membership Management System"])
             ++ [Printed ("Type 'q' at any time to cancel." +:+ nl)])).
  split; [reflexivity|].
  unfold Cli.run_cli. unfold io_bind at 1 2. unfold print at 1 2.
  cbn [pending trace].
  destruct (Cli.run_cli_body limit _) as [[v|[| |e]] c']; reflexivity.
Qed.

(** The ways a session ends: a confirmed purchase, or -1. *)
Lemma run_cli_cases limit c :
  exists v c',
    Cli.run_cli limit c = (Done v, c')
    /\ ((exists l1 l2 l3 l4 l5 m r,
           pending c
           = Line l1 :: Line l2 :: Line l3 :: Line l4 :: Line l5 :: pending c'
           /\ py_int limit (strip l1) = Some m
           /\ calculate_total m (lower (strip l2))
                (codes_of_line l3) (codes_of_line l4) = Ok r
           /\ lower (strip l5) = "y"
           /\ v = total_usd r
           /\ last (trace c') = Some (Printed (str_int v)))
        \/ (v = -1
            /\ (last (trace c') = Some (Printed (str_int (-1)))
                \/ last (trace c') = Some (Printed (nl +:+ "-1"))
                \/ last (trace c') = Some (Asked plan_prompt)
                   /\ exists l1 l2 rest,
                        pending c = Line l1 :: Line l2 :: rest
                        /\ lower (strip l2) ∈ quit_words))).
Proof.
  destruct (run_cli_start limit c) as (c0 & Hp0 & ->).
  destruct (Cli.run_cli_body limit c0) as [[v|x] c'] eqn:Hbody.
  - exists v, c'. split; [done|].
    apply run_cli_body_done in Hbody
      as [(-> & (l1 & l2 & Hp & Hq) & Hl)
         |(l1 & l2 & l3 & l4 & l5 & m & r & Hp & Hm & Hr & Hy & Hl)].
    + right. split; [done|]. right. right. split; [done|].
      exists l1, l2, (pending c'). by rewrite <- Hp0.
    + destruct Hy as [[Hy ->]|[Hy ->]].
      * left. exists l1, l2, l3, l4, l5, m, r. by rewrite <- Hp0.
      * right. split; [done|]. by left.
  - destruct x as [| |e]; eexists _, _; (split; [reflexivity|]);
      right; (split; [done|]); cbn [trace].
    + right. left. apply last_snoc.
    + left. apply last_snoc.
    + left. apply last_snoc.
Qed.

(** X14. [run_cli] never raises and never returns 0 or a small amount: it
    returns -1, or a total of at least 60, whatever is typed and however
    the input ends. *)
Theorem run_cli_returns limit c :
  exists v c', Cli.run_cli limit c = (Done v, c') /\ (v = -1 \/ 60 <= v).
Proof.
  destruct (run_cli_cases limit c)
    as (v & c' & Hrun & [(l1 & l2 & l3 & l4 & l5 & m & r & _ & _ & Hr & _ & -> & _)
                        |[-> _]]).
  - exists (total_usd r), c'. split; [done|]. right.
    by apply seed_result_range in Hr as [? _].
  - exists (-1), c'. split; [done|]. by left.
Qed.

(** X15. [run_cli] returns a value other than -1 only for a confirmed
    purchase: five lines were read, the first is an integer, the quote of
    [calculate_total] for the typed plan and codes exists, the fifth line
    is "y" up to case and surrounding blanks, the value is the total of the
    quote, and it is the last thing printed. *)
Theorem run_cli_purchase limit c v c' :
  Cli.run_cli limit c = (Done v, c') -> v <> -1 ->
  exists l1 l2 l3 l4 l5 m r,
    pending c
    = Line l1 :: Line l2 :: Line l3 :: Line l4 :: Line l5 :: pending c'
    /\ py_int limit (strip l1) = Some m
    /\ calculate_total m (lower (strip l2))
         (codes_of_line l3) (codes_of_line l4) = Ok r
    /\ lower (strip l5) = "y"
    /\ v = total_usd r
    /\ last (trace c') = Some (Printed (str_int v)).
Proof.
  intros Hrun Hv.
  destruct (run_cli_cases limit c) as (v' & c'' & Hrun' & Hcases).
  rewrite Hrun in Hrun'. injection Hrun' as <- <-.
  destruct Hcases as [H|[-> _]]; done.
Qed.

Lemma run_cli_purchase_witness :
  exists c',
    Cli.run_cli 4300
      (mkConsole [Line "2"; Line " Premium "; Line "-"; Line "exclusive";
                  Line "Y"; Line "left over"] [])
    = (Done 352, c')
    /\ last (trace c') = Some (Printed (str_int 352)).
Proof.
  set (c := mkConsole [Line "2"; Line " Premium "; Line "-"; Line "exclusive";
                       Line "Y"; Line "left over"] []).
  assert (Hrun : Cli.run_cli 4300 c = (Done 352, snd (Cli.run_cli 4300 c)))
    by (vm_compute; reflexivity).
  exists (snd (Cli.run_cli 4300 c)). split; [exact Hrun|].
  destruct (run_cli_purchase 4300 c 352 _ Hrun ltac:(done))
    as (l1 & l2 & l3 & l4 & l5 & m & r & _ & _ & _ & _ & _ & Hl).
  exact Hl.
Defined.

(** X16. The value that [run_cli] returns is the last thing it prints, as
    [str] of the value or as the text "\n-1" after an interrupt or a quit
    word; the one exception is a quit word at the plan prompt, which
    returns -1 without printing it. *)
Theorem run_cli_prints_result limit c v c' :
  Cli.run_cli limit c = (Done v, c') ->
  last (trace c') = Some (Printed (str_int v))
  \/ (v = -1 /\ last (trace c') = Some (Printed (nl +:+ "-1")))
  \/ (v = -1 /\ last (trace c') = Some (Asked plan_prompt)
      /\ exists l1 l2 rest,
           pending c = Line l1 :: Line l2 :: rest
           /\ lower (strip l2) ∈ quit_words).
Proof.
  intros Hrun.
  destruct (run_cli_cases limit c) as (v' & c'' & Hrun' & Hcases).
  rewrite Hrun in Hrun'. injection Hrun' as <- <-.
  destruct Hcases
    as [(l1 & l2 & l3 & l4 & l5 & m & r & _ & _ & _ & _ & _ & Hl)
       |[-> [Hl|[Hl|Hl]]]]; auto.
Qed.

Lemma run_cli_prints_result_witness :
  exists c',
    Cli.run_cli 4300 (mkConsole [Line "3"; Line "QUIT"] []) = (Done (-1), c')
    /\ last (trace c') = Some (Asked plan_prompt).
Proof.
  set (c := mkConsole [Line "3"; Line "QUIT"] []).
  assert (Hrun : Cli.run_cli 4300 c = (Done (-1), snd (Cli.run_cli 4300 c)))
    by (vm_compute; reflexivity).
  exists (snd (Cli.run_cli 4300 c)). split; [exact Hrun|].
  destruct (run_cli_prints_result 4300 c (-1) _ Hrun)
    as [Hl|[[_ Hl]|(_ & Hl & _)]].
  - vm_compute in Hl. discriminate Hl.
  - vm_compute in Hl. discriminate Hl.
  - exact Hl.
Defined.

(** ** A confirmed purchase *)

Lemma io_bind_step {A B} (m : io A) (k : A -> io B) c a c1 :
  m c = (Done a, c1) -> io_bind m k c = k a c1.
Proof. unfold io_bind. by intros ->. Qed.

Lemma prints_only_step (m : io unit) c :
  prints_only m -> exists c1, m c = (Done tt, c1) /\ pending c1 = pending c.
Proof. intros Hm. destruct (Hm c) as (shown & ->). by eexists. Qed.

Lemma input_step prompt c line rest :
  pending c = Line line :: rest ->
  exists c1, input prompt c = (Done line, c1) /\ pending c1 = rest.
Proof. unfold input. intros ->. by eexists. Qed.

Lemma int_rstrip_first c r :
  is_int_space c = false -> exists r', int_rstrip (String c r) = String c r'.
Proof.
  intros Hc. simpl. destruct (int_rstrip r); rewrite ?Hc; by eexists.
Qed.

Lemma quit_char_facts c :
  lower_char c = "q"%char \/ lower_char c = "e"%char ->
  is_int_space c = false /\ digit_value c = None /\ Ascii.eqb c "_" = false
  /\ forall r, int_sign (String c r) = (1, String c r).
Proof.
  destruct c as [[] [] [] [] [] [] [] []]; intros [H|H]; vm_compute in H;
    try discriminate H; repeat split; reflexivity.
Qed.

Lemma quit_word_initial s :
  lower s ∈ quit_words ->
  exists c r, s = String c r
              /\ (lower_char c = "q"%char \/ lower_char c = "e"%char).
Proof.
  unfold quit_words. rewrite !elem_of_cons, elem_of_nil.
  destruct s as [|c r]; simpl; [by intros [|[|[|[]]]]|].
  intros [H|[H|[H|[]]]]; injection H as Hc _; exists c, r; auto.
Qed.

Lemma py_int_not_quit limit s m :
  py_int limit s = Some m -> lower s ∉ quit_words.
Proof.
  intros Hm (c & r & -> & Hc)%quit_word_initial.
  apply quit_char_facts in Hc as (Hsp & Hd & Hu & Hsign).
  unfold py_int in Hm. simpl int_lstrip in Hm. rewrite Hsp in Hm.
  destruct (int_rstrip_first c r Hsp) as (r' & Hr). rewrite Hr, Hsign in Hm.
  simpl in Hm. by rewrite Hd, Hu in Hm.
Qed.

Lemma read_int_step limit prompt c line rest m :
  pending c = Line line :: rest ->
  py_int limit (strip line) = Some m ->
  exists c1, Cli._read_int limit prompt c = (Done m, c1) /\ pending c1 = rest.
Proof.
  intros Hp Hm. unfold Cli._read_int.
  destruct (input_step prompt c line rest Hp) as (c1 & Hin & Hp1).
  rewrite (io_bind_step _ _ _ _ _ Hin).
  rewrite decide_False by (by eapply py_int_not_quit). rewrite Hm.
  by exists c1.
Qed.

Lemma read_codes_step prompt c line rest :
  pending c = Line line :: rest ->
  lower (strip line) ∉ quit_words ->
  exists c1, Cli._read_codes prompt c = (Done (codes_of_line line), c1)
             /\ pending c1 = rest.
Proof.
  intros Hp Hq. unfold Cli._read_codes, codes_of_line.
  destruct (input_step prompt c line rest Hp) as (c1 & Hin & Hp1).
  rewrite (io_bind_step _ _ _ _ _ Hin).
  case_decide; [by exists c1|]. rewrite decide_False by done. by exists c1.
Qed.

Lemma quit_words_reserved w : w ∈ quit_words -> w ∈ reserved_words.
Proof. intros H. unfold reserved_words. apply elem_of_app. by right. Qed.

(** A line that spells a quit word would be read as that one code. *)
Lemma codes_of_quit_line line :
  lower (strip line) ∈ quit_words -> codes_of_line line = [strip line].
Proof.
  intros Hq. unfold codes_of_line.
  assert (Hnone : lower (strip line) ∉ none_words).
  { intros Hn. revert Hq. unfold quit_words, none_words in *.
    rewrite !elem_of_cons, elem_of_nil in *.
    destruct Hn as [->|[->|[->|[]]]]; by intros [|[|[|[]]]]. }
  rewrite decide_False by done.
  destruct (reserved_no_separator _ (quit_words_reserved _ Hq)) as [Hc Hb].
  rewrite lower_contains_comma in Hc. rewrite lower_contains_blank in Hb.
  rewrite (replace_id _ _ _ Hb), (split_single _ _ Hc). cbn [map].
  rewrite strip_idempotent, filter_cons, decide_True; [done|].
  intros Heq. rewrite Heq in Hnone. apply Hnone. unfold none_words.
  cbn. rewrite !elem_of_cons. auto.
Qed.

Lemma PLANS_keys c item :
  PLANS !! c = Some item -> c ∈ ["basic"; "premium"; "family"].
Proof.
  intros (_ & [[-> _]|[[-> _]|[-> _]]])%PLANS_lookup; rewrite !elem_of_cons; auto.
Qed.

Lemma ADDONS_keys c item :
  ADDONS !! c = Some item -> c ∈ ["nutrition"; "classes"; "pt"].
Proof.
  unfold ADDONS. rewrite !lookup_insert_Some, lookup_empty, !elem_of_cons.
  intros [[<- _]|[_ [[<- _]|[_ [[<- _]|[_ ?]]]]]]; auto; done.
Qed.

Lemma PREMIUM_FEATURES_keys c item :
  PREMIUM_FEATURES !! c = Some item -> c ∈ ["exclusive"; "specialized"].
Proof.
  unfold PREMIUM_FEATURES. rewrite !lookup_insert_Some, lookup_empty, !elem_of_cons.
  intros [[<- _]|[_ [[<- _]|[_ ?]]]]; auto; done.
Qed.

Lemma seed_key_not_quit c :
  c ∈ ["basic"; "premium"; "family"; "nutrition"; "classes"; "pt";
       "exclusive"; "specialized"] ->
  (c ∉ quit_words) /\ (lower c ∉ quit_words).
Proof.
  rewrite !elem_of_cons, elem_of_nil. unfold quit_words.
  intros [->|[->|[->|[->|[->|[->|[->|[->|[]]]]]]]]];
    split; cbn; rewrite !elem_of_cons, elem_of_nil; by intros [|[|[|[]]]].
Qed.

(** In a selection that [calculate_total] accepts, no typed line was a
    quit word. *)
Lemma accepted_lines_not_quit m plan_code l3 l4 r :
  calculate_total m plan_code (codes_of_line l3) (codes_of_line l4) = Ok r ->
  (plan_code ∉ quit_words)
  /\ (lower (strip l3) ∉ quit_words) /\ (lower (strip l4) ∉ quit_words).
Proof.
  intros Hr. apply calculate_total_ok in Hr as (Hv & _).
  apply valid_selection_spec in Hv as (_ & (item & Hp & _) & Ha & Hpr).
  split; [|split].
  - apply PLANS_keys in Hp. apply seed_key_not_quit.
    revert Hp. rewrite !elem_of_cons, !elem_of_nil. tauto.
  - intros Hq. pose proof (codes_of_quit_line l3 Hq) as Hc.
    destruct (Ha (strip l3)) as (it & Hl & _); [rewrite Hc; by left|].
    apply ADDONS_keys in Hl.
    assert (Hin : strip l3 ∈ ["basic"; "premium"; "family"; "nutrition";
                              "classes"; "pt"; "exclusive"; "specialized"])
      by (revert Hl; rewrite !elem_of_cons, !elem_of_nil; tauto).
    by apply seed_key_not_quit in Hin as [_ Hin].
  - intros Hq. pose proof (codes_of_quit_line l4 Hq) as Hc.
    destruct (Hpr (strip l4)) as (it & Hl & _); [rewrite Hc; by left|].
    apply PREMIUM_FEATURES_keys in Hl.
    assert (Hin : strip l4 ∈ ["basic"; "premium"; "family"; "nutrition";
                              "classes"; "pt"; "exclusive"; "specialized"])
      by (revert Hl; rewrite !elem_of_cons, !elem_of_nil; tauto).
    by apply seed_key_not_quit in Hin as [_ Hin].
Qed.

(** The session up to the quote: with an integer on the first line and a
    selection that [calculate_total] accepts, the body of [run_cli] reads
    four lines and goes on with the summary. *)
Lemma run_cli_body_quote limit c l1 l2 l3 l4 rest m r :
  pending c = Line l1 :: Line l2 :: Line l3 :: Line l4 :: rest ->
  py_int limit (strip l1) = Some m ->
  calculate_total m (lower (strip l2)) (codes_of_line l3) (codes_of_line l4)
  = Ok r ->
  exists c1,
    pending c1 = rest
    /\ Cli.run_cli_body limit c
       = io_bind (Cli.print_summary limit r) (fun _ =>
           io_bind (input (nl +:+ "Confirm purchase? (y/n): ")) (fun line =>
             if decide (lower (strip line) = "y")
             then io_bind (Cli.print_int limit (total_usd r))
                    (fun _ => io_ret (total_usd r))
             else io_bind (Cli.print_int limit (-1)) (fun _ => io_ret (-1)))) c1.
Proof.
  intros Hp Hm Hr.
  destruct (accepted_lines_not_quit _ _ _ _ _ Hr) as (Hq2 & Hq3 & Hq4).
  unfold Cli.run_cli_body.
  destruct (read_int_step limit "How many members are signing up together? "
              c _ _ m Hp Hm) as (c1 & Hs1 & Hp1).
  rewrite (io_bind_step _ _ _ _ _ Hs1).
  destruct (prints_only_step _ c1
              (prints_only_catalog limit "Membership Plans" PLANS_items eq_refl))
    as (c2 & Hs2 & Hp2).
  rewrite (io_bind_step _ _ _ _ _ Hs2).
  rewrite Hp1 in Hp2.
  destruct (input_step "Choose a plan code (basic/premium/family): " c2 _ _ Hp2)
    as (c3 & Hs3 & Hp3).
  rewrite (io_bind_step _ _ _ _ _ Hs3).
  rewrite decide_False by done.
  destruct (prints_only_step _ c3
              (prints_only_catalog limit "Add-ons (per member)" ADDONS_items
                 eq_refl))
    as (c4 & Hs4 & Hp4).
  rewrite (io_bind_step _ _ _ _ _ Hs4).
  rewrite Hp3 in Hp4.
  destruct (read_codes_step
              "Add add-ons (e.g., nutrition,classes) or '-' for none: "
              c4 _ _ Hp4 Hq3) as (c5 & Hs5 & Hp5).
  rewrite (io_bind_step _ _ _ _ _ Hs5).
  destruct (prints_only_step _ c5
              (prints_only_catalog limit "Premium features (per member)"
                 PREMIUM_FEATURES_items eq_refl))
    as (c6 & Hs6 & Hp6).
  rewrite (io_bind_step _ _ _ _ _ Hs6).
  rewrite Hp5 in Hp6.
  destruct (read_codes_step
              "Add premium features (e.g., exclusive) or '-' for none: "
              c6 _ _ Hp6 Hq4) as (c7 & Hs7 & Hp7).
  rewrite (io_bind_step _ _ _ _ _ Hs7).
  rewrite Hr. unfold lift_result.
  rewrite (io_bind_step (io_ret r) _ c7 r c7 eq_refl).
  by exists c7.
Qed.

Lemma io_bind_outcome {A B} (m : io A) (k : A -> io B) c o c1 :
  m c = (o, c1) ->
  io_bind m k c = match o with
                  | Done a => k a c1
                  | Raised x => (Raised x, c1)
                  end.
Proof. unfold io_bind. by intros ->. Qed.

Lemma summary_amounts_total limit r :
  forallb (within_limit limit) (summary_amounts r) = true ->
  within_limit limit (total_usd r) = true.
Proof.
  unfold summary_amounts. rewrite !forallb_app. cbn [forallb].
  intros H. repeat (apply andb_true_iff in H as [? H] || apply andb_true_iff in H as [H ?]).
  done.
Qed.

(** X17. A confirmed valid purchase returns its total, unless an amount of
    the summary is too long to be shown.  When the first line is an
    integer, [calculate_total] accepts the typed plan (lower-cased) and
    codes, and the fifth line is "y" up to case and surrounding blanks:
    if every integer of the summary is within the interpreter's limit on
    conversions to text, [run_cli] reads exactly these five lines, prints
    the total last and returns it; if one is over the limit, [run_cli]
    stops at the summary, leaves the fifth line unread, prints the error
    of the conversion and then -1, and returns -1. *)
Theorem confirmed_purchase_returns_total limit c l1 l2 l3 l4 l5 rest m r :
  pending c = Line l1 :: Line l2 :: Line l3 :: Line l4 :: Line l5 :: rest ->
  py_int limit (strip l1) = Some m ->
  calculate_total m (lower (strip l2)) (codes_of_line l3) (codes_of_line l4)
  = Ok r ->
  lower (strip l5) = "y" ->
  (forallb (within_limit limit) (summary_amounts r) = true ->
   exists c',
     Cli.run_cli limit c = (Done (total_usd r), c')
     /\ pending c' = rest
     /\ last (trace c') = Some (Printed (str_int (total_usd r))))
  /\ (forallb (within_limit limit) (summary_amounts r) = false ->
      exists c' shown,
        Cli.run_cli limit c = (Done (-1), c')
        /\ pending c' = Line l5 :: rest
        /\ trace c'
           = shown ++ [Printed (nl +:+ "ERROR: " +:+ limit_error limit);
                       Printed (str_int (-1))]).
Proof.
  intros Hp Hm Hr Hy.
  destruct (run_cli_start limit c) as (c0 & Hp0 & ->). rewrite <- Hp0 in Hp.
  destruct (run_cli_body_quote limit c0 _ _ _ _ _ m r Hp Hm Hr)
    as (c1 & Hp1 & ->).
  destruct (prints_amounts_summary limit r c1) as (shown & Hs).
  rewrite (io_bind_outcome _ _ _ _ _ Hs). clear Hs.
  split; intros Hfit; rewrite Hfit.
  - assert (Hin : input (nl +:+ "Confirm purchase? (y/n): ")
                    (mkConsole (pending c1) (trace c1 ++ shown))
                  = (Done l5,
                     mkConsole rest
                       ((trace c1 ++ shown)
                        ++ [Asked (nl +:+ "Confirm purchase? (y/n): ")])))
      by (unfold input; cbn [pending trace]; by rewrite Hp1).
    rewrite (io_bind_step _ _ _ _ _ Hin).
    rewrite decide_True by done.
    unfold io_bind, Cli.print_int, Cli.format_int, py_str.
    rewrite (summary_amounts_total _ _ Hfit). cbn.
    eexists. split; [reflexivity|]. cbn [pending trace].
    split; [done|apply last_snoc].
  - exists (mkConsole (pending c1)
              (((trace c1 ++ shown)
                ++ [Printed (nl +:+ "ERROR: " +:+ limit_error limit)])
               ++ [Printed (str_int (-1))])), (trace c1 ++ shown).
    split; [reflexivity|]. cbn [pending trace].
    split; [done|]. by rewrite <- app_assoc.
Qed.

Lemma confirmed_purchase_returns_total_witness :
  exists c',
    Cli.run_cli 4300
      (mkConsole [Line "3"; Line "basic"; Line "pt"; Line "none"; Line " y"] [])
    = (Done 304, c')
    /\ pending c' = []
    /\ last (trace c') = Some (Printed (str_int 304)).
Proof.
  destruct (confirmed_purchase_returns_total 4300
              (mkConsole [Line "3"; Line "basic"; Line "pt"; Line "none";
                          Line " y"] [])
              "3" "basic" "pt" "none" " y" [] 3
              (priced 3 (mkCatalogItem "basic" "Basic" 60 true false)
                 [mkCatalogItem "pt" "Personal training sessions" 60 true false]
                 []))
    as [Hfits _].
  - reflexivity.
  - vm_compute. reflexivity.
  - vm_compute. reflexivity.
  - vm_compute. reflexivity.
  - destruct Hfits as (c' & Hrun & Hp & Hl); [vm_compute; reflexivity|].
    exists c'. split; [exact Hrun|]. split; [exact Hp|exact Hl].
Defined.

(** A purchase whose base total is too long to be shown: with the smallest
    limit, 640 digits, a member count of 640 digits is read, the base total
    has 642 digits, and the session ends with the error of the conversion
    and -1 before the confirmation is read. *)
Example oversized_total_cancels :
  let ending :=
    Cli.run_cli 640
      (mkConsole [Line (repeat_char "9" 640); Line "basic"; Line "-"; Line "-";
                  Line "y"] []) in
  fst ending = Done (-1)
  /\ pending (snd ending) = [Line "y"]
  /\ take 2 (rev (trace (snd ending)))
     = [Printed "-1";
        Printed (nl +:+ "ERROR: Exceeds the limit (640 digits) for integer "
                 +:+ "string conversion; use sys.set_int_max_str_digits() "
                 +:+ "to increase the limit")].
Proof. vm_compute. by repeat split. Qed.

(** The same with the default limit of 4300 digits and a member count of
    4300 digits. *)
Example default_limit_cancels :
  let ending :=
    Cli.run_cli 4300
      (mkConsole [Line (repeat_char "1" 4300); Line "basic"; Line "-"; Line "-";
                  Line "y"] []) in
  fst ending = Done (-1)
  /\ pending (snd ending) = [Line "y"]
  /\ take 2 (rev (trace (snd ending)))
     = [Printed "-1";
        Printed (nl +:+ "ERROR: Exceeds the limit (4300 digits) for integer "
                 +:+ "string conversion; use sys.set_int_max_str_digits() "
                 +:+ "to increase the limit")].
Proof. vm_compute. by repeat split. Qed.

(** X18. A purchase goes through only for codes typed exactly as the
    catalog spells them: the plan line is compared after lower-casing, so
    any letter case names a plan, but the add-on and premium codes are used
    as typed and must be the registry keys themselves. *)
Theorem run_cli_purchase_codes limit c v c' :
  Cli.run_cli limit c = (Done v, c') -> v <> -1 ->
  exists l1 l2 l3 l4 rest,
    pending c = Line l1 :: Line l2 :: Line l3 :: Line l4 :: rest
    /\ lower (strip l2) ∈ ["basic"; "premium"; "family"]
    /\ Forall (fun code => code ∈ ["nutrition"; "classes"; "pt"])
         (codes_of_line l3)
    /\ Forall (fun code => code ∈ ["exclusive"; "specialized"])
         (codes_of_line l4).
Proof.
  intros Hrun Hv.
  destruct (run_cli_cases limit c) as (v' & c'' & Hrun' & Hcases).
  rewrite Hrun in Hrun'. injection Hrun' as <- <-.
  destruct Hcases
    as [(l1 & l2 & l3 & l4 & l5 & m & r & Hp & _ & Hr & _)|[-> _]]; [|done].
  exists l1, l2, l3, l4, (Line l5 :: pending c'). split; [done|].
  apply calculate_total_ok in Hr as (Hvalid & _).
  apply valid_selection_spec in Hvalid as (_ & (item & Hplan & _) & Ha & Hpr).
  split; [by eapply PLANS_keys|]. split; apply Forall_forall; intros code Hc.
  - destruct (Ha code) as (it & Hl & _); [by apply list_elem_of_In|].
    by eapply ADDONS_keys.
  - destruct (Hpr code) as (it & Hl & _); [by apply list_elem_of_In|].
    by eapply PREMIUM_FEATURES_keys.
Qed.

Lemma run_cli_purchase_codes_witness :
  exists l1 l2 l3 l4 rest,
    [Line "1"; Line "FAMILY"; Line "pt classes"; Line "-"; Line "y"]
    = Line l1 :: Line l2 :: Line l3 :: Line l4 :: rest
    /\ lower (strip l2) ∈ ["basic"; "premium"; "family"]
    /\ Forall (fun code => code ∈ ["nutrition"; "classes"; "pt"])
         (codes_of_line l3)
    /\ Forall (fun code => code ∈ ["exclusive"; "specialized"])
         (codes_of_line l4).
Proof.
  set (c := mkConsole [Line "1"; Line "FAMILY"; Line "pt classes"; Line "-";
                       Line "y"] []).
  assert (Hrun : Cli.run_cli 4300 c = (Done 240, snd (Cli.run_cli 4300 c)))
    by (vm_compute; reflexivity).
  exact (run_cli_purchase_codes 4300 c 240 _ Hrun ltac:(done)).
Defined.

(** Upper-case add-on codes are not recognised. *)
Example upper_case_addon_refused :
  fst (Cli.run_cli 4300
         (mkConsole [Line "1"; Line "basic"; Line "PT"; Line "-"; Line "y"] []))
  = Done (-1).
Proof. vm_compute. reflexivity. Qed.


(** * The monthly fee *)

Example fee_basic_discount :
  calculate_monthly_fee "basic" true = Ok (float_of_Z 18).
Proof. vm_compute. reflexivity. Qed.

Example fee_vip_discount :
  calculate_monthly_fee "vip" true = Ok (float_of_Z 45).
Proof. vm_compute. reflexivity. Qed.

Example round_examples :
  py_round (float_lit 2675 1000) 2 = float_lit 267 100
  /\ py_round (float_lit 125 1000) 2 = float_lit 12 100
  /\ py_round (float_lit 1005 1000) 2 = float_of_Z 1.
Proof. vm_compute. by repeat split. Qed.

Lemma base_prices_keys plan price :
  base_prices !! plan = Some price ->
  plan = "basic" /\ price = float_of_Z 20
  \/ plan = "premium" /\ price = float_of_Z 35
  \/ plan = "vip" /\ price = float_of_Z 50.
Proof.
  unfold base_prices. rewrite !lookup_insert_Some, lookup_empty.
  intros [[<- <-]|[_ [[<- <-]|[_ [[<- <-]|[_ ?]]]]]]; auto; done.
Qed.

(** X19. [calculate_monthly_fee] raises [ValueError] for a plan outside its
    table; for a plan of the table it returns a float that is exactly the
    base price, or with the discount exactly nine tenths of it, to the
    cent: the float product by 0.9 and the rounding to two places leave no
    residue, and the result is the float nearest to that amount. *)
Theorem monthly_fee_exact plan_type has_discount :
  match base_prices !! plan_type with
  | None =>
      calculate_monthly_fee plan_type has_discount
      = Raise (ValueError invalid_plan)
  | Some price =>
      exists fee cents,
        calculate_monthly_fee plan_type has_discount = Ok fee
        /\ float_cents price = Some cents
        /\ float_cents fee
           = Some (if has_discount then (cents * 9) `div` 10 else cents)
        /\ (cents * 9) `mod` 10 = 0
        /\ fee = float_lit
                  (if has_discount then (cents * 9) `div` 10 else cents) 100
  end.
Proof.
  destruct (base_prices !! plan_type) as [price|] eqn:Hp.
  - unfold calculate_monthly_fee. rewrite Hp.
    set (paid := if has_discount then fmul price (float_lit 9 10) else price).
    apply base_prices_keys in Hp as [[-> ->]|[[-> ->]|[-> ->]]].
    + exists (py_round paid 2), 2000. split; [reflexivity|].
      subst paid. destruct has_discount; vm_compute; by repeat split.
    + exists (py_round paid 2), 3500. split; [reflexivity|].
      subst paid. destruct has_discount; vm_compute; by repeat split.
    + exists (py_round paid 2), 5000. split; [reflexivity|].
      subst paid. destruct has_discount; vm_compute; by repeat split.
  - unfold calculate_monthly_fee. by rewrite Hp.
Qed.


(** * The notes and the special offer *)

(** X20. For any catalog, the special-offer discount of a returned result
    is 0, 20 or 50, and the notes never misstate it: the "-$20" note is
    present exactly when the discount is 20, the "-$50" note exactly when
    it is 50; there are at most three notes and none is repeated. *)
Theorem offer_note_matches_discount plans extras features m p a pr r :
  Engine.calculate_total plans extras features m p a pr = Ok r ->
  (special_offer_discount_usd r = 0 \/ special_offer_discount_usd r = 20
   \/ special_offer_discount_usd r = 50)
  /\ (In offer20_note (messages r) <-> special_offer_discount_usd r = 20)
  /\ (In offer50_note (messages r) <-> special_offer_discount_usd r = 50)
  /\ (length (messages r) <= 3)%nat
  /\ NoDup (messages r).
Proof.
  intros Hr.
  apply calculate_total_ok in Hr as (_ & _ & pl & ads & prs & _ & _ & _ & ->).
  unfold priced. cbn - [special_offer_step].
  set (t := m * (price_usd pl + total_price ads + total_price prs)
            - group_discount_of m
                (m * (price_usd pl + total_price ads + total_price prs))
            + premium_surcharge_of prs
                (m * (price_usd pl + total_price ads + total_price prs)
                 - group_discount_of m
                     (m * (price_usd pl + total_price ads + total_price prs)))).
  pose proof (special_offer_step_cases t) as Hso.
  set (so := special_offer_step t) in *. clearbody so.
  assert (Hcases : so = 0 \/ so = 20 \/ so = 50) by (clearbody t; lia).
  clear Hso. clear t.
  split; [done|]. unfold notes_of.
  destruct Hcases as [-> |[-> | ->]]; repeat case_decide; try lia;
    destruct prs; cbn;
    (split; [note_membership|]); (split; [note_membership|]);
    (split; [lia|]);
    unfold group_note, surcharge_note, offer20_note, offer50_note;
    repeat (apply NoDup_cons; split;
            [rewrite ?elem_of_cons, ?elem_of_nil; intuition discriminate|]);
    apply NoDup_nil_2.
Qed.

Lemma offer_note_matches_discount_witness :
  exists r,
    calculate_total 4 "family" ["pt"] [] = Ok r
    /\ special_offer_discount_usd r = 50
    /\ In offer50_note (messages r).
Proof.
  eexists. split; [reflexivity|]. split; [reflexivity|].
  apply (offer_note_matches_discount PLANS ADDONS PREMIUM_FEATURES
           4 "family" ["pt"] [] _ eq_refl).
  reflexivity.
Defined.

(** The ordered item lists are the seed dictionaries. *)
Example items_are_the_dictionaries :
  list_to_map PLANS_items = PLANS
  /\ list_to_map ADDONS_items = ADDONS
  /\ list_to_map PREMIUM_FEATURES_items = PREMIUM_FEATURES.
Proof. by repeat split. Qed.
